(** * fancy_io: format-tag compiler and interactive prompt engine

    A shallow embedding of [fancy_io.py] (repository julian-hoelz/mastermind)
    and the properties of its tag compiler, bracket validator, format-string
    compiler and prompt functions.

    Python strings are modelled as lists of characters ([list ascii]); a
    function that raises returns [Raise e]. *)

From Stdlib Require Import String DecimalString DecimalPos.
From Stdlib Require Import List Ascii Bool Arith NArith ZArith Lia Btauto.
Import ListNotations.

Local Open Scope list_scope.
Local Open Scope char_scope.

(** ** Strings *)

Definition str := list ascii.

(** A Python string literal. *)
Definition py (x : string) : str := list_ascii_of_string x.

Definition ESC : ascii := "027".
Definition TAB : ascii := "009".
Definition NEWLINE : ascii := "010".

(** [c in s] for a one-character string [c]. *)
Definition char_in (c : ascii) (s : str) : bool := existsb (Ascii.eqb c) s.

Fixpoint str_eqb (a b : str) : bool :=
  match a, b with
  | [], [] => true
  | x :: a', y :: b' => Ascii.eqb x y && str_eqb a' b'
  | _, _ => false
  end.

(** [s[a:b]] for indices [0 <= a], [0 <= b]. *)
Definition slice (s : str) (a b : nat) : str := firstn (b - a) (skipn a s).

(** [sep.join(xs)] *)
Fixpoint join (sep : str) (xs : list str) : str :=
  match xs with
  | [] => []
  | [x] => x
  | x :: xs' => x ++ sep ++ join sep xs'
  end.

(** [str(n)] for a non-negative integer. *)
Definition str_of_N (n : N) : str := py (NilEmpty.string_of_uint (N.to_uint n)).

(** [str(z)], also [%d]. *)
Definition str_of_Z (z : Z) : str := py (NilEmpty.string_of_int (Z.to_int z)).

(** ** Exceptions and results *)

Inductive exn : Type :=
| ValueError (msg : str)
    (** [ValueError(msg)] *)
| BracketsMismatchError (format_str : str) (index_1 : nat) (index_2 : option nat) (error_msg : str)
    (** the [ValueError] built by [_brackets_mismatch_error(format_str, index_1,
        index_2, ob, cb, error_msg)]; its text is the highlighted rendering of
        these arguments *)
| TypeError
    (** a call with the wrong number of arguments *)
| AttributeError
    (** a method call on [None] *)
| IndexError
    (** an index out of range *)
| CommandInputException (command whole_input input_after_command : str) (args : list str)
    (** [CommandInputException] with its four attributes *)
| SystemExit
    (** raised by [sys.exit()] *)
| EOFError
    (** raised by [input()] at the end of the input *).

Inductive result (A : Type) : Type :=
| Ok (a : A)
| Raise (e : exn).

Arguments Ok {A} a.
Arguments Raise {A} e.

Definition bind {A B} (r : result A) (f : A -> result B) : result B :=
  match r with
  | Ok a => f a
  | Raise e => Raise e
  end.

Notation "x <- r ;; k" := (bind r (fun x => k))
  (at level 61, r at next level, right associativity).
Notation "' pat <- r ;; k" := (bind r (fun x => match x with pat => k end))
  (at level 61, pat pattern, r at next level, right associativity).

(** Is the exception a [ValueError] raised for a malformed tag? *)
Definition is_ValueError (e : exn) : bool :=
  match e with
  | ValueError _ => true
  | _ => false
  end.

(** ** Mode registry *)

(** [Escape.code] is an [int] or a [str]. *)
Inductive code : Type :=
| CodeInt (n : N)
| CodeStr (s : str).

(** [str(code)] *)
Definition str_of_code (c : code) : str :=
  match c with
  | CodeInt n => str_of_N n
  | CodeStr s => s
  end.

Record Escape : Type := mkEscape {
  esc_code : code;
  esc_seq : str;
  fancy_io_format_key : str
}.

(** [Escape.__init__] *)
Definition Escape_init (c : code) (key : str) : Escape :=
  {| esc_code := c;
     esc_seq := ESC :: py "[" ++ str_of_code c ++ py "m";
     fancy_io_format_key := key |}.

(** The three kinds of [Mode]. The description text [desc] is left out; the
    [reset_mode] of every color and reset mode of the registry is [None], and
    every style mode of the registry has one. *)
Record ResetMode : Type := mkResetMode {
  reset_name : str;
  reset_esc : Escape
}.

Record StyleMode : Type := mkStyleMode {
  style_name : str;
  style_esc : Escape;
  style_reset_mode : ResetMode
}.

Record ColorMode : Type := mkColorMode {
  color_name : str;
  fg_esc : Escape;
  bg_esc : Escape
}.

Definition ColorMode_init (name : string) (fg_code bg_code : N) (key : string) : ColorMode :=
  {| color_name := py name;
     fg_esc := Escape_init (CodeInt fg_code) (py key);
     bg_esc := Escape_init (CodeInt bg_code) ("#" :: py key) |}.

Definition ResetMode_init (name : string) (c : code) (key : string) : ResetMode :=
  {| reset_name := py name; reset_esc := Escape_init c (py key) |}.

Definition StyleMode_init (name : string) (c : N) (reset_mode : ResetMode) (key : string) : StyleMode :=
  {| style_name := py name;
     style_esc := Escape_init (CodeInt c) (py key);
     style_reset_mode := reset_mode |}.

Definition DEFAULT_COLOR := ColorMode_init "DEFAULT_COLOR" 39 49 "d".
Definition BLACK := ColorMode_init "BLACK" 30 40 "n".
Definition RED := ColorMode_init "RED" 31 41 "r".
Definition GREEN := ColorMode_init "GREEN" 32 42 "g".
Definition YELLOW := ColorMode_init "YELLOW" 33 43 "y".
Definition BLUE := ColorMode_init "BLUE" 34 44 "b".
Definition MAGENTA := ColorMode_init "MAGENTA" 35 45 "m".
Definition CYAN := ColorMode_init "CYAN" 36 46 "c".
Definition WHITE := ColorMode_init "WHITE" 37 47 "w".
Definition BBLACK := ColorMode_init "BBLACK" 90 100 "N".
Definition BRED := ColorMode_init "BRED" 91 101 "R".
Definition BGREEN := ColorMode_init "BGREEN" 92 102 "G".
Definition BYELLOW := ColorMode_init "BYELLOW" 93 103 "Y".
Definition BBLUE := ColorMode_init "BBLUE" 94 104 "B".
Definition BMAGENTA := ColorMode_init "BMAGENTA" 95 105 "M".
Definition BCYAN := ColorMode_init "BCYAN" 96 106 "C".
Definition BWHITE := ColorMode_init "BWHITE" 97 107 "W".

Definition RESET_ALL := ResetMode_init "RESET_ALL" (CodeInt 0) "!a".
Definition RESET_ALL_STYLES :=
  ResetMode_init "RESET_ALL_STYLES" (CodeStr (py "22;23;24;25;27;28;29")) "!s".
Definition RESET_BOLD_DIM := ResetMode_init "RESET_BOLD_DIM" (CodeInt 22) "!f".
Definition RESET_ITALIC := ResetMode_init "RESET_ITALIC" (CodeInt 23) "!i".
Definition RESET_UNDERLINE := ResetMode_init "RESET_UNDERLINE" (CodeInt 24) "!u".
Definition RESET_BLINKING := ResetMode_init "RESET_BLINKING" (CodeInt 25) "!o".
Definition RESET_INVERSED := ResetMode_init "RESET_INVERSED" (CodeInt 27) "!I".
Definition RESET_HIDDEN := ResetMode_init "RESET_HIDDEN" (CodeInt 28) "!x".
Definition RESET_STRIKETHROUGH := ResetMode_init "RESET_STRIKETHROUGH" (CodeInt 29) "!S".

Definition BOLD := StyleMode_init "BOLD" 1 RESET_BOLD_DIM "f".
Definition DIM := StyleMode_init "DIM" 2 RESET_BOLD_DIM "D".
Definition ITALIC := StyleMode_init "ITALIC" 3 RESET_ITALIC "i".
Definition UNDERLINE := StyleMode_init "UNDERLINE" 4 RESET_UNDERLINE "u".
Definition DOUBLE_UNDERLINE := StyleMode_init "DOUBLE_UNDERLINE" 21 RESET_UNDERLINE "U".
Definition BLINKING := StyleMode_init "BLINKING" 5 RESET_BLINKING "o".
Definition RAPID_BLINKING := StyleMode_init "RAPID_BLINKING" 6 RESET_BLINKING "O".
Definition INVERSED := StyleMode_init "INVERSED" 7 RESET_INVERSED "I".
Definition HIDDEN := StyleMode_init "HIDDEN" 8 RESET_HIDDEN "x".
Definition STRIKETHROUGH := StyleMode_init "STRIKETHROUGH" 9 RESET_STRIKETHROUGH "S".

Definition COLOR_MODES : list ColorMode :=
  [DEFAULT_COLOR; BLACK; RED; GREEN; YELLOW; BLUE; MAGENTA; CYAN; WHITE;
   BBLACK; BRED; BGREEN; BYELLOW; BBLUE; BMAGENTA; BCYAN; BWHITE].

Definition STYLE_MODES : list StyleMode :=
  [BOLD; DIM; ITALIC; UNDERLINE; DOUBLE_UNDERLINE; BLINKING; RAPID_BLINKING;
   INVERSED; HIDDEN; STRIKETHROUGH].

Definition RESET_MODES : list ResetMode :=
  [RESET_ALL; RESET_ALL_STYLES; RESET_BOLD_DIM; RESET_ITALIC; RESET_UNDERLINE;
   RESET_BLINKING; RESET_INVERSED; RESET_HIDDEN; RESET_STRIKETHROUGH].

(** *** Dictionaries from key strings to modes

    A [dict] keeps its keys in insertion order; setting an existing key
    replaces the value in place. *)

Definition dict (V : Type) : Type := list (str * V).

Fixpoint dict_set {V} (k : str) (v : V) (d : dict V) : dict V :=
  match d with
  | [] => [(k, v)]
  | (k', v') :: d' =>
      if str_eqb k' k then (k, v) :: d' else (k', v') :: dict_set k v d'
  end.

(** [d.get(k)] *)
Fixpoint dict_get {V} (d : dict V) (k : str) : option V :=
  match d with
  | [] => None
  | (k', v) :: d' => if str_eqb k' k then Some v else dict_get d' k
  end.

(** [{key(m): m for m in ms}] *)
Definition dict_comp {V} (key : V -> str) (ms : list V) : dict V :=
  fold_left (fun d m => dict_set (key m) m d) ms [].

(** The keys of [d1 | d2], in order. *)
Definition keys_union (ks1 ks2 : list str) : list str :=
  fold_left (fun ks k => if existsb (str_eqb k) ks then ks else ks ++ [k]) ks2 ks1.

Definition keys {V} (d : dict V) : list str := map fst d.

Definition _COLOR_MODES_FOR_FORMAT_CHARS : dict ColorMode :=
  dict_comp (fun m => fancy_io_format_key (fg_esc m)) COLOR_MODES.

Definition _STYLE_MODES_FOR_FORMAT_CHARS : dict StyleMode :=
  dict_comp (fun m => fancy_io_format_key (style_esc m)) STYLE_MODES.

(** the key is [fancy_io_format_key[1]] *)
Definition _RESET_MODES_FOR_FORMAT_CHARS : dict ResetMode :=
  dict_comp (fun m => slice (fancy_io_format_key (reset_esc m)) 1 2) RESET_MODES.

Definition _ALL_KEY_LETTERS : str :=
  concat (keys_union
            (keys_union (keys _COLOR_MODES_FOR_FORMAT_CHARS)
                        (keys _STYLE_MODES_FOR_FORMAT_CHARS))
            (keys _RESET_MODES_FOR_FORMAT_CHARS)).

(** Identity of mode objects: two registry entries are the same object
    exactly when they are equal as records. *)
Definition code_eq_dec (a b : code) : {a = b} + {a <> b}.
Proof. decide equality; [apply N.eq_dec | apply (list_eq_dec ascii_dec)]. Defined.

Definition Escape_eq_dec (a b : Escape) : {a = b} + {a <> b}.
Proof.
  decide equality; try apply (list_eq_dec ascii_dec); apply code_eq_dec.
Defined.

Definition ResetMode_eq_dec (a b : ResetMode) : {a = b} + {a <> b}.
Proof.
  decide equality; [apply Escape_eq_dec | apply (list_eq_dec ascii_dec)].
Defined.

Definition StyleMode_eq_dec (a b : StyleMode) : {a = b} + {a <> b}.
Proof.
  decide equality;
    [apply ResetMode_eq_dec | apply Escape_eq_dec | apply (list_eq_dec ascii_dec)].
Defined.

(** [_append_if_not_in_list] *)
Definition _append_if_not_in_list {A} (eq_dec : forall a b : A, {a = b} + {a <> b})
    (ls : list A) (value : A) : list A :=
  if in_dec eq_dec value ls then ls else ls ++ [value].

(** ** Escape sequences *)

(** A color slot holds a [ColorMode] or an [int]. *)
Inductive color : Type :=
| ColorOfMode (m : ColorMode)
| ColorOfInt (n : N).

(** An argument of type [Collection[M] | M | None]. *)
Inductive modes_arg (A : Type) : Type :=
| NoModes
| OneMode (m : A)
| Modes (ms : list A).

Arguments NoModes {A}.
Arguments OneMode {A} m.
Arguments Modes {A} ms.

Record ModeCombi : Type := mkModeCombi {
  combi_fg : option color;
  combi_bg : option color;
  combi_styles : modes_arg StyleMode
}.

(** [Mode.escape] of a color mode *)
Definition escape (m : ColorMode) (for_bg : bool) : Escape :=
  if for_bg then bg_esc m else fg_esc m.

Definition _code_for_color_mode_or_num (c : color) (for_bg : bool) : str :=
  match c with
  | ColorOfInt n => str_of_N (if for_bg then 48 else 38)%N ++ py ";5;" ++ str_of_N n
  | ColorOfMode m => str_of_code (esc_code (escape m for_bg))
  end.

Definition _code_list (resets : modes_arg ResetMode) (fg bg : option color)
    (styles : modes_arg StyleMode) : list str :=
  let resets := match resets with NoModes => [] | OneMode r => [r] | Modes rs => rs end in
  let styles := match styles with NoModes => [] | OneMode s => [s] | Modes ss => ss end in
  let codes := map (fun r => str_of_code (esc_code (reset_esc r))) resets in
  let codes := codes ++ map (fun s => str_of_code (esc_code (style_esc s))) styles in
  let codes :=
    match bg with
    | Some c => codes ++ [_code_for_color_mode_or_num c true]
    | None => codes
    end in
  match fg with
  | Some c => codes ++ [_code_for_color_mode_or_num c false]
  | None => codes
  end.

(** Truth value of a [ColorMode | int | None]. *)
Definition color_truthy (c : option color) : bool :=
  match c with
  | None => false
  | Some (ColorOfInt n) => negb (N.eqb n 0)
  | Some (ColorOfMode _) => true
  end.

(** Truth value of a [Collection[StyleMode] | StyleMode | None]. *)
Definition styles_truthy (s : modes_arg StyleMode) : bool :=
  match s with
  | NoModes => false
  | OneMode _ => true
  | Modes ss => negb (Nat.eqb (length ss) 0)
  end.

Definition escseq (resets : modes_arg ResetMode) (fg bg : option color)
    (styles : modes_arg StyleMode) (mode_combi : option ModeCombi) : str :=
  let '(fg, bg, styles) :=
    match mode_combi with
    | Some mc =>
        (if color_truthy (combi_fg mc) then combi_fg mc else fg,
         if color_truthy (combi_bg mc) then combi_bg mc else bg,
         if styles_truthy (combi_styles mc) then combi_styles mc else styles)
    | None => (fg, bg, styles)
    end in
  let codes := _code_list resets fg bg styles in
  if Nat.eqb (length codes) 0 then [] else ESC :: py "[" ++ join (py ";") codes ++ py "m".

Definition _escseq_fg_or_bg (c : color) (for_bg : bool) (resets : modes_arg ResetMode)
    (styles : modes_arg StyleMode) : str :=
  if for_bg then escseq resets None (Some c) styles None
  else escseq resets (Some c) None styles None.

Definition _reset_all_escseq (reset_all : bool) (fg bg : option color)
    (styles : modes_arg StyleMode) (mode_combi : option ModeCombi) : str :=
  let reset_mode := if reset_all then OneMode RESET_ALL else NoModes in
  escseq reset_mode fg bg styles mode_combi.

(** ** Format tags *)

(** The local variables of [FormatTag._calc_mode_attrs]. *)
Module Locals.
Record t : Type := mk {
  reset_marker : bool;
  bg_marker : bool;
  n_256_start : option nat;
  resets : list ResetMode;
  styles : list StyleMode;
  bg_color : option color;
  fg_color : option color;
  resets_of_styles : list ResetMode
}.

Definition init : t :=
  mk false false None [] [] None None [].

Definition set_reset_marker (b : bool) (l : t) : t :=
  mk b (bg_marker l) (n_256_start l) (resets l) (styles l) (bg_color l) (fg_color l)
     (resets_of_styles l).
Definition set_bg_marker (b : bool) (l : t) : t :=
  mk (reset_marker l) b (n_256_start l) (resets l) (styles l) (bg_color l) (fg_color l)
     (resets_of_styles l).
Definition set_n_256_start (n : option nat) (l : t) : t :=
  mk (reset_marker l) (bg_marker l) n (resets l) (styles l) (bg_color l) (fg_color l)
     (resets_of_styles l).
Definition set_resets (rs : list ResetMode) (l : t) : t :=
  mk (reset_marker l) (bg_marker l) (n_256_start l) rs (styles l) (bg_color l) (fg_color l)
     (resets_of_styles l).
Definition set_styles (ss : list StyleMode) (l : t) : t :=
  mk (reset_marker l) (bg_marker l) (n_256_start l) (resets l) ss (bg_color l) (fg_color l)
     (resets_of_styles l).
Definition set_bg_color (c : option color) (l : t) : t :=
  mk (reset_marker l) (bg_marker l) (n_256_start l) (resets l) (styles l) c (fg_color l)
     (resets_of_styles l).
Definition set_fg_color (c : option color) (l : t) : t :=
  mk (reset_marker l) (bg_marker l) (n_256_start l) (resets l) (styles l) (bg_color l) c
     (resets_of_styles l).
Definition set_resets_of_styles (rs : list ResetMode) (l : t) : t :=
  mk (reset_marker l) (bg_marker l) (n_256_start l) (resets l) (styles l) (bg_color l)
     (fg_color l) rs.
End Locals.

Import Locals.

Definition digits : str := py "0123456789".
Definition separators : str := [" "; TAB; ","; ";"].

(** [int(s)] for a string of ASCII digits; [None] stands for the [ValueError]
    of a string that is no decimal literal. *)
Definition digit_value (c : ascii) : option N :=
  if char_in c digits then Some (N_of_ascii c - 48)%N else None.

Fixpoint int_of_digits_from (acc : N) (s : str) : option N :=
  match s with
  | [] => Some acc
  | c :: s' =>
      match digit_value c with
      | Some d => int_of_digits_from (acc * 10 + d)%N s'
      | None => None
      end
  end.

Definition int_of_digits (s : str) : option N :=
  match s with
  | [] => None
  | _ => int_of_digits_from 0%N s
  end.

(** [FormatTag._invalid_key_error] *)
Definition _invalid_key_error (str_value invalid : str) : exn :=
  ValueError (py "'" ++ str_value ++ py "': invalid format key: '" ++ invalid ++ py "'").

(** [FormatTag._parse_256_color] *)
Definition _parse_256_color (str_value n_256_str : str) (fg_color bg_color : option color)
    (bg_marker : bool) : result (option color * option color) :=
  match int_of_digits n_256_str with
  | None => Raise (ValueError (py "invalid literal for int()"))
  | Some n_256_int =>
      if (255 <? n_256_int)%N then Raise (_invalid_key_error str_value n_256_str)
      else if bg_marker then Ok (fg_color, Some (ColorOfInt n_256_int))
      else Ok (Some (ColorOfInt n_256_int), bg_color)
  end.

(** The closure [set_n_256_color(index_inc=...)], at loop index [i]. *)
Definition set_n_256_color (str_value tag_content : str) (i index_inc : nat) (l : Locals.t)
    : result Locals.t :=
  match n_256_start l with
  | Some start =>
      let n_256_str := slice tag_content start (i + index_inc) in
      '(fg, bg) <- _parse_256_color str_value n_256_str (fg_color l) (bg_color l) (bg_marker l) ;;
      Ok (set_bg_marker false (set_n_256_start None (set_bg_color bg (set_fg_color fg l))))
  | None => Ok l
  end.

(** One iteration of [for (i, char) in enumerate(tag_content)]. *)
Definition loop_body (str_value tag_content : str) (i : nat) (char : ascii) (l : Locals.t)
    : result Locals.t :=
  if Ascii.eqb char "#" then
    if reset_marker l then Raise (_invalid_key_error str_value (py "!#"))
    else if bg_marker l then Raise (_invalid_key_error str_value (py "##"))
    else
      l <- set_n_256_color str_value tag_content i 0 l ;;
      Ok (set_bg_marker true l)
  else if Ascii.eqb char "!" then
    if reset_marker l then Raise (_invalid_key_error str_value (py "!!"))
    else if bg_marker l then Raise (_invalid_key_error str_value (py "#!"))
    else
      l <- set_n_256_color str_value tag_content i 0 l ;;
      Ok (set_reset_marker true l)
  else if char_in char separators then
    if reset_marker l then Raise (_invalid_key_error str_value ["!"; char])
    else
      l <- set_n_256_color str_value tag_content i 0 l ;;
      if bg_marker l then Raise (_invalid_key_error str_value ["#"; char])
      else Ok l
  else if char_in char digits then
    if reset_marker l then Raise (_invalid_key_error str_value ["!"; char])
    else
      match n_256_start l with
      | None => Ok (set_n_256_start (Some i) l)
      | Some _ => Ok l
      end
  else
    if negb (char_in char _ALL_KEY_LETTERS) then Raise (_invalid_key_error str_value [char])
    else
      l <- set_n_256_color str_value tag_content i 0 l ;;
      if bg_marker l then
        match dict_get _COLOR_MODES_FOR_FORMAT_CHARS [char] with
        | None => Raise (_invalid_key_error str_value ["#"; char])
        | Some m => Ok (set_bg_marker false (set_bg_color (Some (ColorOfMode m)) l))
        end
      else if reset_marker l then
        match dict_get _RESET_MODES_FOR_FORMAT_CHARS [char] with
        | None =>
            (* [self._invalid_key_error('!', char)] is a call with one
               argument too many *)
            Raise TypeError
        | Some reset_mode =>
            Ok (set_reset_marker false
                  (set_resets (_append_if_not_in_list ResetMode_eq_dec (resets l) reset_mode) l))
        end
      else
        match dict_get _STYLE_MODES_FOR_FORMAT_CHARS [char] with
        | None =>
            Ok (set_fg_color
                  (option_map ColorOfMode (dict_get _COLOR_MODES_FOR_FORMAT_CHARS [char])) l)
        | Some style =>
            Ok (set_resets_of_styles
                  (_append_if_not_in_list ResetMode_eq_dec (resets_of_styles l)
                     (style_reset_mode style))
                  (set_styles (_append_if_not_in_list StyleMode_eq_dec (styles l) style) l))
        end.

(** The loop over [enumerate(tag_content)], from index [i] on, [rest] being
    the characters from that index. *)
Fixpoint loop (str_value tag_content : str) (i : nat) (rest : str) (l : Locals.t)
    : result Locals.t :=
  match rest with
  | [] => Ok l
  | char :: rest' =>
      l <- loop_body str_value tag_content i char l ;;
      loop str_value tag_content (S i) rest' l
  end.

(** [FormatTag._calc_mode_attrs]: the values of the local variables when the
    attributes are stored. *)
Definition _calc_mode_attrs (str_value : str) (tag_brackets : ascii * ascii) : result Locals.t :=
  let '(ob, cb) := tag_brackets in
  let startswith := match str_value with c :: _ => Ascii.eqb c ob | [] => false end in
  let endswith := match rev str_value with c :: _ => Ascii.eqb c cb | [] => false end in
  if negb (startswith && endswith) then
    Raise (ValueError (py "'" ++ str_value
                         ++ py "': Tag does not start and end with the given brackets '"
                         ++ [ob; cb] ++ py "'"))
  else
    let tag_content := removelast (tl str_value) in
    if Nat.ltb 0 (length tag_content) then
      l <- loop str_value tag_content 0 tag_content Locals.init ;;
      let i := length tag_content - 1 in
      if char_in (nth i tag_content " ") (py "!#") then
        Raise (_invalid_key_error str_value (py "expected key after '!' or '#'"))
      else
        match n_256_start l with
        | Some _ => set_n_256_color str_value tag_content i 1 l
        | None => Ok l
        end
    else Ok Locals.init.

Record FormatTag : Type := mkFormatTag {
  tag_brackets : ascii * ascii;
  str_value : str;
  resets : list ResetMode;
  styles : list StyleMode;
  bg_color : option color;
  fg_color : option color;
  resets_of_styles : list ResetMode;
  resets_escseq : str;
  styles_escseq : str;
  bg_color_escseq : str;
  fg_color_escseq : str;
  resets_of_styles_escseq : str;
  full_escseq : str
}.

(** [FormatTag._calc_color_escseq] *)
Definition _calc_color_escseq (resets : list ResetMode) (styles : list StyleMode)
    (c : option color) (for_bg : bool) : str :=
  match c with
  | None => []
  | Some c => _escseq_fg_or_bg c for_bg (Modes resets) (Modes styles)
  end.

(** [FormatTag.__init__]: [_init_empty] when [str_value] is [None], else
    [_calc_mode_attrs] followed by [_calc_escseqs]. *)
Definition FormatTag_init (str_value : option str) (tag_brackets : option (ascii * ascii))
    : result FormatTag :=
  let tag_brackets := match tag_brackets with Some b => b | None => ("<", ">") end in
  match str_value with
  | None =>
      Ok (mkFormatTag tag_brackets [fst tag_brackets; snd tag_brackets]
            [] [] None None [] [] [] [] [] [] [])
  | Some str_value =>
      l <- _calc_mode_attrs str_value tag_brackets ;;
      let resets := Locals.resets l in
      let styles := Locals.styles l in
      let bg_color := Locals.bg_color l in
      let fg_color := Locals.fg_color l in
      let resets_of_styles := Locals.resets_of_styles l in
      Ok (mkFormatTag tag_brackets str_value resets styles bg_color fg_color resets_of_styles
            (escseq (Modes resets) None None NoModes None)
            (escseq NoModes None None (Modes styles) None)
            (_calc_color_escseq resets styles bg_color true)
            (_calc_color_escseq resets styles fg_color false)
            (escseq (Modes resets_of_styles) None None NoModes None)
            (escseq (Modes resets) fg_color bg_color (Modes styles) None))
  end.

(** ** Bracket validator *)

Module _BracketsRepl.
Definition OPEN : ascii := "017".
Definition CLOSED : ascii := "018".
End _BracketsRepl.

(** [_brackets_mismatch_error]: the diagnostic text is not rendered; the error
    keeps the arguments it is rendered from. *)
Definition _brackets_mismatch_error (format_str : str) (index_1 : nat) (index_2 : option nat)
    (open_bracket closed_bracket : ascii) (error_msg : str) : exn :=
  BracketsMismatchError format_str index_1 index_2 error_msg.

(** The loop of [_check_brackets_match] from index [i] on; it returns the
    final values of [obi] and [opened]. *)
Fixpoint check_loop (format_str : str) (ob cb : ascii) (i : nat) (rest : str)
    (obi : nat) (opened : bool) : result (nat * bool) :=
  match rest with
  | [] => Ok (obi, opened)
  | char :: rest' =>
      if Ascii.eqb char ob then
        if opened then
          Raise (_brackets_mismatch_error format_str obi (Some i) ob cb
                   (py "Two consecutive open tag brackets '" ++ [ob] ++ py "' are not allowed"))
        else check_loop format_str ob cb (S i) rest' i true
      else if Ascii.eqb char cb then
        if negb opened then
          Raise (_brackets_mismatch_error format_str i None ob cb
                   (py "Unmatched closed tag bracket '" ++ [cb] ++ py "'"))
        else check_loop format_str ob cb (S i) rest' obi false
      else check_loop format_str ob cb (S i) rest' obi opened
  end.

Definition _check_brackets_match (format_str : str) (brackets : ascii * ascii) : result unit :=
  let '(ob, cb) := brackets in
  '(obi, opened) <- check_loop format_str ob cb 0 format_str 0 false ;;
  if opened then
    Raise (_brackets_mismatch_error format_str obi None ob cb
             (py "Unclosed open tag bracket '" ++ [ob] ++ py "'"))
  else Ok tt.

(** ** Format-string compiler *)

(** [s.startswith(p)] *)
Fixpoint startswith (p s : str) : bool :=
  match p, s with
  | [], _ => true
  | x :: p', y :: s' => Ascii.eqb x y && startswith p' s'
  | _ :: _, [] => false
  end.

(** [s.replace(old, new)] for a non-empty [old]: occurrences are replaced
    from left to right without overlap; [skip] counts the characters of an
    occurrence still to pass over. *)
Fixpoint replace_from (old new s : str) (skip : nat) : str :=
  match s with
  | [] => []
  | c :: s' =>
      match skip with
      | S k => replace_from old new s' k
      | O =>
          if startswith old s then new ++ replace_from old new s' (length old - 1)
          else c :: replace_from old new s' 0
      end
  end.

Definition replace (old new s : str) : str := replace_from old new s 0.

(** The number of characters that [.*?cb] matches at the start of [s]: the
    characters up to the first [cb], none of them a line break. *)
Fixpoint lazy_until (cb : ascii) (s : str) : option nat :=
  match s with
  | [] => None
  | c :: s' =>
      if Ascii.eqb c cb then Some 1
      else if Ascii.eqb c NEWLINE then None
      else option_map S (lazy_until cb s')
  end.

(** Leftmost non-overlapping matches of the tag pattern [ob.*?cb]: the parts
    between the matches ([re.split]) and the matches ([re.findall]). The
    pattern is built from the two bracket characters, so this is the pattern
    for brackets that stand for themselves in a regular expression, among
    them the default pair and the three escaped pairs. *)
Fixpoint re_scan (ob cb : ascii) (s : str) (skip : nat) : list str * list str :=
  match s with
  | [] => ([[]], [])
  | c :: s' =>
      match skip with
      | S k => re_scan ob cb s' k
      | O =>
          match (if Ascii.eqb c ob then lazy_until cb s' else None) with
          | Some n =>
              let '(parts, tags) := re_scan ob cb s' n in
              ([] :: parts, (c :: firstn n s') :: tags)
          | None =>
              let '(parts, tags) := re_scan ob cb s' 0 in
              (match parts with
               | p :: ps => (c :: p) :: ps
               | [] => [[c]]
               end, tags)
          end
      end
  end.

Definition re_findall_tags (brackets : ascii * ascii) (s : str) : list str :=
  snd (re_scan (fst brackets) (snd brackets) s 0).

Definition re_split_tags (brackets : ascii * ascii) (s : str) : list str :=
  fst (re_scan (fst brackets) (snd brackets) s 0).

Definition _place_reset_all_tags (format_str : str) (start_reset_all end_reset_all : bool) : str :=
  let format_str := if start_reset_all then py "<!a>" ++ format_str else format_str in
  if end_reset_all then format_str ++ py "<!a>" else format_str.

(** [[f(x) for x in xs]] where [f] may raise. *)
Fixpoint map_result {A B} (f : A -> result B) (xs : list A) : result (list B) :=
  match xs with
  | [] => Ok []
  | x :: xs' =>
      y <- f x ;;
      ys <- map_result f xs' ;;
      Ok (y :: ys)
  end.

Definition fancyformat (format_str : str) (tag_brackets : option (ascii * ascii))
    (start_reset_all end_reset_all : bool) : result str :=
  let tag_brackets := match tag_brackets with Some b => b | None => ("<", ">") end in
  let '(otb, ctb) := tag_brackets in
  let format_str := replace ["\"; otb] [_BracketsRepl.OPEN] format_str in
  let format_str := replace ["\"; ctb] [_BracketsRepl.CLOSED] format_str in
  _ <- _check_brackets_match format_str tag_brackets ;;
  let format_str := _place_reset_all_tags format_str start_reset_all end_reset_all in
  let tags := re_findall_tags tag_brackets format_str in
  let parts := re_split_tags tag_brackets format_str in
  escseqs <- map_result
               (fun t => tag <- FormatTag_init (Some t) (Some tag_brackets) ;;
                         Ok (full_escseq tag))
               tags ;;
  let result := concat (map (fun ps => fst ps ++ snd ps) (combine parts escseqs)) in
  let result := result ++ last parts [] in
  let result := replace [_BracketsRepl.OPEN] [otb] result in
  let result := replace [_BracketsRepl.CLOSED] [ctb] result in
  Ok result.

(** [unfancy]: [re.sub(r'\x1b\[.+?m', '', s)] *)
Fixpoint unfancy_from (s : str) (skip : nat) : str :=
  match s with
  | [] => []
  | c :: s' =>
      match skip with
      | S k => unfancy_from s' k
      | O =>
          let matched :=
            match s' with
            | c2 :: c3 :: s3 =>
                if Ascii.eqb c ESC && Ascii.eqb c2 "[" && negb (Ascii.eqb c3 NEWLINE)
                then option_map (fun n => 2 + n) (lazy_until "m" s3)
                else None
            | _ => None
            end in
          match matched with
          | Some n => unfancy_from s' n
          | None => c :: unfancy_from s' 0
          end
      end
  end.

Definition unfancy (s : str) : str := unfancy_from s 0.

(** [re.sub(r'<.+?>', '', s)] *)
Fixpoint remove_tags_from (s : str) (skip : nat) : str :=
  match s with
  | [] => []
  | c :: s' =>
      match skip with
      | S k => remove_tags_from s' k
      | O =>
          let matched :=
            match s' with
            | c2 :: s2 =>
                if Ascii.eqb c "<" && negb (Ascii.eqb c2 NEWLINE)
                then option_map S (lazy_until ">" s2)
                else None
            | [] => None
            end in
          match matched with
          | Some n => remove_tags_from s' n
          | None => c :: remove_tags_from s' 0
          end
      end
  end.

Definition remove_format_tags (format_str : str) : str :=
  let format_str := replace (py "\<") [_BracketsRepl.OPEN] format_str in
  let format_str := replace (py "\>") [_BracketsRepl.CLOSED] format_str in
  let format_str := remove_tags_from format_str 0 in
  let format_str := replace [_BracketsRepl.OPEN] (py "<") format_str in
  replace [_BracketsRepl.CLOSED] (py ">") format_str.

(** [_remove_backslash_before_brackets] with the default brackets *)
Definition _remove_backslash_before_brackets (s : str) : str :=
  replace (py "\>") (py ">") (replace (py "\<") (py "<") s).

(** ** Terminal input and output

    A prompt function reads the lines of the standard input one by one and
    writes to the standard output. It is modelled as a function of the list
    of lines still to be read; it yields the events it causes, in order, and
    its result. *)

Inductive event : Type :=
| Input (prompt : str)
    (** [input(prompt)]: the prompt is written and a line is read *)
| Print (text : str)
    (** [text] is written to the standard output *)
| Call_before_exit
    (** [call_before_exit()] is called and returns *).

Definition io (A : Type) : Type := (list event * result A)%type.

Definition io_ret {A} (a : A) : io A := ([], Ok a).

Definition io_raise {A} (e : exn) : io A := ([], Raise e).

Definition io_lift {A} (r : result A) : io A := ([], r).

Definition io_bind {A B} (m : io A) (k : A -> io B) : io B :=
  match snd m with
  | Ok a => (fst m ++ fst (k a), snd (k a))
  | Raise e => (fst m, Raise e)
  end.

Definition emit {A} (evs : list event) (m : io A) : io A := (evs ++ fst m, snd m).

Notation "x <~ m ;; k" := (io_bind m (fun x => k))
  (at level 61, m at next level, right associativity).
Notation "m >> k" := (io_bind m (fun _ => k))
  (at level 61, right associativity).

(** [print(text, end=end)] *)
Definition print (text end_ : str) : io unit := ([Print (text ++ end_)], Ok tt).

(** [reset_all] *)
Definition reset_all : io unit := print (esc_seq (reset_esc RESET_ALL)) [].

Definition _move_cursor (direction : ascii) (places : nat) : io unit :=
  if Nat.ltb 0 places then
    print (ESC :: py "[" ++ str_of_N (N.of_nat places) ++ [direction]) []
  else io_ret tt.

Definition move_cursor_up (lines : nat) : io unit := _move_cursor "A" lines.
Definition move_cursor_right (places : nat) : io unit := _move_cursor "C" places.

(** [fancyprintf(format_str, start_reset_all=..., end=...)] with the default
    brackets, [shift=0] and [end_reset_all=True] *)
Definition fancyprintf (format_str : str) (start_reset_all : bool) (end_ : str) : io unit :=
  text <~ io_lift (fancyformat format_str (Some ("<", ">")) start_reset_all true) ;;
  print text end_.

(** ['\\x%02x' % ord(c)] *)
Definition hex_digit (n : nat) : ascii := nth n (py "0123456789abcdef") "0".

Definition hex_escape (c : ascii) : str :=
  let n := nat_of_ascii c in
  ["\"; "x"; hex_digit (n / 16); hex_digit (n mod 16)].

(** [re.sub(r'[\x00-\x1f]', lambda c: '\\x%02x' % ord(c.group()), part)] *)
Definition escape_controls (part : str) : str :=
  flat_map (fun c => if Nat.leb (nat_of_ascii c) 31 then hex_escape c else [c]) part.

(** The loop of [_prepare_input_marking] over [enumerate(input_format + '<')]. *)
Fixpoint prepare_loop (input_format : str) (i : nat) (rest : str)
    (result : str) (in_tag : bool) (start tabs : nat) : str * nat :=
  match rest with
  | [] => (result, tabs)
  | char :: rest' =>
      if Ascii.eqb char TAB then
        prepare_loop input_format (S i) rest' result in_tag start
          (if negb in_tag then tabs + 1 else tabs)
      else if Ascii.eqb char "<" then
        let part := slice input_format start i in
        prepare_loop input_format (S i) rest' (result ++ escape_controls part) true i tabs
      else if Ascii.eqb char ">" then
        let part := slice input_format start (i + 1) in
        prepare_loop input_format (S i) rest' (result ++ part) false (i + 1) tabs
      else prepare_loop input_format (S i) rest' result in_tag start tabs
  end.

Definition _prepare_input_marking (input_format : str) : str * nat :=
  prepare_loop input_format 0 (input_format ++ py "<") [] false 0 0.

Inductive MarkingExtra : Type := LOWER_CASE | UPPER_CASE.

(** Built-in functions of Python that the prompt functions call. *)
Class Builtins : Type := {
  lower : str -> str;
    (** [s.lower()] *)
  upper : str -> str;
    (** [s.upper()] *)
  int_of_str : str -> option Z;
    (** [int(s)], [None] when it raises [ValueError] *)
  repr : str -> str
    (** [repr(s)] *)
}.

(** Whitespace characters, as [str.split] sees them. *)
Definition isspace (c : ascii) : bool :=
  let n := nat_of_ascii c in
  (Nat.leb 9 n && Nat.leb n 13) || (Nat.leb 28 n && Nat.leb n 32)
  || Nat.eqb n 133 || Nat.eqb n 160.

(** [s.split()]; [tok] is the token being read. *)
Fixpoint split_from (s tok : str) : list str :=
  match s with
  | [] => match tok with [] => [] | _ => [tok] end
  | c :: s' =>
      if isspace c then
        match tok with
        | [] => split_from s' []
        | _ => tok :: split_from s' []
        end
      else split_from s' (tok ++ [c])
  end.

Definition split (s : str) : list str := split_from s [].

(** [CommandInputException.__init__] *)
Definition CommandInputException_init (command whole_input : str) : exn :=
  CommandInputException command whole_input
    (if Nat.ltb (length command) (length whole_input)
     then skipn (length command + 1) whole_input else [])
    (split whole_input).

Section Prompts.

Context {B : Builtins}.

Definition _mark_input (format_tag : option str) (inp : str) (prompt_len : nat)
    (marking_extras : list MarkingExtra) : io unit :=
  match format_tag with
  | None => io_ret tt
  | Some format_tag =>
      let inp :=
        fold_left (fun inp e => match e with
                                | LOWER_CASE => lower inp
                                | UPPER_CASE => upper inp
                                end) marking_extras inp in
      let '(inp, tabs) := _prepare_input_marking inp in
      move_cursor_up 1 >>
      move_cursor_right prompt_len >>
      fancyprintf (format_tag ++ inp) true [] >>
      print (repeat " " (4 * tabs)) [NEWLINE]
  end.

(** [_option_replacement] takes two arguments and [_mark_option] calls it
    with three, after [has_format_tags], which does not raise. *)
Definition _mark_option (option_format inp std_input_format : str) (prompt_len : nat)
    : io unit :=
  io_raise TypeError.

Definition _compare_input (inp compare_to : str) (ignore_case : bool) : bool :=
  if ignore_case then str_eqb (lower inp) (lower compare_to)
  else str_eqb inp compare_to.

Fixpoint _check_special_input (inp : str) (strs : list str) (ignore_case : bool) : option str :=
  match strs with
  | [] => None
  | s :: strs' =>
      if ignore_case then
        if str_eqb (lower inp) (lower s) then Some s
        else _check_special_input inp strs' ignore_case
      else
        if str_eqb inp s then Some s
        else _check_special_input inp strs' ignore_case
  end.

(** [inp[:inp.index(' ')]], or [inp] when [inp] has no space *)
Fixpoint before_first_space (inp : str) : str :=
  match inp with
  | [] => []
  | c :: inp' => if Ascii.eqb c " " then [] else c :: before_first_space inp'
  end.

Definition _check_command_input (inp : str) (commands : list str) (ignore_case : bool)
    : option str :=
  let inp_cmd := before_first_space inp in
  _check_special_input inp_cmd commands ignore_case.

Fixpoint find_option_index_from (i : nat) (inp : str) (options : list str) (ignore_case : bool)
    : option nat :=
  match options with
  | [] => None
  | o :: options' =>
      if ignore_case then
        if str_eqb (lower inp) (lower o) then Some i
        else find_option_index_from (S i) inp options' ignore_case
      else
        if str_eqb inp o then Some i
        else find_option_index_from (S i) inp options' ignore_case
  end.

Definition _find_option_index (inp : str) (options : list str) (ignore_case : bool)
    : option nat :=
  find_option_index_from 0 inp options ignore_case.

Definition _input_int_in_range (inp_int : Z) (min max : option Z) : bool :=
  match min, max with
  | None, None => true
  | None, Some max => (inp_int <=? max)%Z
  | Some min, None => (min <=? inp_int)%Z
  | Some min, Some max => (min <=? inp_int)%Z && (inp_int <=? max)%Z
  end.

Fixpoint get_option_from {T} (i : nat) (inp : str) (items : list (str * T)) (ignore_case : bool)
    : option (str * T * nat) :=
  match items with
  | [] => None
  | (k, v) :: items' =>
      if (ignore_case && str_eqb (lower inp) (lower k)) || str_eqb inp k
      then Some (k, v, i)
      else get_option_from (S i) inp items' ignore_case
  end.

(** [_fancyinput_dict_options_get_option]; [None] stands for
    [(None, None, None)]. *)
Definition _fancyinput_dict_options_get_option {T} (inp : str) (option_dict : list (str * T))
    (ignore_case : bool) : option (str * T * nat) :=
  get_option_from 0 inp option_dict ignore_case.

(** The keyword arguments that all five prompt functions share. A single
    string given for [commands] or [exit_codes] stands for the collection of
    that one string. *)
Record special_args : Type := mkSpecialArgs {
  repeat_on_empty : bool;
  commands : list str;
  exit_codes : list str;
  special_inputs_ignore_case : bool;
  command_marking_format_tag : option str;
  exit_code_marking_format_tag : option str
}.

(** [input(prompt)] followed by [reset_all()], written before the rest of an
    iteration. *)
Definition input_events (prompt : str) : list event :=
  [Input prompt; Print (esc_seq (reset_esc RESET_ALL))].

(** [x in xs] for strings *)
Definition str_in (x : str) (xs : list str) : bool := existsb (str_eqb x) xs.

(** [prompt = fancyformat(prompt_format + '<!a>' + input_format_tag)] *)
Definition make_prompt (prompt_format input_format_tag : str) : result str :=
  fancyformat (prompt_format ++ py "<!a>" ++ input_format_tag) (Some ("<", ">")) false false.

(** *** [fancyinput]

    In each prompt function the loop [while True] reads a line and, when
    [repeat_on_empty] holds, reads again while the line is empty; both loops
    read with [input(prompt)] followed by [reset_all()], so one recursive
    function over the lines still to be read stands for the two. *)
Section Fancyinput.

Variables (prompt : str) (prompt_len : nat) (repeat_on_empty : bool).
Variables (a : special_args) (call_before_exit : bool).
Variable validate_func : option (str -> option str).
Variables valid_input_marking_format_tag invalid_input_marking_format_tag : option str.
Variable marking_extras : list MarkingExtra.

Fixpoint fancyinput_loop (stdin : list str) : io str :=
  match stdin with
  | [] => ([Input prompt], Raise EOFError)
  | inp :: stdin' =>
      emit (input_events prompt)
        (if repeat_on_empty && Nat.eqb (length inp) 0 then fancyinput_loop stdin'
         else
           match _check_command_input inp (commands a) (special_inputs_ignore_case a) with
           | Some input_command =>
               _mark_input (command_marking_format_tag a) input_command prompt_len [] >>
               io_raise (CommandInputException_init input_command inp)
           | None =>
               match _check_special_input inp (exit_codes a) (special_inputs_ignore_case a) with
               | Some input_exit_code =>
                   _mark_input (exit_code_marking_format_tag a) input_exit_code prompt_len [] >>
                   (if call_before_exit then ([Call_before_exit], Ok tt) else io_ret tt) >>
                   io_raise SystemExit
               | None =>
                   let error_msg_format :=
                     match validate_func with
                     | Some f => f inp
                     | None => None
                     end in
                   match error_msg_format with
                   | None =>
                       _mark_input valid_input_marking_format_tag inp prompt_len
                         marking_extras >>
                       io_ret inp
                   | Some error_msg_format =>
                       _mark_input invalid_input_marking_format_tag inp prompt_len [] >>
                       fancyprintf error_msg_format false [NEWLINE] >>
                       fancyinput_loop stdin'
                   end
               end
           end)
  end.

End Fancyinput.

Definition fancyinput (prompt_format input_format_tag : str) (a : special_args)
    (call_before_exit : bool) (validate_func : option (str -> option str))
    (valid_input_marking_format_tag invalid_input_marking_format_tag : option str)
    (marking_extras : list MarkingExtra) (stdin : list str) : io str :=
  let repeat_on_empty := if str_in [] (exit_codes a) then false else repeat_on_empty a in
  prompt <~ io_lift (make_prompt prompt_format input_format_tag) ;;
  let prompt_len := length (unfancy prompt) in
  fancyinput_loop prompt prompt_len repeat_on_empty a call_before_exit validate_func
    valid_input_marking_format_tag invalid_input_marking_format_tag marking_extras stdin.

(** *** [fancyinput_yn] *)
Section Fancyinput_yn.

Variables (prompt : str) (prompt_len : nat) (repeat_on_empty : bool).
Variables (y n : str) (ignore_case : bool).
Variables (a : special_args) (call_before_exit : bool).
Variable invalid_input_msg_format : str.
Variables y_marking_format_tag n_marking_format_tag : option str.
Variable invalid_input_marking_format_tag : option str.

Fixpoint fancyinput_yn_loop (stdin : list str) : io bool :=
  match stdin with
  | [] => ([Input prompt], Raise EOFError)
  | inp :: stdin' =>
      emit (input_events prompt)
        (if repeat_on_empty && Nat.eqb (length inp) 0 then fancyinput_yn_loop stdin'
         else if _compare_input inp y ignore_case then
           _mark_input y_marking_format_tag y prompt_len [] >>
           io_ret true
         else if _compare_input inp n ignore_case then
           _mark_input n_marking_format_tag n prompt_len [] >>
           io_ret false
         else
           match _check_command_input inp (commands a) (special_inputs_ignore_case a) with
           | Some input_command =>
               _mark_input (command_marking_format_tag a) input_command prompt_len [] >>
               io_raise (CommandInputException_init input_command inp)
           | None =>
               match _check_special_input inp (exit_codes a) (special_inputs_ignore_case a) with
               | Some input_exit_code =>
                   _mark_input (exit_code_marking_format_tag a) input_exit_code prompt_len [] >>
                   (if call_before_exit then ([Call_before_exit], Ok tt) else io_ret tt) >>
                   io_raise SystemExit
               | None =>
                   _mark_input invalid_input_marking_format_tag inp prompt_len [] >>
                   fancyprintf invalid_input_msg_format false [NEWLINE] >>
                   fancyinput_yn_loop stdin'
               end
           end)
  end.

End Fancyinput_yn.

Definition fancyinput_yn (prompt_format input_format_tag y n : str) (ignore_case : bool)
    (a : special_args) (invalid_input_msg_format : option str) (call_before_exit : bool)
    (y_marking_format_tag n_marking_format_tag invalid_input_marking_format_tag : option str)
    (stdin : list str) : io bool :=
  let repeat_on_empty := if str_in [] (exit_codes a) then false else repeat_on_empty a in
  let invalid_input_msg_format :=
    match invalid_input_msg_format with
    | Some m => m
    | None => py "<i,r>Invalid input. Enter '" ++ y ++ py "' or '" ++ n ++ py "'."
    end in
  prompt <~ io_lift (make_prompt prompt_format input_format_tag) ;;
  let prompt_len := length (unfancy prompt) in
  fancyinput_yn_loop prompt prompt_len repeat_on_empty y n ignore_case a call_before_exit
    invalid_input_msg_format y_marking_format_tag n_marking_format_tag
    invalid_input_marking_format_tag stdin.

(** *** [fancyinput_int] *)

(** [s.replace(old, new, 1)] for a one-character [old] *)
Fixpoint replace_first (old : ascii) (new s : str) : str :=
  match s with
  | [] => []
  | c :: s' => if Ascii.eqb c old then new ++ s' else c :: replace_first old new s'
  end.

(** The en dash of the default message, as the three bytes of its UTF-8
    encoding. *)
Definition EN_DASH : str := ["226"; "128"; "147"].

Section Fancyinput_int.

Variables (prompt : str) (prompt_len : nat) (repeat_on_empty : bool).
Variables min max : option Z.
Variable validate_func : option (Z -> option str).
Variables (a : special_args) (call_before_exit : bool).
Variable error_msg_not_an_int : str.
Variable error_msg_int_out_of_range : option str.
Variables valid_input_marking_format_tag invalid_input_marking_format_tag : option str.

Fixpoint fancyinput_int_loop (stdin : list str) : io Z :=
  match stdin with
  | [] => ([Input prompt], Raise EOFError)
  | inp :: stdin' =>
      emit (input_events prompt)
        (if repeat_on_empty && Nat.eqb (length inp) 0 then fancyinput_int_loop stdin'
         else
           match _check_command_input inp (commands a) (special_inputs_ignore_case a) with
           | Some input_command =>
               _mark_input (command_marking_format_tag a) input_command prompt_len [] >>
               io_raise (CommandInputException_init input_command inp)
           | None =>
               match _check_special_input inp (exit_codes a) (special_inputs_ignore_case a) with
               | Some input_exit_code =>
                   _mark_input (exit_code_marking_format_tag a) input_exit_code prompt_len [] >>
                   (if call_before_exit then ([Call_before_exit], Ok tt) else io_ret tt) >>
                   io_raise SystemExit
               | None =>
                   match int_of_str inp with
                   | None =>
                       _mark_input invalid_input_marking_format_tag inp prompt_len [] >>
                       fancyprintf error_msg_not_an_int false [NEWLINE] >>
                       fancyinput_int_loop stdin'
                   | Some inp_int =>
                       if negb (_input_int_in_range inp_int min max) then
                         _mark_input invalid_input_marking_format_tag inp prompt_len [] >>
                         match error_msg_int_out_of_range with
                         | Some m => fancyprintf m false [NEWLINE]
                         | None => io_raise AttributeError
                         end >>
                         fancyinput_int_loop stdin'
                       else
                         let error_msg :=
                           match validate_func with
                           | Some f => f inp_int
                           | None => None
                           end in
                         match error_msg with
                         | Some (c :: m) =>
                             _mark_input invalid_input_marking_format_tag inp prompt_len [] >>
                             fancyprintf (c :: m) false [NEWLINE] >>
                             fancyinput_int_loop stdin'
                         | _ =>
                             _mark_input valid_input_marking_format_tag inp prompt_len [] >>
                             io_ret inp_int
                         end
                   end
               end
           end)
  end.

End Fancyinput_int.

Definition fancyinput_int (min max : option Z) (prompt_format input_format_tag : str)
    (validate_func : option (Z -> option str)) (a : special_args) (call_before_exit : bool)
    (error_msg_not_an_int error_msg_int_out_of_range : option str)
    (valid_input_marking_format_tag invalid_input_marking_format_tag : option str)
    (stdin : list str) : io Z :=
  let min_greater :=
    match min, max with Some mi, Some ma => (ma <? mi)%Z | _, _ => false end in
  if min_greater then io_raise (ValueError (py "min is greater than max"))
  else
    let repeat_on_empty := if str_in [] (exit_codes a) then false else repeat_on_empty a in
    let error_msg_not_an_int :=
      match error_msg_not_an_int with
      | Some m => m
      | None => py "<ir>Input must be an integer.<!a>"
      end in
    let error_msg_int_out_of_range :=
      match min, max with
      | Some mi, Some ma =>
          match error_msg_int_out_of_range with
          | None =>
              Some (py "<ir>Input integer out of range (" ++ str_of_Z mi ++ EN_DASH
                      ++ str_of_Z ma ++ py ").<!a>")
          | Some m =>
              let m := replace (py "\*") [_BracketsRepl.OPEN] m in
              let m := replace_first "*" (str_of_Z mi) m in
              let m := replace_first "*" (str_of_Z ma) m in
              Some (replace [_BracketsRepl.OPEN] (py "*") m)
          end
      | _, _ => error_msg_int_out_of_range
      end in
    prompt <~ io_lift (make_prompt prompt_format input_format_tag) ;;
    let prompt_len := length (unfancy prompt) in
    fancyinput_int_loop prompt prompt_len repeat_on_empty min max validate_func a
      call_before_exit error_msg_not_an_int error_msg_int_out_of_range
      valid_input_marking_format_tag invalid_input_marking_format_tag stdin.

(** *** [fancyinput_dict_options] *)

(** [option_marking_format_tags]: one tag for all options, or one per option *)
Inductive marking_tags : Type :=
  | OneTag (tag : str)
  | TagPerOption (tags : list str).

Section Fancyinput_dict_options.

Context {T : Type}.
Variables (prompt : str) (prompt_len : nat) (repeat_on_empty : bool).
Variables (option_dict : list (str * T)) (ignore_case : bool).
Variable validate_func : option (T -> option str).
Variables (a : special_args) (call_before_exit : bool).
Variable unmatched_input_msg_format : str.
Variable option_marking_format_tags : option marking_tags.
Variables unmatched_input_marking_format_tag invalid_option_marking_format_tag : option str.

Fixpoint fancyinput_dict_options_loop (stdin : list str) : io T :=
  match stdin with
  | [] => ([Input prompt], Raise EOFError)
  | inp :: stdin' =>
      emit (input_events prompt)
        (if repeat_on_empty && Nat.eqb (length inp) 0
         then fancyinput_dict_options_loop stdin'
         else
           match _check_command_input inp (commands a) (special_inputs_ignore_case a) with
           | Some input_command =>
               _mark_input (command_marking_format_tag a) input_command prompt_len [] >>
               io_raise (CommandInputException_init input_command inp)
           | None =>
               match _check_special_input inp (exit_codes a) (special_inputs_ignore_case a) with
               | Some input_exit_code =>
                   _mark_input (exit_code_marking_format_tag a) input_exit_code prompt_len [] >>
                   (if call_before_exit then ([Call_before_exit], Ok tt) else io_ret tt) >>
                   io_raise SystemExit
               | None =>
                   match _fancyinput_dict_options_get_option inp option_dict ignore_case with
                   | None =>
                       _mark_input unmatched_input_marking_format_tag inp prompt_len [] >>
                       fancyprintf
                         (replace [_BracketsRepl.OPEN] (py "*")
                            (replace (py "*") inp
                               (replace (py "\*") [_BracketsRepl.OPEN]
                                  unmatched_input_msg_format)))
                         false [NEWLINE] >>
                       fancyinput_dict_options_loop stdin'
                   | Some (option_key, option_value, option_index) =>
                       let error_msg :=
                         match validate_func with
                         | Some f => f option_value
                         | None => None
                         end in
                       match error_msg with
                       | Some (c :: m) =>
                           _mark_input invalid_option_marking_format_tag inp prompt_len [] >>
                           fancyprintf (c :: m) false [NEWLINE] >>
                           fancyinput_dict_options_loop stdin'
                       | _ =>
                           match option_marking_format_tags with
                           | None => io_ret tt
                           | Some (OneTag omft) =>
                               _mark_input (Some omft) option_key prompt_len []
                           | Some (TagPerOption tags) =>
                               match nth_error tags option_index with
                               | Some omft => _mark_input (Some omft) option_key prompt_len []
                               | None => io_raise IndexError
                               end
                           end >>
                           io_ret option_value
                       end
                   end
               end
           end)
  end.

End Fancyinput_dict_options.

Definition fancyinput_dict_options {T : Type} (option_dict : list (str * T))
    (prompt_format input_format_tag : str) (ignore_case : bool)
    (validate_func : option (T -> option str)) (a : special_args) (call_before_exit : bool)
    (unmatched_input_msg_format : option str) (option_marking_format_tags : option marking_tags)
    (unmatched_input_marking_format_tag invalid_option_marking_format_tag : option str)
    (stdin : list str) : io T :=
  let repeat_on_empty :=
    if str_in [] (map fst option_dict) || str_in [] (exit_codes a) then false
    else repeat_on_empty a in
  let unmatched_input_msg_format :=
    match unmatched_input_msg_format with
    | Some m => m
    | None => py "<i,r>Invalid input. Choose one of these options: "
                ++ join (py ", ") (map repr (map fst option_dict)) ++ py ".<!a>"
    end in
  prompt <~ io_lift (make_prompt prompt_format input_format_tag) ;;
  let prompt_len := length (unfancy prompt) in
  fancyinput_dict_options_loop prompt prompt_len repeat_on_empty option_dict ignore_case
    validate_func a call_before_exit unmatched_input_msg_format option_marking_format_tags
    unmatched_input_marking_format_tag invalid_option_marking_format_tag stdin.

(** *** [fancyinput_options]

    The result is one of [return_options], or one of the option strings when
    [return_options] is [None]. *)
Section Fancyinput_options.

Context {T : Type}.
Variables (prompt : str) (prompt_len : nat) (repeat_on_empty : bool).
Variables (input_format_tag : str) (option_formats options : list str).
Variable return_options : option (list T).
Variable ignore_case : bool.
Variable error_msg_format : str.
Variables (a : special_args) (msg_on_exit : option str).
Variable invalid_input_marking_format_tag : option str.

Fixpoint fancyinput_options_loop (stdin : list str) : io (str + T) :=
  match stdin with
  | [] => ([Input prompt], Raise EOFError)
  | inp :: stdin' =>
      emit (input_events prompt)
        (if repeat_on_empty && Nat.eqb (length inp) 0 then fancyinput_options_loop stdin'
         else
           match _check_command_input inp (commands a) (special_inputs_ignore_case a) with
           | Some input_command =>
               _mark_input (command_marking_format_tag a) input_command prompt_len [] >>
               io_raise (CommandInputException_init input_command inp)
           | None =>
               match _check_special_input inp (exit_codes a) (special_inputs_ignore_case a) with
               | Some input_exit_code =>
                   _mark_input (exit_code_marking_format_tag a) input_exit_code prompt_len [] >>
                   match msg_on_exit with
                   | Some m => fancyprintf m false [NEWLINE]
                   | None => io_ret tt
                   end >>
                   io_raise SystemExit
               | None =>
                   match _find_option_index inp options ignore_case with
                   | None =>
                       _mark_input invalid_input_marking_format_tag inp prompt_len [] >>
                       fancyprintf error_msg_format false [NEWLINE] >>
                       fancyinput_options_loop stdin'
                   | Some option_index =>
                       _mark_option (nth option_index option_formats []) inp
                         input_format_tag prompt_len >>
                       match return_options with
                       | None => io_ret (inl (nth option_index options []))
                       | Some rs =>
                           match nth_error rs option_index with
                           | Some r => io_ret (inr r)
                           | None => io_raise IndexError
                           end
                       end
                   end
               end
           end)
  end.

End Fancyinput_options.

Definition fancyinput_options {T : Type} (prompt_format input_format_tag : str)
    (option_formats : list str) (return_options : option (list T)) (ignore_case : bool)
    (error_msg_format : option str) (a : special_args) (msg_on_exit : option str)
    (invalid_input_marking_format_tag : option str) (stdin : list str) : io (str + T) :=
  prompt <~ io_lift (make_prompt prompt_format input_format_tag) ;;
  let prompt_len :=
    length (remove_format_tags (_remove_backslash_before_brackets prompt_format)) in
  let options := map remove_format_tags option_formats in
  let repeat_on_empty :=
    if str_in [] options || str_in [] (exit_codes a) then false else repeat_on_empty a in
  let error_msg_format :=
    match error_msg_format with
    | Some m => m
    | None => py "<r>Invalid input. Choose one of these options: "
                ++ join (py ", ") (map repr options) ++ py ".<!a>"
    end in
  fancyinput_options_loop prompt prompt_len repeat_on_empty input_format_tag option_formats
    options return_options ignore_case error_msg_format a msg_on_exit
    invalid_input_marking_format_tag stdin.

End Prompts.

(** An instance of the built-in functions for ASCII text: the case mappings
    of the ASCII letters, [int] of an optionally signed decimal literal and
    [repr] of a string of printable characters without quotes and
    backslashes. *)
Definition ascii_lower (s : str) : str :=
  map (fun c => let n := nat_of_ascii c in
                if Nat.leb 65 n && Nat.leb n 90 then ascii_of_nat (n + 32) else c) s.

Definition ascii_upper (s : str) : str :=
  map (fun c => let n := nat_of_ascii c in
                if Nat.leb 97 n && Nat.leb n 122 then ascii_of_nat (n - 32) else c) s.

Definition decimal_int (s : str) : option Z :=
  match s with
  | "-" :: d => option_map (fun n => Z.opp (Z.of_N n)) (int_of_digits d)
  | "+" :: d => option_map Z.of_N (int_of_digits d)
  | _ => option_map Z.of_N (int_of_digits s)
  end.

Definition quoted (s : str) : str := "'" :: s ++ ["'"].

#[export] Instance ascii_builtins : Builtins :=
  {| lower := ascii_lower; upper := ascii_upper; int_of_str := decimal_int; repr := quoted |}.

(** ** Padding and alignment *)

Inductive Alignment : Type := LEFT | RIGHT | PYSTD.

(** [s * n]: the empty string when [n] is not positive *)
Definition str_mul (s : str) (n : Z) : str := concat (repeat s (Z.to_nat n)).

(** [len(s)] as an [int] *)
Definition len (s : str) : Z := Z.of_nat (length s).

(** The integer value of the test [n % 2 != 0] *)
Definition odd_int (n : Z) : Z := Z.b2z (negb (n mod 2 =? 0)%Z).

(** The integer value of the test [n % 2 == 0] *)
Definition even_int (n : Z) : Z := Z.b2z (n mod 2 =? 0)%Z.

Definition _lrspaces_left_aligned (strlen width : Z) : Z * Z :=
  let spaces := (width - strlen)%Z in
  let lspaces := (spaces / 2)%Z in
  let rspaces := (lspaces + odd_int spaces)%Z in
  (lspaces, rspaces).

Definition _lrspaces_right_aligned (strlen width : Z) : Z * Z :=
  let spaces := (width - strlen)%Z in
  let rspaces := (spaces / 2)%Z in
  let lspaces := (rspaces + odd_int spaces)%Z in
  (lspaces, rspaces).

Definition _lrspaces_pystd_aligned (strlen width : Z) : Z * Z :=
  let floored_spaces_lr := ((width - strlen) / 2)%Z in
  if (strlen mod 2 =? 0)%Z then
    ((floored_spaces_lr + odd_int width)%Z, floored_spaces_lr)
  else
    (floored_spaces_lr, (floored_spaces_lr + even_int width)%Z).

Definition _lrspaces (strlen width : Z) (alignment : Alignment) : Z * Z :=
  match alignment with
  | LEFT => _lrspaces_left_aligned strlen width
  | RIGHT => _lrspaces_right_aligned strlen width
  | PYSTD => _lrspaces_pystd_aligned strlen width
  end.

(** [center_str]; the value is given as its [str(value)]. *)
Definition center_str (string : str) (width : Z) (filler : str) (alignment : Alignment) : str :=
  let '(lspaces, rspaces) := _lrspaces (len string) width alignment in
  str_mul filler lspaces ++ string ++ str_mul filler rspaces.

(** ** Styled strings *)

(** [fancystr]; the value is given as its [str(value)]. *)
Definition fancystr (value : str) (fg bg : option color) (styles : modes_arg StyleMode)
    (start_reset_all end_reset_all : bool) : str :=
  let start_seq := _reset_all_escseq start_reset_all fg bg styles None in
  let end_seq := _reset_all_escseq end_reset_all None None NoModes None in
  start_seq ++ value ++ end_seq.

(** The first lines of the three justifying functions: a [ModeCombi] that is
    given replaces the three mode arguments. *)
Definition modes_of (fg bg : option color) (styles : modes_arg StyleMode)
    (mode_combi : option ModeCombi) : option color * option color * modes_arg StyleMode :=
  match mode_combi with
  | Some mc => (combi_fg mc, combi_bg mc, combi_styles mc)
  | None => (fg, bg, styles)
  end.

Definition fancystr_center (string : str) (width : Z) (filler : str) (alignment : Alignment)
    (fg bg : option color) (styles : modes_arg StyleMode) (mode_combi : option ModeCombi)
    (modify_all start_reset_all end_reset_all : bool) : str :=
  let '(fg, bg, styles) := modes_of fg bg styles mode_combi in
  if (width <=? len string)%Z then
    fancystr string fg bg styles start_reset_all end_reset_all
  else
    let '(lspaces, rspaces) := _lrspaces (len string) width alignment in
    if modify_all then
      let center := str_mul filler lspaces ++ string ++ str_mul filler rspaces in
      fancystr center fg bg styles start_reset_all end_reset_all
    else
      let fcystr := fancystr string fg bg styles start_reset_all end_reset_all in
      str_mul filler lspaces ++ fcystr ++ str_mul filler rspaces.

Definition fancystr_ljust (string : str) (width : Z) (filler : str)
    (fg bg : option color) (styles : modes_arg StyleMode) (mode_combi : option ModeCombi)
    (modify_all start_reset_all end_reset_all : bool) : str :=
  let '(fg, bg, styles) := modes_of fg bg styles mode_combi in
  let spaces := (width - len string)%Z in
  if (spaces <=? 0)%Z then
    fancystr string fg bg styles start_reset_all end_reset_all
  else if modify_all then
    let ljust := string ++ str_mul filler spaces in
    fancystr ljust fg bg styles start_reset_all end_reset_all
  else
    let fcystr := fancystr string fg bg styles start_reset_all end_reset_all in
    fcystr ++ str_mul filler spaces.

Definition fancystr_rjust (string : str) (width : Z) (filler : str)
    (fg bg : option color) (styles : modes_arg StyleMode) (mode_combi : option ModeCombi)
    (modify_all start_reset_all end_reset_all : bool) : str :=
  let '(fg, bg, styles) := modes_of fg bg styles mode_combi in
  let spaces := (width - len string)%Z in
  if (spaces <=? 0)%Z then
    fancystr string fg bg styles start_reset_all end_reset_all
  else if modify_all then
    let rjust := str_mul filler spaces ++ string in
    fancystr rjust fg bg styles start_reset_all end_reset_all
  else
    let fcystr := fancystr string fg bg styles start_reset_all end_reset_all in
    str_mul filler spaces ++ fcystr.

Definition fancyformat_centered (format_str : str) (width : Z) (alignment : Alignment)
    (filler : str) (tag_brackets : option (ascii * ascii))
    (start_reset_all end_reset_all : bool) : result str :=
  string <- fancyformat format_str tag_brackets start_reset_all end_reset_all ;;
  let length := len (unfancy string) in
  let '(lspaces, rspaces) := _lrspaces length width alignment in
  Ok (str_mul filler lspaces ++ string ++ str_mul filler rspaces).

(** ** Escaping of brackets *)

Definition _put_backslash_before_tag_brackets (string : str) (brackets : ascii * ascii) : str :=
  let '(ob, cb) := brackets in
  let string := replace [ob] ["\"; ob] string in
  replace [cb] ["\"; cb] string.

(** ** RGB colors *)

Record RgbColor : Type := mkRgbColor {
  rgb_red : Z;
  rgb_green : Z;
  rgb_blue : Z;
  _values : Z * Z * Z
}.

(** [RgbColor._validate]: [value not in range(256)] raises. *)
Definition RgbColor__validate (name : str) (value : Z) : result unit :=
  if negb ((0 <=? value)%Z && (value <? 256)%Z) then
    Raise (ValueError (name ++ py " (" ++ str_of_Z value ++ py ") is out of range (0-255)"))
  else Ok tt.

Definition RgbColor_init (red green blue : Z) : result RgbColor :=
  _ <- RgbColor__validate (py "Red") red ;;
  _ <- RgbColor__validate (py "Green") green ;;
  _ <- RgbColor__validate (py "Blue") blue ;;
  Ok (mkRgbColor red green blue (red, green, blue)).

(** [RgbColor.__getitem__]: an index into the tuple of the three values,
    counted from the end when it is negative. *)
Definition RgbColor__getitem__ (c : RgbColor) (i : Z) : result Z :=
  let '(r, g, b) := _values c in
  let i := if (i <? 0)%Z then (i + 3)%Z else i in
  if (i =? 0)%Z then Ok r
  else if (i =? 1)%Z then Ok g
  else if (i =? 2)%Z then Ok b
  else Raise IndexError.

(** [RgbColor.from_single_int]; [None] stands for the [AssertionError] of a
    failed [assert]. *)
Definition from_single_int (n : Z) : option (result RgbColor) :=
  if negb ((0 <=? n)%Z && (n <? 256 ^ 3)%Z) then None
  else
    let red := Z.shiftr n 16 in
    let green := (Z.shiftr n 8 mod 256)%Z in
    let blue := (n mod 256)%Z in
    Some (RgbColor_init red green blue).

(** ** Replacement of an option *)

(** The loop of [_prepare_option_replacement] over
    [enumerate(option_format + '<')]. *)
Fixpoint option_loop (option_format : str) (i : nat) (rest : str)
    (result : str) (in_tag : bool) (start tabs inp_index : nat) : str * nat :=
  match rest with
  | [] => (result, tabs)
  | char :: rest' =>
      if Ascii.eqb char "<" then
        option_loop option_format (S i) rest'
          (result ++ slice option_format start i) true i tabs inp_index
      else if Ascii.eqb char ">" then
        option_loop option_format (S i) rest'
          (result ++ slice option_format start (i + 1)) false (i + 1) tabs inp_index
      else if Ascii.eqb char TAB then
        option_loop option_format (S i) rest' result in_tag start
          (if negb in_tag then tabs + 1 else tabs) (inp_index + 1)
      else
        option_loop option_format (S i) rest' result in_tag start tabs
          (if negb in_tag then inp_index + 1 else inp_index)
  end.

Definition _prepare_option_replacement (option_format : str) : str * nat :=
  option_loop option_format 0 (option_format ++ py "<") [] false 0 0 0.

Definition _option_replacement (option_format : str) (prompt_len : nat) : io unit :=
  let '(option_string, tabs) := _prepare_option_replacement option_format in
  move_cursor_up 1 >>
  move_cursor_right prompt_len >>
  fancyprintf option_string true [] >>
  print (repeat " " (4 * tabs)) [NEWLINE].

(** * mastermind.py: the game *)

Module Mastermind.

(** A color of the game. Two colors are the same object exactly when they
    are equal as records; the game has the six colors of [COLORS]. *)
Record Color : Type := mkColor {
  Color_name : str;
  Color_letter : str;
  Color_color : ColorMode
}.

(** [Color.__init__]: the letter is [name[0]] *)
Definition Color_init (name : str) (color : ColorMode) : Color :=
  {| Color_name := name; Color_letter := slice name 0 1; Color_color := color |}.

Definition CORRECT_POSITION : Z := 1.
Definition CORRECT_COLOR : Z := 2.

Definition KEEP : Z := 4.
Definition DELETE : Z := 5.

(** [Gruen] and [Weiss] are written with the letters U+00FC and U+00DF. *)
Definition C1 := Color_init (py "Rot") RED.
Definition C2 := Color_init (py "Gr" ++ ["252"] ++ py "n") GREEN.
Definition C3 := Color_init (py "Blau") BLUE.
Definition C4 := Color_init (py "Wei" ++ ["223"]) WHITE.
Definition C5 := Color_init (py "Schwarz") BLACK.
Definition C6 := Color_init (py "Cyan") CYAN.

Definition COLORS : list Color := [C1; C2; C3; C4; C5; C6].

Definition AVAILABLE_INPUT_LETTERS : list str :=
  map (fun c => slice (Color_name c) 0 1) COLORS ++ [py "X"; py "-"].

(** A value of [LETTER_COLOR_MAPPING], a tile of a guess: a color or one of
    the integers [KEEP] and [DELETE]. *)
Inductive tile : Type :=
| TileColor (c : Color)
| TileInt (n : Z).

(** [{c: k for (c, k) in zip(AVAILABLE_INPUT_LETTERS, COLORS)} | {'-': KEEP, 'X': DELETE}] *)
Definition LETTER_COLOR_MAPPING : dict tile :=
  fold_left (fun d kv => dict_set (fst kv) (snd kv) d)
    [(py "-", TileInt KEEP); (py "X", TileInt DELETE)]
    (fold_left (fun d kv => dict_set (fst kv) (TileColor (snd kv)) d)
       (combine AVAILABLE_INPUT_LETTERS COLORS) []).

(** The text has the letters U+00FC, U+00BB and U+00AB. *)
Definition INVALID_INPUT_MSG : str :=
  py "<r>Ung" ++ ["252"] ++ py "ltige Eingabe. Gib " ++ ["187"] ++ py "<f,c>/Hilfe<!f,r>"
    ++ ["171"] ++ py " ein, um die Spielanleitung ausgegeben zu bekommen.".

Definition COMMANDS : list str := [py "/Hilfe"].
Definition EXIT_CODES : list str := [py "/Ende"].

Definition VALID_INPUT_MARKING_FORMAT_TAG : str := py "<f,c>".
Definition INVALID_INPUT_MARKING_FORMAT_TAG : str := py "<r>".
Definition COMMAND_MARKING_FORMAT_TAG : str := py "<f,c>".
Definition EXIT_CODE_MARKING_FORMAT_TAG : str := py "<f,r>".
Definition Y_MARKING_FORMAT : str := py "<f,g>".
Definition N_MARKING_FORMAT : str := py "<f,r>".

(** The keyword arguments for commands and exit codes with which the game
    calls [fancyinput] and [fancyinput_yn]. *)
Definition special_arguments : special_args :=
  mkSpecialArgs true COMMANDS EXIT_CODES true
    (Some COMMAND_MARKING_FORMAT_TAG) (Some EXIT_CODE_MARKING_FORMAT_TAG).

(** The global variable [current_guess]: [None], a list of tiles, or a pair
    of a column and a tile. *)
Inductive guess : Type :=
| NoGuess
| GuessList (tiles : list tile)
| GuessTuple (index : Z) (value : tile).

(** The two global variables. *)
Record globals : Type := mkGlobals {
  current_guess : guess;
  confirm_guess : bool
}.

Definition ColorMode_eq_dec (a b : ColorMode) : {a = b} + {a <> b}.
Proof. decide equality; try apply Escape_eq_dec; apply (list_eq_dec ascii_dec). Defined.

Definition Color_eq_dec (a b : Color) : {a = b} + {a <> b}.
Proof.
  decide equality; try apply ColorMode_eq_dec; apply (list_eq_dec ascii_dec).
Defined.

(** [set_tile]: an index is counted from the end when it is negative. *)
Definition set_tile (row : list (option Color)) (index : Z) (value : tile)
    : result (list (option Color)) :=
  let assign (x : option Color) : result (list (option Color)) :=
    let n := Z.of_nat (length row) in
    let i := if (index <? 0)%Z then (index + n)%Z else index in
    if (0 <=? i)%Z && (i <? n)%Z then
      Ok (firstn (Z.to_nat i) row ++ x :: skipn (S (Z.to_nat i)) row)
    else Raise IndexError in
  match value with
  | TileColor c => assign (Some c)
  | TileInt n => if (n =? DELETE)%Z then assign None else Ok row
  end.

(** The loop [for (i, g) in enumerate(current_guess): set_tile(row, i, g)]. *)
Fixpoint set_tiles_from (i : nat) (row : list (option Color)) (tiles : list tile)
    : result (list (option Color)) :=
  match tiles with
  | [] => Ok row
  | g :: tiles' =>
      row <- set_tile row (Z.of_nat i) g ;;
      set_tiles_from (S i) row tiles'
  end.

(** What [play_one_game] does to the row of the current attempt with the
    guess that has been read. *)
Definition apply_guess (row : list (option Color)) (g : guess) : result (list (option Color)) :=
  match g with
  | GuessList tiles => set_tiles_from 0 row tiles
  | GuessTuple index value => set_tile row index value
  | NoGuess => Ok row
  end.

(** The positions at which guess and solution have the same color. *)
Fixpoint correct_position_from (i : nat) (code_guess solution_code : list Color) : list nat :=
  match code_guess, solution_code with
  | g :: code_guess', s :: solution_code' =>
      (if Color_eq_dec g s then [i] else [])
        ++ correct_position_from (S i) code_guess' solution_code'
  | _, _ => []
  end.

(** [[x for (i, x) in enumerate(xs) if i not in correct_position]] *)
Fixpoint others_from (i : nat) (correct_position : list nat) (xs : list Color) : list Color :=
  match xs with
  | [] => []
  | x :: xs' =>
      (if in_dec Nat.eq_dec i correct_position then [] else [x])
        ++ others_from (S i) correct_position xs'
  end.

(** [l.remove(g)] for a [g] that is in [l] *)
Fixpoint remove_first (g : Color) (l : list Color) : list Color :=
  match l with
  | [] => []
  | x :: l' => if Color_eq_dec x g then l' else x :: remove_first g l'
  end.

(** The second loop of [calc_pins]. *)
Fixpoint count_correct_color (code_guess solution_code : list Color) (n_correct_color : nat)
    : nat :=
  match code_guess with
  | [] => n_correct_color
  | g :: code_guess' =>
      if in_dec Color_eq_dec g solution_code then
        count_correct_color code_guess' (remove_first g solution_code) (n_correct_color + 1)
      else count_correct_color code_guess' solution_code n_correct_color
  end.

Definition calc_pins (code_guess solution_code : list Color) : list Z :=
  let correct_position := correct_position_from 0 code_guess solution_code in
  let n_correct_position := length correct_position in
  let code_guess' := others_from 0 correct_position code_guess in
  let solution_code' := others_from 0 correct_position solution_code in
  let n_correct_color := count_correct_color code_guess' solution_code' 0 in
  repeat CORRECT_POSITION n_correct_position ++ repeat CORRECT_COLOR n_correct_color.

Section Validate.

Context {B : Builtins}.

(** [[LETTER_COLOR_MAPPING[c] for c in guess]]; [None] stands for the
    [KeyError] of a letter that is no key. *)
Fixpoint lookup_all (letters : str) : option (list tile) :=
  match letters with
  | [] => Some []
  | c :: letters' =>
      match dict_get LETTER_COLOR_MAPPING [c], lookup_all letters' with
      | Some t, Some ts => Some (t :: ts)
      | _, _ => None
      end
  end.

(** [validate_guess]: the new values of the global variables and the
    message that is returned; [None] stands for a [KeyError]. *)
Definition validate_guess (st : globals) (guess : str) : option (globals * option str) :=
  let guess := filter (fun c => negb (Ascii.eqb c " " || Ascii.eqb c ",")) (upper guess) in
  let confirm_guess_local := false in
  if Nat.eqb (length guess) 0 then Some (st, Some INVALID_INPUT_MSG)
  else if str_eqb guess (py ".") then Some (mkGlobals (current_guess st) true, None)
  else
    let '(confirm_guess_local, guess) :=
      if Ascii.eqb (last guess " ") "." then (true, removelast guess)
      else (confirm_guess_local, guess) in
    if Nat.eqb (length guess) 2 && char_in (nth 0 guess " ") (py "1234")
       && str_in [nth 1 guess " "] AVAILABLE_INPUT_LETTERS then
      match dict_get LETTER_COLOR_MAPPING [nth 1 guess " "] with
      | Some t =>
          Some (mkGlobals
                  (GuessTuple (Z.of_N (N_of_ascii (nth 0 guess " ")) - 48 - 1) t)
                  confirm_guess_local, None)
      | None => None
      end
    else if negb (Nat.eqb (length guess) 4) then Some (st, Some INVALID_INPUT_MSG)
    else if negb (forallb (fun c => str_in [c] AVAILABLE_INPUT_LETTERS) guess) then
      Some (st, Some INVALID_INPUT_MSG)
    else
      match lookup_all guess with
      | Some ts => Some (mkGlobals (GuessList ts) confirm_guess_local, None)
      | None => None
      end.

End Validate.

End Mastermind.

(** * Properties *)

(** ** The mode registry *)

(** No two modes of one kind share a key, so the order in which the
    dictionaries are filled does not matter. *)
Lemma registry_keys_distinct :
  NoDup (keys _COLOR_MODES_FOR_FORMAT_CHARS)
  /\ NoDup (keys _STYLE_MODES_FOR_FORMAT_CHARS)
  /\ NoDup (keys _RESET_MODES_FOR_FORMAT_CHARS)
  /\ length _COLOR_MODES_FOR_FORMAT_CHARS = 17
  /\ length _STYLE_MODES_FOR_FORMAT_CHARS = 10
  /\ length _RESET_MODES_FOR_FORMAT_CHARS = 9.
Proof.
  repeat split; try reflexivity;
    apply (NoDup_count_occ' (list_eq_dec ascii_dec)); intros k Hk;
    vm_compute in Hk; repeat (destruct Hk as [<- | Hk]; [reflexivity |]);
    destruct Hk.
Qed.

(** ** Character classes of tag content *)

Definition is_marker (c : ascii) : bool := Ascii.eqb c "#" || Ascii.eqb c "!".
Definition is_separator (c : ascii) : bool := char_in c separators.
Definition is_digit (c : ascii) : bool := char_in c digits.
Definition is_key (c : ascii) : bool := char_in c _ALL_KEY_LETTERS.
Definition is_color_key (c : ascii) : bool :=
  match dict_get _COLOR_MODES_FOR_FORMAT_CHARS [c] with Some _ => true | None => false end.
Definition is_style_key (c : ascii) : bool :=
  match dict_get _STYLE_MODES_FOR_FORMAT_CHARS [c] with Some _ => true | None => false end.
Definition is_reset_key (c : ascii) : bool :=
  match dict_get _RESET_MODES_FOR_FORMAT_CHARS [c] with Some _ => true | None => false end.

(** A proof by cases over all 256 characters. *)
Ltac each_char c :=
  destruct c as [[] [] [] [] [] [] [] []].

(** The key alphabet is the union of the three key sets; a style key is no
    color key; only [a] and [s] are keys of resets alone. *)
Lemma key_alphabet (c : ascii) :
  is_key c = is_color_key c || is_style_key c || is_reset_key c.
Proof. each_char c; reflexivity. Qed.

Lemma style_key_not_color (c : ascii) :
  is_style_key c = true -> is_color_key c = false.
Proof. each_char c; vm_compute; congruence. Qed.

Lemma key_classes_disjoint (c : ascii) :
  is_key c = true ->
  is_marker c = false /\ is_separator c = false /\ is_digit c = false.
Proof. each_char c; vm_compute; intuition congruence. Qed.

(** C10: compiling ["<r>ERROR<!a>"] with the default brackets, the default
    mode table and no implicit resets yields [ESC "[31m" "ERROR" ESC "[0m"]. *)
Theorem fancyformat_red_error :
  fancyformat (py "<r>ERROR<!a>") (Some ("<", ">")) false false
  = Ok (ESC :: py "[31mERROR" ++ ESC :: py "[0m").
Proof. vm_compute. reflexivity. Qed.

(** ** The loop body, by character class *)

(** Every character is a marker, a separator, a digit, a key or none of
    these, and the classes exclude each other. *)
Lemma char_cases (c : ascii) :
  c = "#" \/ c = "!"
  \/ (is_separator c = true /\ is_marker c = false /\ is_digit c = false /\ is_key c = false)
  \/ (is_digit c = true /\ is_separator c = false /\ is_marker c = false /\ is_key c = false)
  \/ (is_key c = true /\ is_digit c = false /\ is_separator c = false /\ is_marker c = false)
  \/ (is_key c = false /\ is_digit c = false /\ is_separator c = false /\ is_marker c = false).
Proof.
  each_char c;
    first [ left; reflexivity
          | right; left; reflexivity
          | right; right; left; repeat split; reflexivity
          | right; right; right; left; repeat split; reflexivity
          | right; right; right; right; left; repeat split; reflexivity
          | right; right; right; right; right; repeat split; reflexivity ].
Qed.

Lemma is_marker_false (c : ascii) :
  is_marker c = false -> Ascii.eqb c "#" = false /\ Ascii.eqb c "!" = false.
Proof. unfold is_marker. apply orb_false_elim. Qed.

(** What the last branch of [loop_body] does once a pending literal has been
    assigned. *)
Definition key_action (str_value : str) (char : ascii) (l : Locals.t) : result Locals.t :=
  if bg_marker l then
    match dict_get _COLOR_MODES_FOR_FORMAT_CHARS [char] with
    | None => Raise (_invalid_key_error str_value ["#"; char])
    | Some m => Ok (set_bg_marker false (set_bg_color (Some (ColorOfMode m)) l))
    end
  else if reset_marker l then
    match dict_get _RESET_MODES_FOR_FORMAT_CHARS [char] with
    | None => Raise TypeError
    | Some reset_mode =>
        Ok (set_reset_marker false
              (set_resets (_append_if_not_in_list ResetMode_eq_dec (Locals.resets l) reset_mode) l))
    end
  else
    match dict_get _STYLE_MODES_FOR_FORMAT_CHARS [char] with
    | None =>
        Ok (set_fg_color
              (option_map ColorOfMode (dict_get _COLOR_MODES_FOR_FORMAT_CHARS [char])) l)
    | Some style =>
        Ok (set_resets_of_styles
              (_append_if_not_in_list ResetMode_eq_dec (Locals.resets_of_styles l)
                 (style_reset_mode style))
              (set_styles (_append_if_not_in_list StyleMode_eq_dec (Locals.styles l) style) l))
    end.

Section LoopBody.

Variables (sv tc : str) (i : nat).

Lemma loop_body_hash (l : Locals.t) :
  loop_body sv tc i "#" l =
  if reset_marker l then Raise (_invalid_key_error sv (py "!#"))
  else if bg_marker l then Raise (_invalid_key_error sv (py "##"))
  else l' <- set_n_256_color sv tc i 0 l ;; Ok (set_bg_marker true l').
Proof. reflexivity. Qed.

Lemma loop_body_bang (l : Locals.t) :
  loop_body sv tc i "!" l =
  if reset_marker l then Raise (_invalid_key_error sv (py "!!"))
  else if bg_marker l then Raise (_invalid_key_error sv (py "#!"))
  else l' <- set_n_256_color sv tc i 0 l ;; Ok (set_reset_marker true l').
Proof. reflexivity. Qed.

Lemma loop_body_separator (c : ascii) (l : Locals.t) :
  is_separator c = true -> is_marker c = false ->
  loop_body sv tc i c l =
  if reset_marker l then Raise (_invalid_key_error sv ["!"; c])
  else l' <- set_n_256_color sv tc i 0 l ;;
       if bg_marker l' then Raise (_invalid_key_error sv ["#"; c]) else Ok l'.
Proof.
  intros Hs Hm. apply is_marker_false in Hm as [H1 H2].
  unfold loop_body, is_separator in *. rewrite H1, H2, Hs. reflexivity.
Qed.

Lemma loop_body_digit (c : ascii) (l : Locals.t) :
  is_digit c = true -> is_separator c = false -> is_marker c = false ->
  loop_body sv tc i c l =
  if reset_marker l then Raise (_invalid_key_error sv ["!"; c])
  else match n_256_start l with
       | None => Ok (set_n_256_start (Some i) l)
       | Some _ => Ok l
       end.
Proof.
  intros Hd Hs Hm. apply is_marker_false in Hm as [H1 H2].
  unfold loop_body, is_separator, is_digit in *. rewrite H1, H2, Hs, Hd. reflexivity.
Qed.

Lemma loop_body_key (c : ascii) (l : Locals.t) :
  is_key c = true ->
  loop_body sv tc i c l = (l' <- set_n_256_color sv tc i 0 l ;; key_action sv c l').
Proof.
  intros Hk. destruct (key_classes_disjoint c Hk) as (Hm & Hs & Hd).
  apply is_marker_false in Hm as [H1 H2].
  unfold loop_body, is_separator, is_digit, is_key in *.
  rewrite H1, H2, Hs, Hd, Hk. reflexivity.
Qed.

Lemma loop_body_other (c : ascii) (l : Locals.t) :
  is_key c = false -> is_digit c = false -> is_separator c = false -> is_marker c = false ->
  loop_body sv tc i c l = Raise (_invalid_key_error sv [c]).
Proof.
  intros Hk Hd Hs Hm. apply is_marker_false in Hm as [H1 H2].
  unfold loop_body, is_separator, is_digit, is_key in *.
  rewrite H1, H2, Hs, Hd, Hk. reflexivity.
Qed.

(** Assigning a pending literal leaves the reset marker and the lists
    alone, closes the literal and clears the background marker. *)
Lemma set_n_256_color_Ok (k : nat) (l l' : Locals.t) :
  set_n_256_color sv tc i k l = Ok l' ->
  reset_marker l' = reset_marker l
  /\ Locals.resets l' = Locals.resets l
  /\ Locals.styles l' = Locals.styles l
  /\ Locals.resets_of_styles l' = Locals.resets_of_styles l
  /\ n_256_start l' = None
  /\ (n_256_start l = None -> l' = l)
  /\ (n_256_start l <> None -> bg_marker l' = false).
Proof.
  unfold set_n_256_color. destruct (n_256_start l) as [start |] eqn:Hstart.
  - destruct (_parse_256_color _ _ _ _ _) as [[fg bg] | e]; simpl; [| discriminate].
    intros [= <-]. simpl. repeat split; congruence.
  - intros [= <-]. repeat split; congruence.
Qed.

End LoopBody.

(** ** C5: the foreground lookup *)

(** C5 (the code at the failing input): the letter [a] passes the check
    against the key alphabet and is no style key, yet no color mode has this
    key: the foreground lookup yields [None] and the slot is set to it
    without an error. The tag ["<ra>"] is parsed, its foreground slot is
    empty and it renders the empty string, so the red of [r] is lost; the
    same letter after the background marker, in ["<#a>"], raises the error
    of an invalid format key. *)
Theorem fg_key_silently_dropped :
  is_key "a" = true
  /\ is_style_key "a" = false
  /\ dict_get _COLOR_MODES_FOR_FORMAT_CHARS ["a"] = None
  /\ loop_body (py "<a>") (py "a") 0 "a" Locals.init = Ok (set_fg_color None Locals.init)
  /\ (exists t, FormatTag_init (Some (py "<ra>")) None = Ok t
                /\ fg_color t = None /\ full_escseq t = [])
  /\ fancyformat (py "<ra>x") None false false = Ok (py "x")
  /\ FormatTag_init (Some (py "<#a>")) None
     = Raise (ValueError (py "'<#a>': invalid format key: '#a'")).
Proof.
  repeat split; try reflexivity.
  eexists. split; [vm_compute; reflexivity | split; reflexivity].
Qed.

(** The foreground branch for any character: a character of the key
    alphabet that is processed with no marker pending and is no style key
    sets the foreground slot to the result of the color lookup, and [a] and
    [s], the two letters that are keys of resets only, are the characters
    for which this result is [None]. *)
Theorem fg_lookup_of_key (sv tc : str) (i : nat) (c : ascii) (l : Locals.t) :
  is_key c = true ->
  reset_marker l = false ->
  bg_marker l = false ->
  is_style_key c = false ->
  loop_body sv tc i c l
  = (l' <- set_n_256_color sv tc i 0 l ;;
     Ok (set_fg_color (option_map ColorOfMode (dict_get _COLOR_MODES_FOR_FORMAT_CHARS [c])) l'))
  /\ (dict_get _COLOR_MODES_FOR_FORMAT_CHARS [c] = None <-> c = "a" \/ c = "s").
Proof.
  intros Hk Hr Hb Hs. split.
  - rewrite loop_body_key by assumption.
    destruct (set_n_256_color sv tc i 0 l) as [l' | e] eqn:Hset; [| reflexivity].
    simpl. apply set_n_256_color_Ok in Hset as (Hr' & _ & _ & _ & Hn & Hsame & Hbg).
    assert (Hb' : bg_marker l' = false).
    { destruct (n_256_start l) eqn:E; [apply Hbg; congruence | rewrite Hsame; auto]. }
    unfold key_action. rewrite Hb', Hr', Hr.
    unfold is_style_key in Hs.
    destruct (dict_get _STYLE_MODES_FOR_FORMAT_CHARS [c]); [discriminate | reflexivity].
  - clear - Hk Hs. revert Hk Hs.
    each_char c; vm_compute; intros Hk Hs; try discriminate;
      (split; [intros H; try discriminate H; auto | intros [H | H]; try discriminate H; auto]).
Qed.

Lemma fg_lookup_of_key_witness :
  loop_body (py "<r>") (py "r") 0 "r" Locals.init
  = Ok (set_fg_color (Some (ColorOfMode RED)) Locals.init).
Proof.
  exact (proj1 (fg_lookup_of_key (py "<r>") (py "r") 0 "r" Locals.init
                  eq_refl eq_refl eq_refl eq_refl)).
Defined.

(** ** C4: the bracket validator *)

Section Brackets.

Variables ob cb : ascii.

(** A character that is neither bracket. *)
Definition plain (c : ascii) : Prop := c <> ob /\ c <> cb.

(** The texts whose brackets are properly paired at depth at most 1: plain
    characters and tags [ob t cb] with no bracket inside [t]. *)
Inductive balanced : str -> Prop :=
| balanced_nil : balanced []
| balanced_plain c s : plain c -> balanced s -> balanced (c :: s)
| balanced_tag t s : Forall plain t -> balanced s -> balanced (ob :: t ++ cb :: s).

(** The three mismatches, each with the indices the error carries. *)
Definition double_open (s : str) (e : exn) : Prop :=
  exists q t r,
    s = q ++ ob :: t ++ ob :: r /\ balanced q /\ Forall plain t
    /\ e = BracketsMismatchError s (length q) (Some (length q + 1 + length t))
             (py "Two consecutive open tag brackets '" ++ [ob] ++ py "' are not allowed").

Definition unmatched_closer (s : str) (e : exn) : Prop :=
  exists q r,
    s = q ++ cb :: r /\ balanced q
    /\ e = BracketsMismatchError s (length q) None
             (py "Unmatched closed tag bracket '" ++ [cb] ++ py "'").

Definition unclosed_opener (s : str) (e : exn) : Prop :=
  exists q t,
    s = q ++ ob :: t /\ balanced q /\ Forall plain t
    /\ e = BracketsMismatchError s (length q) None
             (py "Unclosed open tag bracket '" ++ [ob] ++ py "'").

Hypothesis ob_cb : ob <> cb.

Lemma balanced_app (p q : str) : balanced p -> balanced q -> balanced (p ++ q).
Proof.
  induction 1 as [| c s Hc _ IH | t s Ht _ IH]; intros Hq; simpl.
  - assumption.
  - apply balanced_plain; auto.
  - rewrite <- app_assoc. simpl. apply balanced_tag; auto.
Qed.

Lemma plain_eqb (c : ascii) :
  plain c -> Ascii.eqb c ob = false /\ Ascii.eqb c cb = false.
Proof. intros [H1 H2]. split; apply Ascii.eqb_neq; assumption. Qed.

(** The loop passes over plain characters without a change of state. *)
Lemma check_loop_plain (fs t rest : str) (i obi : nat) (opened : bool) :
  Forall plain t ->
  check_loop fs ob cb i (t ++ rest) obi opened
  = check_loop fs ob cb (i + length t) rest obi opened.
Proof.
  intros Ht. revert i. induction Ht as [| c t Hc _ IH]; intros i; simpl.
  - rewrite Nat.add_0_r. reflexivity.
  - destruct (plain_eqb c Hc) as [-> ->]. rewrite IH. f_equal. lia.
Qed.

(** On a balanced text the loop ends with no tag open. *)
Lemma check_loop_balanced (fs r : str) :
  balanced r ->
  forall i obi rest, exists obi',
    check_loop fs ob cb i (r ++ rest) obi false
    = check_loop fs ob cb (i + length r) rest obi' false.
Proof.
  induction 1 as [| c s Hc _ IH | t s Ht _ IH]; intros i obi rest.
  - exists obi. simpl. rewrite Nat.add_0_r. reflexivity.
  - simpl. destruct (plain_eqb c Hc) as [-> ->].
    destruct (IH (S i) obi rest) as [obi' ->]. exists obi'. f_equal. lia.
  - simpl. rewrite Ascii.eqb_refl. rewrite <- app_assoc.
    rewrite check_loop_plain by assumption. simpl.
    assert (Hcb : Ascii.eqb cb ob = false) by (apply Ascii.eqb_neq; congruence).
    rewrite Hcb, Ascii.eqb_refl. simpl.
    destruct (IH (S (S (i + length t))) i rest) as [obi' ->]. exists obi'.
    f_equal. rewrite length_app. simpl. lia.
Qed.

(** The state of the loop after the prefix [p]: either no tag is open and
    [p] is balanced, or [p] is a balanced text followed by an opener at
    index [obi] and plain characters. *)
Definition loop_state (p : str) (obi : nat) (opened : bool) : Prop :=
  if opened then
    exists q t, p = q ++ ob :: t /\ balanced q /\ Forall plain t /\ obi = length q
  else balanced p.

Lemma check_loop_spec (fs rest : str) :
  forall p obi opened,
    loop_state p obi opened ->
    match check_loop fs ob cb (length p) rest obi opened with
    | Ok (obi', opened') => loop_state (p ++ rest) obi' opened'
    | Raise e =>
        (exists q t r,
            p ++ rest = q ++ ob :: t ++ ob :: r /\ balanced q /\ Forall plain t
            /\ e = BracketsMismatchError fs (length q) (Some (length q + 1 + length t))
                     (py "Two consecutive open tag brackets '" ++ [ob]
                        ++ py "' are not allowed"))
        \/ (exists q r,
              p ++ rest = q ++ cb :: r /\ balanced q
              /\ e = BracketsMismatchError fs (length q) None
                       (py "Unmatched closed tag bracket '" ++ [cb] ++ py "'"))
    end.
Proof.
  induction rest as [| c rest IH]; intros p obi opened Hst; simpl.
  - rewrite app_nil_r. assumption.
  - assert (Hp : p ++ c :: rest = (p ++ [c]) ++ rest)
      by (rewrite <- app_assoc; reflexivity).
    assert (Hlen : S (length p) = length (p ++ [c]))
      by (rewrite length_app; simpl; lia).
    destruct (Ascii.eqb_spec c ob) as [-> | Hob].
    + destruct opened.
      * destruct Hst as (q & t & -> & Hq & Ht & ->).
        left. exists q, t, rest. repeat split; auto.
        -- rewrite <- app_assoc. reflexivity.
        -- unfold _brackets_mismatch_error. do 2 f_equal.
           rewrite length_app. simpl. lia.
      * rewrite Hp, Hlen. apply IH. exists p, []. repeat split; auto.
    + destruct (Ascii.eqb_spec c cb) as [-> | Hcb].
      * destruct opened; simpl.
        -- rewrite Hp, Hlen. apply IH.
           destruct Hst as (q & t & -> & Hq & Ht & ->). simpl.
           rewrite <- app_assoc. simpl. apply balanced_app; auto.
           replace (ob :: t ++ [cb]) with (ob :: t ++ cb :: []) by reflexivity.
           apply balanced_tag; auto. constructor.
        -- right. exists p, rest. repeat split; auto.
      * rewrite Hp, Hlen. apply IH.
        destruct opened.
        -- destruct Hst as (q & t & -> & Hq & Ht & ->).
           exists q, (t ++ [c]). repeat split; auto.
           ++ rewrite <- app_assoc. reflexivity.
           ++ apply Forall_app. split; auto. constructor; [split; auto | constructor].
        -- simpl in *. apply balanced_app; auto.
           apply balanced_plain; [split; auto | constructor].
Qed.

(** C4: for an opener and a closer that differ, the check accepts a text
    exactly when its brackets are properly paired at depth at most 1;
    otherwise it raises one of three errors, and exactly one: double open
    with the indices of both openers, unmatched closer with its index, or
    unclosed opener with the index of the opener. *)
Theorem check_brackets_match_spec (s : str) :
  (_check_brackets_match s (ob, cb) = Ok tt <-> balanced s)
  /\ (forall e, _check_brackets_match s (ob, cb) = Raise e ->
        double_open s e \/ unmatched_closer s e \/ unclosed_opener s e)
  /\ (forall e, ~ (double_open s e /\ unmatched_closer s e)
                /\ ~ (double_open s e /\ unclosed_opener s e)
                /\ ~ (unmatched_closer s e /\ unclosed_opener s e)).
Proof.
  split; [| split].
  - split.
    + intros H. unfold _check_brackets_match in H.
      pose proof (check_loop_spec s s [] 0 false balanced_nil) as Hspec.
      simpl in Hspec.
      destruct (check_loop s ob cb 0 s 0 false) as [[obi opened] | e]; simpl in H.
      * destruct opened; [discriminate | exact Hspec].
      * discriminate.
    + intros Hb. unfold _check_brackets_match.
      destruct (check_loop_balanced s s Hb 0 0 []) as [obi' Heq].
      rewrite app_nil_r in Heq. rewrite Heq. reflexivity.
  - intros e H. unfold _check_brackets_match in H.
    pose proof (check_loop_spec s s [] 0 false balanced_nil) as Hspec.
    simpl in Hspec.
    destruct (check_loop s ob cb 0 s 0 false) as [[obi opened] | e']; simpl in H.
    + destruct opened; [| discriminate].
      injection H as <-. right. right.
      destruct Hspec as (q & t & -> & Hq & Ht & ->).
      exists q, t. repeat split; auto.
    + injection H as <-.
      destruct Hspec as [(q & t & r & Hs & Hq & Ht & ->) | (q & r & Hs & Hq & ->)].
      * left. exists q, t, r. repeat split; auto.
      * right. left. exists q, r. repeat split; auto.
  - intros e. repeat split.
    + intros [(q & t & r & _ & _ & _ & ->) (q' & r' & _ & _ & He)]. discriminate He.
    + intros [(q & t & r & _ & _ & _ & ->) (q' & t' & _ & _ & _ & He)]. discriminate He.
    + intros [(q & r & _ & _ & ->) (q' & t' & _ & _ & _ & He)].
      injection He as _ He. discriminate He.
Qed.

End Brackets.

Lemma check_brackets_match_spec_witness :
  _check_brackets_match (py "a<r>b") ("<", ">") = Ok tt <-> balanced "<" ">" (py "a<r>b").
Proof.
  assert (H : "<" <> ">") by discriminate.
  exact (proj1 (check_brackets_match_spec "<" ">" H (py "a<r>b"))).
Defined.

(** ** The prompt functions *)

Section PromptProperties.

Context {B : Builtins}.

(** The comparison of an input with a configured string. *)
Definition matches (ignore_case : bool) (inp s : str) : bool :=
  if ignore_case then str_eqb (lower inp) (lower s) else str_eqb inp s.

(** [c] is the first string of [strs] that [inp] matches. *)
Definition first_match (ignore_case : bool) (inp : str) (strs : list str) (c : str) : Prop :=
  exists l1 l2,
    strs = l1 ++ c :: l2
    /\ matches ignore_case inp c = true
    /\ Forall (fun s => matches ignore_case inp s = false) l1.

(** [inp] matches no string of [strs]. *)
Definition no_match (ignore_case : bool) (inp : str) (strs : list str) : Prop :=
  Forall (fun s => matches ignore_case inp s = false) strs.

Lemma check_special_input_step (inp s : str) (strs : list str) (ic : bool) :
  _check_special_input inp (s :: strs) ic
  = if matches ic inp s then Some s else _check_special_input inp strs ic.
Proof. unfold matches. destruct ic; reflexivity. Qed.

Lemma check_special_input_spec (inp : str) (strs : list str) (ic : bool) :
  match _check_special_input inp strs ic with
  | Some c => first_match ic inp strs c
  | None => no_match ic inp strs
  end.
Proof.
  induction strs as [| s strs IH].
  - constructor.
  - rewrite check_special_input_step. destruct (matches ic inp s) eqn:Hm.
    + exists [], strs. repeat split; auto.
    + destruct (_check_special_input inp strs ic) as [c |].
      * destruct IH as (l1 & l2 & -> & Hc & Hl1).
        exists (s :: l1), l2. repeat split; auto.
      * constructor; assumption.
Qed.

Lemma first_match_check (inp : str) (strs : list str) (ic : bool) (c : str) :
  first_match ic inp strs c -> _check_special_input inp strs ic = Some c.
Proof.
  intros (l1 & l2 & -> & Hc & Hl1).
  induction Hl1 as [| s l1 Hs _ IH]; simpl app; rewrite check_special_input_step.
  - rewrite Hc. reflexivity.
  - rewrite Hs. exact IH.
Qed.

Lemma no_match_check (inp : str) (strs : list str) (ic : bool) :
  no_match ic inp strs -> _check_special_input inp strs ic = None.
Proof.
  induction 1 as [| s l Hs _ IH]; [reflexivity |].
  rewrite check_special_input_step, Hs. exact IH.
Qed.

(** The line is read again instead of being classified. *)
Definition retries (repeat_on_empty : bool) (inp : str) : bool :=
  repeat_on_empty && Nat.eqb (length inp) 0.

(** What a prompt function does with a line classified as a command, and
    with a line classified as an exit code. *)
Definition command_outcome {A} (a : special_args) (prompt_len : nat) (c inp : str) : io A :=
  _mark_input (command_marking_format_tag a) c prompt_len [] >>
  io_raise (CommandInputException_init c inp).

Definition exit_outcome {A} (a : special_args) (prompt_len : nat) (call_before_exit : bool)
    (c : str) : io A :=
  _mark_input (exit_code_marking_format_tag a) c prompt_len [] >>
  (if call_before_exit then ([Call_before_exit], Ok tt) else io_ret tt) >>
  io_raise SystemExit.

Definition exit_outcome_msg {A} (a : special_args) (prompt_len : nat)
    (msg_on_exit : option str) (c : str) : io A :=
  _mark_input (exit_code_marking_format_tag a) c prompt_len [] >>
  match msg_on_exit with
  | Some m => fancyprintf m false [NEWLINE]
  | None => io_ret tt
  end >>
  io_raise SystemExit.

(** *** Events *)










(** The result and the events of the two outcomes, when marking raises
    nothing. *)
Lemma command_outcome_result {A} (a : special_args) (n : nat) (c inp : str) :
  snd (_mark_input (command_marking_format_tag a) c n []) = Ok tt ->
  snd (@command_outcome A a n c inp) = Raise (CommandInputException_init c inp).
Proof. unfold command_outcome, io_bind. intros ->. reflexivity. Qed.



End PromptProperties.

(** *** C1, C8, C9: classification of an input line

    Each public prompt function compiles its prompt and then runs its loop;
    the loop is given the prompt, its visible length and the effective value
    of [repeat_on_empty]. The theorems are about one line [inp] that is not
    read again, followed by any further lines [stdin]. *)

Section Classification.

Context {B : Builtins}.
Variables (prompt : str) (prompt_len : nat) (repeat_on_empty : bool) (a : special_args).
Variables (inp : str) (stdin : list str).

(** The part of the line before its first space, which is what the command
    check compares. *)
Local Abbreviation first_token := (before_first_space inp).
Local Abbreviation ic := (special_inputs_ignore_case a).

Lemma snd_emit {A} (evs : list event) (m : io A) : snd (emit evs m) = snd m.
Proof. reflexivity. Qed.


Ltac step_loop H :=
  cbn [fancyinput_loop fancyinput_yn_loop fancyinput_int_loop
       fancyinput_dict_options_loop fancyinput_options_loop];
  unfold retries in H; rewrite H; unfold _check_command_input;
  change (@_compare_input B) with (fun i c g => @matches B g i c); cbn beta.

Ltac by_matches :=
  repeat match goal with
         | H : first_match _ _ _ _ |- _ => rewrite (first_match_check _ _ _ _ H); clear H
         | H : no_match _ _ _ |- _ => rewrite (no_match_check _ _ _ H); clear H
         | H : matches _ _ _ = _ |- _ => rewrite H; clear H
         end;
  try reflexivity.

(** C1 (amended): in the free-text, integer, dict-options and list-options
    prompts a line is classified as a command when the text before its
    first space matches a configured command, whatever else it matches;
    else as an exit code when the whole line matches one; else by the
    acceptance test of the variant. The yes/no prompt compares the whole
    line with the yes literal and then with the no literal first, and
    checks commands and exit codes only for a line that is neither. *)
Theorem classification_order :
  retries repeat_on_empty inp = false ->
  (forall cbe vf vt it me,
      let run := fancyinput_loop prompt prompt_len repeat_on_empty a cbe vf vt it me in
      (forall c, first_match ic first_token (commands a) c ->
         run (inp :: stdin)
         = emit (input_events prompt) (command_outcome a prompt_len c inp))
      /\ (forall c, no_match ic first_token (commands a) ->
            first_match ic inp (exit_codes a) c ->
            run (inp :: stdin)
            = emit (input_events prompt) (exit_outcome a prompt_len cbe c))
      /\ (no_match ic first_token (commands a) -> no_match ic inp (exit_codes a) ->
          run (inp :: stdin)
          = emit (input_events prompt)
              match match vf with Some f => f inp | None => None end with
              | None => _mark_input vt inp prompt_len me >> io_ret inp
              | Some msg =>
                  _mark_input it inp prompt_len [] >>
                  fancyprintf msg false [NEWLINE] >> run stdin
              end))
  /\ (forall mi ma vf cbe e1 e2 vt it,
      let run := fancyinput_int_loop prompt prompt_len repeat_on_empty mi ma vf a cbe
                   e1 e2 vt it in
      (forall c, first_match ic first_token (commands a) c ->
         run (inp :: stdin)
         = emit (input_events prompt) (command_outcome a prompt_len c inp))
      /\ (forall c, no_match ic first_token (commands a) ->
            first_match ic inp (exit_codes a) c ->
            run (inp :: stdin)
            = emit (input_events prompt) (exit_outcome a prompt_len cbe c))
      /\ (no_match ic first_token (commands a) -> no_match ic inp (exit_codes a) ->
          int_of_str inp = None ->
          run (inp :: stdin)
          = emit (input_events prompt)
              (_mark_input it inp prompt_len [] >>
               fancyprintf e1 false [NEWLINE] >> run stdin))
      /\ (forall z, no_match ic first_token (commands a) ->
            no_match ic inp (exit_codes a) ->
            int_of_str inp = Some z -> _input_int_in_range z mi ma = true -> vf = None ->
            run (inp :: stdin)
            = emit (input_events prompt) (_mark_input vt inp prompt_len [] >> io_ret z)))
  /\ (forall (T : Type) (d : list (str * T)) igc vf cbe um tags ut it,
      let run := fancyinput_dict_options_loop prompt prompt_len repeat_on_empty d igc vf a
                   cbe um tags ut it in
      (forall c, first_match ic first_token (commands a) c ->
         run (inp :: stdin)
         = emit (input_events prompt) (command_outcome a prompt_len c inp))
      /\ (forall c, no_match ic first_token (commands a) ->
            first_match ic inp (exit_codes a) c ->
            run (inp :: stdin)
            = emit (input_events prompt) (exit_outcome a prompt_len cbe c))
      /\ (no_match ic first_token (commands a) -> no_match ic inp (exit_codes a) ->
          _fancyinput_dict_options_get_option inp d igc = None ->
          run (inp :: stdin)
          = emit (input_events prompt)
              (_mark_input ut inp prompt_len [] >>
               fancyprintf
                 (replace [_BracketsRepl.OPEN] (py "*")
                    (replace (py "*") inp (replace (py "\*") [_BracketsRepl.OPEN] um)))
                 false [NEWLINE] >> run stdin))
      /\ (forall k v i, no_match ic first_token (commands a) ->
            no_match ic inp (exit_codes a) ->
            _fancyinput_dict_options_get_option inp d igc = Some (k, v, i) ->
            vf = None -> tags = None ->
            run (inp :: stdin) = emit (input_events prompt) (io_ret tt >> io_ret v)))
  /\ (forall (T : Type) ift ofs os (rs : option (list T)) igc em msg it,
      let run := fancyinput_options_loop prompt prompt_len repeat_on_empty ift ofs os rs
                   igc em a msg it in
      (forall c, first_match ic first_token (commands a) c ->
         run (inp :: stdin)
         = emit (input_events prompt) (command_outcome a prompt_len c inp))
      /\ (forall c, no_match ic first_token (commands a) ->
            first_match ic inp (exit_codes a) c ->
            run (inp :: stdin)
            = emit (input_events prompt) (exit_outcome_msg a prompt_len msg c))
      /\ (no_match ic first_token (commands a) -> no_match ic inp (exit_codes a) ->
          _find_option_index inp os igc = None ->
          run (inp :: stdin)
          = emit (input_events prompt)
              (_mark_input it inp prompt_len [] >>
               fancyprintf em false [NEWLINE] >> run stdin)))
  /\ (forall y n igc cbe msg yt nt it,
      let run := fancyinput_yn_loop prompt prompt_len repeat_on_empty y n igc a cbe msg
                   yt nt it in
      (matches igc inp y = true ->
       run (inp :: stdin)
       = emit (input_events prompt) (_mark_input yt y prompt_len [] >> io_ret true))
      /\ (matches igc inp y = false -> matches igc inp n = true ->
          run (inp :: stdin)
          = emit (input_events prompt) (_mark_input nt n prompt_len [] >> io_ret false))
      /\ (forall c, matches igc inp y = false -> matches igc inp n = false ->
            first_match ic first_token (commands a) c ->
            run (inp :: stdin)
            = emit (input_events prompt) (command_outcome a prompt_len c inp))
      /\ (forall c, matches igc inp y = false -> matches igc inp n = false ->
            no_match ic first_token (commands a) ->
            first_match ic inp (exit_codes a) c ->
            run (inp :: stdin)
            = emit (input_events prompt) (exit_outcome a prompt_len cbe c))
      /\ (matches igc inp y = false -> matches igc inp n = false ->
          no_match ic first_token (commands a) -> no_match ic inp (exit_codes a) ->
          run (inp :: stdin)
          = emit (input_events prompt)
              (_mark_input it inp prompt_len [] >>
               fancyprintf msg false [NEWLINE] >> run stdin))).
Proof.
  intros Hretry. cbv zeta.
  repeat match goal with
         | |- _ /\ _ => split
         | |- forall _, _ => intro
         end;
    step_loop Hretry; by_matches.
  - match goal with H : int_of_str inp = None |- _ => rewrite H end. reflexivity.
  - repeat match goal with
           | H : int_of_str inp = _ |- _ => rewrite H; clear H
           | H : _input_int_in_range _ _ _ = _ |- _ => rewrite H; clear H
           end.
    subst. reflexivity.
  - match goal with H : _fancyinput_dict_options_get_option _ _ _ = None |- _ =>
                      rewrite H end. reflexivity.
  - match goal with H : _fancyinput_dict_options_get_option _ _ _ = Some _ |- _ =>
                      rewrite H end. subst. reflexivity.
  - match goal with H : _find_option_index _ _ _ = None |- _ => rewrite H end.
    reflexivity.
Qed.

End Classification.

Lemma str_eqb_eq (x y : str) : str_eqb x y = true <-> x = y.
Proof.
  revert y. induction x as [| c x IH]; intros [| d y]; simpl; split;
    try congruence; try discriminate.
  - intros H. apply andb_prop in H as [H1 H2].
    apply Ascii.eqb_eq in H1. apply IH in H2. congruence.
  - intros [= -> ->]. rewrite Ascii.eqb_refl. apply IH. reflexivity.
Qed.

(** The tokens of a line that starts with a token free of whitespace: that
    token, then the tokens of the rest. *)
Lemma split_from_first_token (s : str) :
  forall tok,
    Forall (fun x => isspace x = false) (before_first_space s) ->
    tok ++ before_first_space s <> [] ->
    split_from s tok
    = (tok ++ before_first_space s)
        :: split_from (skipn (length (before_first_space s)) s) [].
Proof.
  induction s as [| c s IH]; intros tok Hws Hne; simpl in *.
  - rewrite app_nil_r in *. destruct tok; [congruence | reflexivity].
  - destruct (Ascii.eqb_spec c " ") as [-> | Hc]; simpl in *.
    + rewrite app_nil_r in *. destruct tok; [congruence | reflexivity].
    + inversion Hws as [| ? ? Hx Hrest]; subst. rewrite Hx.
      rewrite IH; auto.
      * rewrite <- app_assoc. reflexivity.
      * rewrite <- app_assoc. simpl. destruct tok; discriminate.
Qed.

Section Signals.

Context {B : Builtins}.
Variables (prompt : str) (prompt_len : nat) (repeat_on_empty : bool) (a : special_args).
Variables (inp : str) (stdin : list str).

Local Abbreviation first_token := (before_first_space inp).
Local Abbreviation ic := (special_inputs_ignore_case a).

Ltac step_loop H :=
  cbn [fancyinput_loop fancyinput_yn_loop fancyinput_int_loop
       fancyinput_dict_options_loop fancyinput_options_loop];
  unfold retries in H; rewrite H; unfold _check_command_input;
  change (@_compare_input B) with (fun i c g => @matches B g i c); cbn beta.

Ltac by_matches :=
  repeat match goal with
         | H : first_match _ _ _ _ |- _ => rewrite (first_match_check _ _ _ _ H); clear H
         | H : no_match _ _ _ |- _ => rewrite (no_match_check _ _ _ H); clear H
         | H : matches _ _ _ = _ |- _ => rewrite H; clear H
         end.

(** C8 (amended): when the text before the first space of a line matches a
    configured command, [c] being the first such command, and marking the
    command raises nothing, each prompt function raises
    [CommandInputException] with the configured command [c], the whole
    line, the text after the command and all the whitespace-split tokens of
    the line; in the yes/no prompt this holds for a line that matches
    neither literal. No prompt function catches the exception. For a
    command without whitespace that is compared case-sensitively, the
    tokens are the command followed by the tokens of the rest of the line. *)
Theorem command_signal (c : str) :
  retries repeat_on_empty inp = false ->
  first_match ic first_token (commands a) c ->
  snd (_mark_input (command_marking_format_tag a) c prompt_len []) = Ok tt ->
  let signal :=
    CommandInputException c inp
      (if Nat.ltb (length c) (length inp) then skipn (length c + 1) inp else [])
      (split inp) in
  (forall cbe vf vt it me,
      snd (fancyinput_loop prompt prompt_len repeat_on_empty a cbe vf vt it me
             (inp :: stdin)) = Raise signal)
  /\ (forall mi ma vf cbe e1 e2 vt it,
      snd (fancyinput_int_loop prompt prompt_len repeat_on_empty mi ma vf a cbe e1 e2 vt it
             (inp :: stdin)) = Raise signal)
  /\ (forall (T : Type) (d : list (str * T)) igc vf cbe um tags ut it,
      snd (fancyinput_dict_options_loop prompt prompt_len repeat_on_empty d igc vf a cbe um
             tags ut it (inp :: stdin)) = Raise signal)
  /\ (forall (T : Type) ift ofs os (rs : option (list T)) igc em msg it,
      snd (fancyinput_options_loop prompt prompt_len repeat_on_empty ift ofs os rs igc em a
             msg it (inp :: stdin)) = Raise signal)
  /\ (forall y n igc cbe msg yt nt it,
      matches igc inp y = false -> matches igc inp n = false ->
      snd (fancyinput_yn_loop prompt prompt_len repeat_on_empty y n igc a cbe msg yt nt it
             (inp :: stdin)) = Raise signal)
  /\ In c (commands a)
  /\ (ic = false -> c <> [] -> Forall (fun x => isspace x = false) c ->
      split inp = c :: split (skipn (length c) inp)).
Proof.
  intros Hretry Hc Hmark signal.
  assert (Hsig : forall A, snd (@command_outcome B A a prompt_len c inp) = Raise signal)
    by (intros A; apply command_outcome_result; assumption).
  repeat match goal with
         | |- _ /\ _ => split
         end.
  1-5: intros; step_loop Hretry; by_matches; rewrite snd_emit; apply Hsig.
  - destruct Hc as (l1 & l2 & -> & _ & _). apply in_elt.
  - intros Hic Hne Hws. destruct Hc as (l1 & l2 & _ & Hm & _).
    unfold matches in Hm. rewrite Hic in Hm. apply str_eqb_eq in Hm.
    unfold split. rewrite split_from_first_token; rewrite Hm; auto.
Qed.


End Signals.

(** *** Examples of classification *)

Definition help_quit : special_args :=
  mkSpecialArgs true [py "help"] [py "quit"] false None None.

Lemma classification_order_witness :
  fancyinput_loop (py "? ") 2 true help_quit false None None None [] [py "help me"]
  = emit (input_events (py "? ")) (command_outcome help_quit 2 (py "help") (py "help me")).
Proof.
  pose proof (classification_order (py "? ") 2 true help_quit (py "help me") [] eq_refl) as H.
  destruct H as [H _]. specialize (H false None None None []). destruct H as [H _].
  apply H. exists [], []. repeat split; constructor.
Defined.

(** C1 (as stated, refuted): in the yes/no prompt with the command [Y] and the
    yes literal [Y], the line [Y] matches the command, yet the prompt returns
    [True]. *)
Lemma yn_command_counterexample :
  let a := mkSpecialArgs true [py "Y"] [] false None None in
  _check_command_input (py "Y") (commands a) (special_inputs_ignore_case a) = Some (py "Y")
  /\ snd (fancyinput_yn (py "? ") [] (py "Y") (py "n") false a None false None None None
            [py "Y"]) = Ok true.
Proof. split; vm_compute; reflexivity. Qed.

Lemma command_signal_witness :
  snd (fancyinput_loop (py "? ") 2 true help_quit false None None None [] [py "help me"])
  = Raise (CommandInputException (py "help") (py "help me") (py "me") [py "help"; py "me"]).
Proof.
  assert (Hc : first_match false (before_first_space (py "help me")) (commands help_quit)
                 (py "help"))
    by (exists [], []; repeat split; constructor).
  pose proof (command_signal (py "? ") 2 true help_quit (py "help me") [] (py "help")
                eq_refl Hc eq_refl) as H.
  destruct H as [H _]. exact (H false None None None []).
Defined.

(** C8 (as stated, refuted): the first whitespace-delimited token of the line
    [help<TAB>me] is the configured command [help], yet the free-text prompt
    raises no signal: it returns the line as a valid input. *)
Lemma tab_command_counterexample :
  let line := py "help" ++ TAB :: py "me" in
  hd [] (split line) = py "help"
  /\ In (py "help") (commands help_quit)
  /\ snd (fancyinput (py "? ") [] help_quit false None None None [] [line]) = Ok line.
Proof.
  intros line. split; [reflexivity | split; [left; reflexivity | vm_compute; reflexivity]].
Qed.



(** ** C7: texts without tags *)

Lemma startswith_In (old s : str) (c : ascii) :
  startswith old s = true -> In c old -> In c s.
Proof.
  revert s. induction old as [| x old IH]; intros s H Hc; [destruct Hc |].
  destruct s as [| y s]; [discriminate |]. simpl in H.
  apply andb_prop in H as [Hxy H]. apply Ascii.eqb_eq in Hxy. subst y.
  destruct Hc as [-> | Hc]; [left; reflexivity | right; eauto].
Qed.

(** Replacing a string that has a character which the text has not leaves
    the text as it is. *)
Lemma replace_absent (old new s : str) (c : ascii) :
  In c old -> ~ In c s -> replace old new s = s.
Proof.
  intros Hc. unfold replace. induction s as [| x s IH]; intros Hs; [reflexivity |].
  cbn [replace_from].
  destruct (startswith old (x :: s)) eqn:Hsw.
  - exfalso. apply Hs. eapply startswith_In; eauto.
  - f_equal. apply IH. intros H. apply Hs. right. exact H.
Qed.

(** [re.split] yields at least one part. *)
Lemma re_scan_parts_nonempty (ob cb : ascii) (s : str) :
  forall n, fst (re_scan ob cb s n) <> [].
Proof.
  induction s as [| c s IH]; intros n; simpl; [discriminate |].
  destruct n as [| n]; [| apply IH].
  destruct (if Ascii.eqb c ob then lazy_until cb s else None) as [k |].
  - destruct (re_scan ob cb s k); discriminate.
  - destruct (re_scan ob cb s 0) as [[| p ps] tags]; discriminate.
Qed.

(** The tag pattern does not match inside a text without opener. *)
Lemma re_scan_plain (ob cb : ascii) (t rest : str) :
  Forall (fun c => c <> ob) t ->
  re_scan ob cb (t ++ rest) 0
  = (match fst (re_scan ob cb rest 0) with
     | p :: ps => (t ++ p) :: ps
     | [] => [t]
     end, snd (re_scan ob cb rest 0)).
Proof.
  induction 1 as [| c t Hc _ IH]; simpl.
  - pose proof (re_scan_parts_nonempty ob cb rest 0) as Hne.
    destruct (re_scan ob cb rest 0) as [[| p ps] tags]; [| reflexivity].
    exfalso. apply Hne. reflexivity.
  - apply Ascii.eqb_neq in Hc. rewrite Hc, IH.
    destruct (re_scan ob cb rest 0) as [[| p ps] tags]; reflexivity.
Qed.

Lemma re_scan_plain_end (ob cb : ascii) (t : str) :
  Forall (fun c => c <> ob) t -> re_scan ob cb t 0 = ([t], []).
Proof.
  intros Ht. pose proof (re_scan_plain ob cb t [] Ht) as H.
  rewrite app_nil_r in H. simpl in H. rewrite app_nil_r in H. exact H.
Qed.

Lemma re_scan_reset_tag (rest : str) :
  re_scan "<" ">" (py "<!a>" ++ rest) 0
  = ([] :: fst (re_scan "<" ">" rest 0), py "<!a>" :: snd (re_scan "<" ">" rest 0)).
Proof. simpl. destruct (re_scan "<" ">" rest 0). reflexivity. Qed.

(** C7 (as stated, refuted): the texts [a\<b] and [U+0011] contain no tag,
    yet the compiler does not return them unchanged: the escaped bracket
    loses its backslash and the control character becomes a bracket. *)
Lemma no_tags_counterexample :
  let escaped t := replace (py "\>") [_BracketsRepl.CLOSED]
                     (replace (py "\<") [_BracketsRepl.OPEN] t) in
  re_findall_tags ("<", ">") (escaped (py "a\<b")) = []
  /\ fancyformat (py "a\<b") (Some ("<", ">")) false false = Ok (py "a<b")
  /\ re_findall_tags ("<", ">") (escaped ["017"]) = []
  /\ fancyformat ["017"] (Some ("<", ">")) false false = Ok (py "<").
Proof. repeat split; vm_compute; reflexivity. Qed.

(** C7 (amended): with the default brackets, a text that contains neither a
    bracket nor one of the two characters that stand for escaped brackets
    (U+0011, U+0012) is returned unchanged when both flags are off; the
    start flag puts the reset-all escape sequence before it and the end flag
    puts it after it. *)
Theorem fancyformat_plain_text (text : str) (start_reset_all end_reset_all : bool) :
  Forall (fun c => c <> "<" /\ c <> ">"
                   /\ c <> _BracketsRepl.OPEN /\ c <> _BracketsRepl.CLOSED) text ->
  fancyformat text (Some ("<", ">")) start_reset_all end_reset_all
  = Ok ((if start_reset_all then esc_seq (reset_esc RESET_ALL) else [])
          ++ text
          ++ (if end_reset_all then esc_seq (reset_esc RESET_ALL) else [])).
Proof.
  intros Htext.
  assert (Hnot : forall c, In c (py "<>" ++ [_BracketsRepl.OPEN; _BracketsRepl.CLOSED]) ->
                           ~ In c text).
  { intros c Hc Hin. rewrite Forall_forall in Htext.
    destruct (Htext c Hin) as (H1 & H2 & H3 & H4).
    simpl in Hc. intuition congruence. }
  assert (Hplain : Forall (plain "<" ">") text).
  { eapply Forall_impl; [| exact Htext]. intros c (H1 & H2 & _). split; assumption. }
  assert (Hopen : Forall (fun c => c <> "<") text).
  { eapply Forall_impl; [| exact Htext]. intros c (H1 & _). assumption. }
  unfold fancyformat.
  rewrite (replace_absent (py "\<") _ text "<")
    by first [ solve [simpl; auto] | apply Hnot; simpl; auto ].
  rewrite (replace_absent (py "\>") _ text ">")
    by first [ solve [simpl; auto] | apply Hnot; simpl; auto ].
  assert (Hcheck : _check_brackets_match text ("<", ">") = Ok tt).
  { unfold _check_brackets_match.
    pose proof (check_loop_plain "<" ">" text text [] 0 0 false Hplain) as H.
    rewrite app_nil_r in H. rewrite H. reflexivity. }
  rewrite Hcheck. cbn [bind].
  assert (Hscan_end : re_scan "<" ">" (py "<!a>") 0 = ([[]; []], [py "<!a>"]))
    by reflexivity.
  assert (Htag : (tag <- FormatTag_init (Some (py "<!a>")) (Some ("<", ">")) ;;
                  Ok (full_escseq tag)) = Ok (esc_seq (reset_esc RESET_ALL)))
    by (vm_compute; reflexivity).
  assert (Hseq : forall c, In c [_BracketsRepl.OPEN; _BracketsRepl.CLOSED] ->
                           ~ In c (esc_seq (reset_esc RESET_ALL))).
  { intros c [<- | [<- | []]]; vm_compute; intuition discriminate. }
  assert (Hrestore : forall r,
             (forall c, In c [_BracketsRepl.OPEN; _BracketsRepl.CLOSED] -> ~ In c r) ->
             replace [_BracketsRepl.CLOSED] [">"] (replace [_BracketsRepl.OPEN] ["<"] r) = r).
  { intros r Hr.
    rewrite (replace_absent [_BracketsRepl.OPEN] _ r _BracketsRepl.OPEN);
      [| left; reflexivity | apply Hr; simpl; auto].
    apply (replace_absent _ _ r _BracketsRepl.CLOSED);
      [left; reflexivity | apply Hr; simpl; auto]. }
  assert (Htext' : forall c, In c [_BracketsRepl.OPEN; _BracketsRepl.CLOSED] -> ~ In c text).
  { intros c Hc. apply Hnot. rewrite in_app_iff. right. exact Hc. }
  unfold re_findall_tags, re_split_tags, _place_reset_all_tags. cbn [fst snd].
  destruct start_reset_all, end_reset_all; cbv beta zeta iota; rewrite <- ?app_assoc.
  - rewrite re_scan_reset_tag, re_scan_plain, Hscan_end by assumption.
    cbn [fst snd map_result]. rewrite Htag. cbn [bind combine map concat fst snd last app].
    rewrite !app_nil_r. rewrite Hrestore; [reflexivity |].
    intros c Hc. rewrite !in_app_iff. specialize (Hseq c Hc). specialize (Htext' c Hc). tauto.
  - rewrite re_scan_reset_tag, re_scan_plain_end by assumption.
    cbn [fst snd map_result]. rewrite Htag. cbn [bind combine map concat fst snd last app].
    rewrite !app_nil_r. rewrite Hrestore; [reflexivity |].
    intros c Hc. rewrite !in_app_iff. specialize (Hseq c Hc). specialize (Htext' c Hc). tauto.
  - rewrite re_scan_plain, Hscan_end by assumption.
    cbn [fst snd map_result]. rewrite Htag. cbn [bind combine map concat fst snd last app].
    rewrite !app_nil_r. rewrite Hrestore; [reflexivity |].
    intros c Hc. rewrite !in_app_iff. specialize (Hseq c Hc). specialize (Htext' c Hc). tauto.
  - rewrite re_scan_plain_end by assumption.
    cbn [fst snd map_result bind combine map concat fst snd last app].
    rewrite !app_nil_r. rewrite Hrestore; [reflexivity |].
    intros c Hc. specialize (Htext' c Hc). tauto.
Qed.

Lemma fancyformat_plain_text_witness :
  fancyformat (py "Hello") (Some ("<", ">")) true false
  = Ok (esc_seq (reset_esc RESET_ALL) ++ py "Hello" ++ []).
Proof.
  apply (fancyformat_plain_text (py "Hello") true false).
  repeat constructor; discriminate.
Defined.


(** ** The scan of a tag, character by character

    What the loop of [_calc_mode_attrs] does with a character depends on the
    characters before it only through three facts: the previous character,
    the digits of the literal that is open, and whether a [#] stands directly
    before that literal. *)

Record lookback : Type := mkLookback {
  prev : option ascii;
  cur : str;
  hashed : bool
}.

Definition no_lookback : lookback := mkLookback None [] false.

Definition prev_is (c0 : ascii) (prev : option ascii) : bool :=
  match prev with Some a => Ascii.eqb a c0 | None => false end.

Definition prev_marker (prev : option ascii) : bool :=
  match prev with Some a => is_marker a | None => false end.

Definition look_step (lb : lookback) (c : ascii) : lookback :=
  {| prev := Some c;
     cur := if is_digit c then cur lb ++ [c] else [];
     hashed := if is_digit c
               then match cur lb with [] => prev_is "#" (prev lb) | _ => hashed lb end
               else false |}.

Definition look (lb : lookback) (s : str) : lookback := fold_left look_step s lb.

(** The value of a literal exceeds 255. *)
Definition too_large (literal : str) : bool :=
  match int_of_digits literal with
  | Some v => (255 <? v)%N
  | None => false
  end.

(** The character [c] makes the tag malformed. *)
Definition violation_at (lb : lookback) (c : ascii) : bool :=
  negb (is_key c || is_digit c || is_marker c || is_separator c)
  || prev_marker (prev lb) && is_marker c
  || prev_marker (prev lb) && is_separator c
  || prev_is "!" (prev lb) && is_digit c
  || prev_is "#" (prev lb) && is_key c && negb (is_color_key c)
  || negb (is_digit c) && too_large (cur lb).

(** The two places where the loop goes wrong by a slip: a key after [!] that
    is no reset key (the error is built with one argument too many), and a
    marker after a literal in background position (the marker flag is still
    set when the markers are compared). *)
Definition slip_at (lb : lookback) (c : ascii) : bool :=
  prev_is "!" (prev lb) && is_key c && negb (is_reset_key c)
  || hashed lb && is_marker c.

(** The reset and the style that a character adds. *)
Definition reset_at (prev : option ascii) (c : ascii) : list ResetMode :=
  if prev_is "!" prev then
    match dict_get _RESET_MODES_FOR_FORMAT_CHARS [c] with Some m => [m] | None => [] end
  else [].

Definition style_at (prev : option ascii) (c : ascii) : list StyleMode :=
  if prev_marker prev then []
  else match dict_get _STYLE_MODES_FOR_FORMAT_CHARS [c] with Some m => [m] | None => [] end.

Definition is_nil {A} (l : list A) : bool := match l with [] => true | _ => false end.

(** The local variables [l] at loop index [i] agree with the lookback. *)
Definition agrees (tc : str) (i : nat) (l : Locals.t) (lb : lookback) : Prop :=
  reset_marker l = prev_is "!" (prev lb)
  /\ bg_marker l = prev_is "#" (prev lb) || hashed lb
  /\ match n_256_start l with
     | Some start => start <= i /\ slice tc start i = cur lb /\ cur lb <> []
     | None => cur lb = []
     end
  /\ forallb is_digit (cur lb) = true
  /\ (hashed lb = true -> cur lb <> [])
  /\ (cur lb <> [] -> prev_marker (prev lb) = false).

Lemma agrees_init (tc : str) : agrees tc 0 Locals.init no_lookback.
Proof. repeat split; simpl; congruence. Qed.

Lemma int_of_digits_from_digits (s : str) :
  forallb is_digit s = true -> forall acc, exists v, int_of_digits_from acc s = Some v.
Proof.
  induction s as [| c s IH]; intros Hs acc; simpl in *.
  - eauto.
  - apply andb_prop in Hs as [Hc Hs]. unfold digit_value.
    unfold is_digit in Hc. rewrite Hc. apply IH. assumption.
Qed.

Lemma int_of_digits_digits (s : str) :
  forallb is_digit s = true -> s <> [] -> exists v, int_of_digits s = Some v.
Proof.
  intros Hs Hne. destruct s; [congruence |].
  unfold int_of_digits. apply int_of_digits_from_digits. assumption.
Qed.

Section Scan.

Variables (sv tc : str).

(** Assigning the pending literal when the locals agree with the lookback:
    it fails exactly when the literal is too large. *)
Lemma set_n_256_color_agrees (i k : nat) (l : Locals.t) (lb : lookback) :
  agrees tc (i + k) l lb ->
  match set_n_256_color sv tc i k l with
  | Ok l1 =>
      too_large (cur lb) = false
      /\ reset_marker l1 = prev_is "!" (prev lb)
      /\ bg_marker l1 = prev_is "#" (prev lb)
      /\ n_256_start l1 = None
      /\ Locals.resets l1 = Locals.resets l
      /\ Locals.styles l1 = Locals.styles l
  | Raise e => is_ValueError e = true /\ too_large (cur lb) = true
  end.
Proof.
  intros (Hr & Hb & Hn & Hd & Hh & Hc).
  unfold set_n_256_color.
  destruct (n_256_start l) as [start |] eqn:Hstart.
  - destruct Hn as (Hle & Hslice & Hne). rewrite Hslice.
    unfold _parse_256_color, too_large.
    destruct (int_of_digits_digits (cur lb) Hd Hne) as [v Hv]. rewrite Hv.
    destruct (255 <? v)%N; [split; reflexivity |].
    specialize (Hc Hne).
    assert (Hp : prev_is "#" (prev lb) = false).
    { destruct (prev lb) as [a |]; [| reflexivity]. simpl in *.
      apply is_marker_false in Hc. tauto. }
    destruct (bg_marker l); simpl; repeat split; auto.
  - assert (Hhf : hashed lb = false).
    { destruct (hashed lb); [exfalso; apply Hh; auto | reflexivity]. }
    rewrite Hhf, orb_false_r in Hb.
    unfold too_large. rewrite Hn. repeat split; auto.
Qed.

End Scan.

Lemma slice_snoc (p rest : str) (c : ascii) (start : nat) :
  start <= length p ->
  slice (p ++ c :: rest) start (S (length p))
  = slice (p ++ c :: rest) start (length p) ++ [c].
Proof.
  intros Hle. unfold slice.
  rewrite skipn_app. replace (start - length p) with 0 by lia. simpl skipn.
  assert (Hq : length (skipn start p) = length p - start) by apply length_skipn.
  replace (S (length p) - start) with (length (skipn start p) + 1) by lia.
  rewrite <- Hq.
  rewrite firstn_app_2. simpl. rewrite firstn_app, Nat.sub_diag, firstn_all. simpl.
  rewrite app_nil_r. reflexivity.
Qed.

Lemma slice_single (p rest : str) (c : ascii) :
  slice (p ++ c :: rest) (length p) (S (length p)) = [c].
Proof.
  rewrite slice_snoc by lia. unfold slice. rewrite Nat.sub_diag. reflexivity.
Qed.

Lemma prev_is_marker (c0 : ascii) (p : option ascii) :
  is_marker c0 = true -> prev_is c0 p = true -> prev_marker p = true.
Proof.
  destruct p as [a |]; simpl; [| discriminate].
  intros Hm Ha. apply Ascii.eqb_eq in Ha. congruence.
Qed.

Lemma prev_marker_cases (p : option ascii) :
  prev_marker p = prev_is "#" p || prev_is "!" p.
Proof. destruct p; reflexivity. Qed.

Lemma not_key_lookups (c : ascii) :
  is_key c = false ->
  dict_get _COLOR_MODES_FOR_FORMAT_CHARS [c] = None
  /\ dict_get _STYLE_MODES_FOR_FORMAT_CHARS [c] = None
  /\ dict_get _RESET_MODES_FOR_FORMAT_CHARS [c] = None.
Proof.
  rewrite key_alphabet. unfold is_color_key, is_style_key, is_reset_key.
  destruct (dict_get _COLOR_MODES_FOR_FORMAT_CHARS [c]),
    (dict_get _STYLE_MODES_FOR_FORMAT_CHARS [c]),
    (dict_get _RESET_MODES_FOR_FORMAT_CHARS [c]); simpl; intros; try discriminate; auto.
Qed.

Lemma violation_at_true (lb : lookback) (c : ascii) :
  negb (is_key c || is_digit c || is_marker c || is_separator c) = true
  \/ prev_marker (prev lb) && is_marker c = true
  \/ prev_marker (prev lb) && is_separator c = true
  \/ prev_is "!" (prev lb) && is_digit c = true
  \/ prev_is "#" (prev lb) && is_key c && negb (is_color_key c) = true
  \/ negb (is_digit c) && too_large (cur lb) = true ->
  violation_at lb c = true.
Proof. unfold violation_at. rewrite !orb_true_iff. tauto. Qed.

Lemma violation_at_false (lb : lookback) (c : ascii) :
  negb (is_key c || is_digit c || is_marker c || is_separator c) = false ->
  prev_marker (prev lb) && is_marker c = false ->
  prev_marker (prev lb) && is_separator c = false ->
  prev_is "!" (prev lb) && is_digit c = false ->
  prev_is "#" (prev lb) && is_key c && negb (is_color_key c) = false ->
  negb (is_digit c) && too_large (cur lb) = false ->
  violation_at lb c = false.
Proof. unfold violation_at. intros -> -> -> -> -> ->. reflexivity. Qed.

Ltac bools :=
  rewrite ?orb_true_r, ?orb_false_r, ?andb_true_r, ?andb_false_r; cbn [orb andb negb];
  try reflexivity.

Section Step.

Variables (sv tc : str).

Lemma loop_body_step (p rest : str) (c : ascii) (l : Locals.t) (lb : lookback) :
  tc = p ++ c :: rest ->
  agrees tc (length p) l lb ->
  match loop_body sv tc (length p) c l with
  | Ok l' =>
      agrees tc (S (length p)) l' (look_step lb c)
      /\ violation_at lb c = false
      /\ slip_at lb c = false
      /\ Locals.resets l'
         = fold_left (_append_if_not_in_list ResetMode_eq_dec) (reset_at (prev lb) c)
             (Locals.resets l)
      /\ Locals.styles l'
         = fold_left (_append_if_not_in_list StyleMode_eq_dec) (style_at (prev lb) c)
             (Locals.styles l)
  | Raise e =>
      (is_ValueError e = true /\ (violation_at lb c = true \/ slip_at lb c = true))
      \/ (e = TypeError /\ slip_at lb c = true)
  end.
Proof.
  intros Htc Hag.
  pose proof (set_n_256_color_agrees sv tc (length p) 0 l lb) as Hfin.
  rewrite Nat.add_0_r in Hfin. specialize (Hfin Hag).
  destruct Hag as (Hr & Hb & Hn & Hd & Hh & Hc).
  pose proof (prev_marker_cases (prev lb)) as Hpm.
  destruct (char_cases c)
    as [-> | [-> | [(Hs & Hm) | [(Hdg & Hs & Hm)
                                | [(Hk & Hdg & Hs & Hm) | (Hk & Hdg & Hs & Hm)]]]]].
  - (* '#' *)
    rewrite loop_body_hash, Hr, Hb.
    destruct (prev_is "!" (prev lb)) eqn:E1.
    { left. split; [reflexivity |]. left. apply violation_at_true.
      right. left. rewrite Hpm. bools. }
    destruct (prev_is "#" (prev lb)) eqn:E2.
    { left. split; [reflexivity |]. left. apply violation_at_true.
      right. left. rewrite Hpm. bools. }
    destruct (hashed lb) eqn:E3.
    { left. split; [reflexivity |]. right. unfold slip_at. rewrite E3.
      apply orb_true_r. }
    simpl orb. cbv iota.
    destruct (set_n_256_color sv tc (length p) 0 l) as [l1 | e].
    + destruct Hfin as (Hlarge & Hr1 & Hb1 & Hn1 & Hrs & Hss). simpl.
      split; [| split; [| split; [| split]]].
      * repeat split; simpl; rewrite ?Hn1; auto; congruence.
      * apply violation_at_false; rewrite ?Hpm, ?Hlarge; bools.
      * unfold slip_at. rewrite ?E3. bools.
      * unfold reset_at. rewrite ?E1. assumption.
      * unfold style_at. rewrite Hpm. simpl. assumption.
    + destruct Hfin as (He & Hlarge). simpl. left. split; [assumption |].
      left. apply violation_at_true. do 5 right. rewrite Hlarge. reflexivity.
  - (* '!' *)
    rewrite loop_body_bang, Hr, Hb.
    destruct (prev_is "!" (prev lb)) eqn:E1.
    { left. split; [reflexivity |]. left. apply violation_at_true.
      right. left. rewrite Hpm. bools. }
    destruct (prev_is "#" (prev lb)) eqn:E2.
    { left. split; [reflexivity |]. left. apply violation_at_true.
      right. left. rewrite Hpm. bools. }
    destruct (hashed lb) eqn:E3.
    { left. split; [reflexivity |]. right. unfold slip_at. rewrite E3.
      apply orb_true_r. }
    simpl orb. cbv iota.
    destruct (set_n_256_color sv tc (length p) 0 l) as [l1 | e].
    + destruct Hfin as (Hlarge & Hr1 & Hb1 & Hn1 & Hrs & Hss). simpl.
      split; [| split; [| split; [| split]]].
      * repeat split; simpl; rewrite ?Hn1; auto; congruence.
      * apply violation_at_false; rewrite ?Hpm, ?Hlarge; bools.
      * unfold slip_at. rewrite ?E3. bools.
      * unfold reset_at. rewrite ?E1. assumption.
      * unfold style_at. rewrite Hpm. simpl. assumption.
    + destruct Hfin as (He & Hlarge). simpl. left. split; [assumption |].
      left. apply violation_at_true. do 5 right. rewrite Hlarge. reflexivity.
  - (* separator *)
    destruct Hm as (Hm & Hdg & Hk).
    rewrite loop_body_separator, Hr by assumption.
    destruct (not_key_lookups c Hk) as (_ & Hstyle & _).
    destruct (is_marker_false c Hm) as [Hc1 Hc2].
    destruct (prev_is "!" (prev lb)) eqn:E1.
    { left. split; [reflexivity |]. left. apply violation_at_true.
      right. right. left. rewrite Hpm, Hs. bools. }
    destruct (set_n_256_color sv tc (length p) 0 l) as [l1 | e].
    + destruct Hfin as (Hlarge & Hr1 & Hb1 & Hn1 & Hrs & Hss). simpl. rewrite Hb1.
      destruct (prev_is "#" (prev lb)) eqn:E2.
      { left. split; [reflexivity |]. left. apply violation_at_true.
        right. right. left. rewrite Hpm, Hs. bools. }
      split; [| split; [| split; [| split]]].
      * unfold agrees, look_step. rewrite Hdg. simpl. rewrite Hn1, Hc1, Hc2.
        repeat split; auto; congruence.
      * apply violation_at_false; rewrite ?Hpm, ?Hlarge, ?Hs, ?Hm, ?Hdg, ?Hk; bools.
      * unfold slip_at. rewrite ?Hm, ?Hk. bools.
      * unfold reset_at. rewrite ?E1. assumption.
      * unfold style_at. rewrite Hpm, Hstyle. simpl. assumption.
    + destruct Hfin as (He & Hlarge). simpl. left. split; [assumption |].
      left. apply violation_at_true. do 5 right. rewrite Hlarge, Hdg. reflexivity.
  - (* digit *)
    destruct Hm as (Hm & Hk).
    rewrite loop_body_digit, Hr by assumption.
    destruct (not_key_lookups c Hk) as (_ & Hstyle & _).
    destruct (is_marker_false c Hm) as [Hc1 Hc2].
    destruct (prev_is "!" (prev lb)) eqn:E1.
    { left. split; [reflexivity |]. left. apply violation_at_true.
      do 3 right. left. rewrite E1, Hdg. reflexivity. }
    assert (Hlists : forall l', Locals.resets l' = Locals.resets l ->
                                Locals.styles l' = Locals.styles l ->
              violation_at lb c = false /\ slip_at lb c = false
              /\ Locals.resets l'
                 = fold_left (_append_if_not_in_list ResetMode_eq_dec) (reset_at (prev lb) c)
                     (Locals.resets l)
              /\ Locals.styles l'
                 = fold_left (_append_if_not_in_list StyleMode_eq_dec) (style_at (prev lb) c)
                     (Locals.styles l)).
    { intros l' Hrs Hss. split; [| split; [| split]].
      - apply violation_at_false; rewrite ?E1, ?Hs, ?Hm, ?Hdg, ?Hk; bools.
      - unfold slip_at. rewrite ?E1, ?Hm, ?Hk. bools.
      - unfold reset_at. rewrite ?E1. assumption.
      - unfold style_at. rewrite Hstyle. destruct (prev_marker (prev lb)); assumption. }
    destruct (n_256_start l) as [start |] eqn:Hstart.
    + destruct Hn as (Hle & Hslice & Hne).
      split; [| apply Hlists; reflexivity].
      specialize (Hc Hne). rewrite Hpm in Hc. apply orb_false_elim in Hc as [Hp1 Hp2].
      rewrite Hp1 in Hb. simpl in Hb.
      unfold agrees, look_step. rewrite Hdg. simpl. rewrite Hstart, Hc1, Hc2, Hr, Hb.
      repeat split; auto.
      * destruct (cur lb); [congruence | reflexivity].
      * rewrite Htc, slice_snoc by assumption. rewrite <- Htc, Hslice. reflexivity.
      * destruct (cur lb); discriminate.
      * rewrite forallb_app, Hd. simpl. rewrite Hdg. reflexivity.
      * intros _. destruct (cur lb); discriminate.
    + split; [| apply Hlists; reflexivity].
      assert (Hhf : hashed lb = false).
      { destruct (hashed lb); [exfalso; apply Hh; auto | reflexivity]. }
      rewrite Hhf, orb_false_r in Hb.
      unfold agrees, look_step. rewrite Hdg, Hn. simpl. rewrite Hc1, Hc2, Hr, Hb, Hdg.
      split; [reflexivity |].
      split; [reflexivity |].
      split; [split; [lia | split; [rewrite Htc; apply slice_single | discriminate]] |].
      split; [reflexivity |].
      split; [discriminate | intros _; exact Hm].
  - (* key *)
    rewrite loop_body_key by assumption.
    destruct (is_marker_false c Hm) as [Hc1 Hc2].
    destruct (set_n_256_color sv tc (length p) 0 l) as [l1 | e]; cbn [bind].
    2: { destruct Hfin as (He & Hlarge). left. split; [assumption |].
         left. apply violation_at_true. do 5 right. rewrite Hlarge, Hdg. reflexivity. }
    destruct Hfin as (Hlarge & Hr1 & Hb1 & Hn1 & Hrs & Hss).
    assert (Hag' : forall l', reset_marker l' = false -> bg_marker l' = false ->
                              n_256_start l' = None ->
                              agrees tc (S (length p)) l' (look_step lb c)).
    { intros l' H1 H2 H3. unfold agrees, look_step. rewrite Hdg. cbn [prev cur hashed prev_is prev_marker is_marker forallb orb].
      rewrite H1, H2, H3, Hc1, Hc2. repeat split; auto; congruence. }
    unfold key_action. rewrite Hb1, Hr1.
    destruct (prev_is "#" (prev lb)) eqn:E2.
    { assert (E1 : prev_is "!" (prev lb) = false).
      { destruct (prev lb) as [x |]; [| reflexivity]. unfold prev_is in *.
        apply Ascii.eqb_eq in E2. subst x. reflexivity. }
      destruct (dict_get _COLOR_MODES_FOR_FORMAT_CHARS [c]) as [m |] eqn:Hcol.
      - split; [apply Hag'; cbn [reset_marker bg_marker n_256_start set_bg_marker set_bg_color set_reset_marker set_resets set_fg_color set_styles set_resets_of_styles]; congruence |].
        split; [| split; [| split]].
        + apply violation_at_false; unfold is_color_key;
            rewrite ?E1, ?E2, ?Hcol, ?Hs, ?Hm, ?Hdg, ?Hk, ?Hlarge; bools.
        + unfold slip_at. rewrite ?E1, ?Hm. bools.
        + unfold reset_at. rewrite E1. cbn [fold_left]. assumption.
        + unfold style_at. rewrite Hpm. cbn [orb fold_left]. assumption.
      - left. split; [reflexivity |]. left. apply violation_at_true.
        do 4 right. left. unfold is_color_key. rewrite E2, Hk, Hcol. reflexivity. }
    destruct (prev_is "!" (prev lb)) eqn:E1.
    { destruct (dict_get _RESET_MODES_FOR_FORMAT_CHARS [c]) as [m |] eqn:Hres.
      - split; [apply Hag'; cbn [reset_marker bg_marker n_256_start set_bg_marker set_bg_color set_reset_marker set_resets set_fg_color set_styles set_resets_of_styles]; congruence |].
        split; [| split; [| split]].
        + apply violation_at_false;
            rewrite ?E1, ?E2, ?Hs, ?Hm, ?Hdg, ?Hk, ?Hlarge; bools.
        + unfold slip_at, is_reset_key. rewrite ?E1, ?Hm, ?Hres. bools.
        + unfold reset_at. rewrite E1, Hres. cbn [fold_left]. cbn [Locals.resets set_reset_marker set_resets]. rewrite Hrs. reflexivity.
        + unfold style_at. rewrite Hpm. cbn [orb fold_left]. assumption.
      - right. split; [reflexivity |]. unfold slip_at, is_reset_key.
        rewrite E1, Hk, Hres. reflexivity. }
    assert (Hcommon : violation_at lb c = false /\ slip_at lb c = false
                      /\ reset_at (prev lb) c = []).
    { split; [| split].
      - apply violation_at_false; rewrite ?E1, ?E2, ?Hs, ?Hm, ?Hdg, ?Hk, ?Hlarge; bools.
      - unfold slip_at. rewrite ?E1, ?Hm. bools.
      - unfold reset_at. rewrite E1. reflexivity. }
    destruct Hcommon as (Hv & Hsl & Hra). rewrite Hra.
    unfold style_at. rewrite Hpm. cbn [orb].
    destruct (dict_get _STYLE_MODES_FOR_FORMAT_CHARS [c]) as [style |] eqn:Hsty.
    + split; [apply Hag'; cbn [reset_marker bg_marker n_256_start set_bg_marker set_bg_color set_reset_marker set_resets set_fg_color set_styles set_resets_of_styles]; congruence |].
      repeat split; auto. cbn [fold_left Locals.styles set_resets_of_styles set_styles]. rewrite Hss. reflexivity.
    + split; [apply Hag'; cbn [reset_marker bg_marker n_256_start set_bg_marker set_bg_color set_reset_marker set_resets set_fg_color set_styles set_resets_of_styles]; congruence |].
      repeat split; auto.
  - (* any other character *)
    rewrite loop_body_other by assumption.
    left. split; [reflexivity |]. left. apply violation_at_true.
    left. rewrite Hk, Hdg, Hs, Hm. reflexivity.
Qed.

End Step.

(** Malformed at some character of [s]; a slip at some character of [s]. *)
Fixpoint violation_in (lb : lookback) (s : str) : bool :=
  match s with
  | [] => false
  | c :: s' => violation_at lb c || violation_in (look_step lb c) s'
  end.

Fixpoint slip_in (lb : lookback) (s : str) : bool :=
  match s with
  | [] => false
  | c :: s' => slip_at lb c || slip_in (look_step lb c) s'
  end.

(** Malformed at the end of the content: a marker without key, or an open
    literal that is too large. *)
Definition final_violation (lb : lookback) : bool :=
  prev_marker (prev lb) || too_large (cur lb).

(** The resets and styles that the characters of [s] add, in order. *)
Fixpoint applied_resets (prev : option ascii) (s : str) : list ResetMode :=
  match s with
  | [] => []
  | c :: s' => reset_at prev c ++ applied_resets (Some c) s'
  end.

Fixpoint applied_styles (prev : option ascii) (s : str) : list StyleMode :=
  match s with
  | [] => []
  | c :: s' => style_at prev c ++ applied_styles (Some c) s'
  end.

Section ScanLoop.

Variables (sv tc : str).

Lemma loop_spec (rest : str) :
  forall p l lb,
    tc = p ++ rest ->
    agrees tc (length p) l lb ->
    slip_in lb rest = false ->
    match loop sv tc (length p) rest l with
    | Ok l' => agrees tc (length tc) l' (look lb rest) /\ violation_in lb rest = false
    | Raise e => is_ValueError e = true /\ violation_in lb rest = true
    end.
Proof.
  induction rest as [| c rest IH]; intros p l lb Htc Hag Hslip.
  - rewrite app_nil_r in Htc. subst p. simpl. split; [exact Hag | reflexivity].
  - cbn [loop violation_in slip_in look fold_left] in *.
    apply orb_false_elim in Hslip as [Hs1 Hs2].
    pose proof (loop_body_step sv tc p rest c l lb Htc Hag) as Hstep.
    destruct (loop_body sv tc (length p) c l) as [l1 | e]; cbn [bind].
    + destruct Hstep as (Hag1 & Hv & _).
      rewrite Hv. cbn [orb].
      assert (Hlen : S (length p) = length (p ++ [c])) by (rewrite length_app; simpl; lia).
      rewrite Hlen in *. apply IH; auto.
      rewrite <- app_assoc. exact Htc.
    + destruct Hstep as [(He & [Hv | Hs]) | (_ & Hs)]; try congruence.
      split; [assumption |]. rewrite Hv. reflexivity.
Qed.

Lemma loop_lists (rest : str) :
  forall p l lb l',
    tc = p ++ rest ->
    agrees tc (length p) l lb ->
    loop sv tc (length p) rest l = Ok l' ->
    Locals.resets l'
    = fold_left (_append_if_not_in_list ResetMode_eq_dec) (applied_resets (prev lb) rest)
        (Locals.resets l)
    /\ Locals.styles l'
       = fold_left (_append_if_not_in_list StyleMode_eq_dec) (applied_styles (prev lb) rest)
           (Locals.styles l)
    /\ agrees tc (length tc) l' (look lb rest).
Proof.
  induction rest as [| c rest IH]; intros p l lb l' Htc Hag Hloop.
  - rewrite app_nil_r in Htc. subst p. simpl in *. injection Hloop as <-.
    repeat split; auto; apply Hag.
  - cbn [loop applied_resets applied_styles look fold_left] in *.
    pose proof (loop_body_step sv tc p rest c l lb Htc Hag) as Hstep.
    destruct (loop_body sv tc (length p) c l) as [l1 | e]; cbn [bind] in Hloop;
      [| discriminate].
    destruct Hstep as (Hag1 & _ & _ & Hrs & Hss).
    assert (Hlen : S (length p) = length (p ++ [c])) by (rewrite length_app; simpl; lia).
    rewrite Hlen in *.
    destruct (IH (p ++ [c]) l1 (look_step lb c) l') as (H1 & H2 & H3); auto.
    { rewrite <- app_assoc. exact Htc. }
    rewrite !fold_left_app, <- Hrs, <- Hss. auto.
Qed.

End ScanLoop.

Lemma char_in_markers (c : ascii) : char_in c (py "!#") = is_marker c.
Proof.
  unfold char_in, is_marker. simpl.
  destruct (Ascii.eqb c "!"), (Ascii.eqb c "#"); reflexivity.
Qed.

Lemma nth_last_char (s : str) (d : ascii) : nth (length s - 1) s d = last s d.
Proof.
  destruct s as [| c s]; [reflexivity |].
  assert (Hne : c :: s <> []) by discriminate.
  destruct (exists_last Hne) as (s' & x & ->).
  rewrite last_last, length_app. simpl. replace (length s' + 1 - 1) with (length s') by lia.
  rewrite app_nth2, Nat.sub_diag by lia. reflexivity.
Qed.

Lemma look_prev (s : str) :
  forall lb, prev (look lb s) = match s with [] => prev lb | _ => Some (last s " ") end.
Proof.
  induction s as [| c s IH]; intros lb; [reflexivity |].
  change (look lb (c :: s)) with (look (look_step lb c) s). rewrite IH.
  destruct s; reflexivity.
Qed.

Lemma look_prev_nonempty (s : str) (lb : lookback) :
  s <> [] -> prev (look lb s) = Some (last s " ").
Proof. intros H. rewrite look_prev. destruct s; [congruence | reflexivity]. Qed.

(** The tag text does not start with the opener and end with the closer. *)
Definition bad_brackets (sv : str) (ob cb : ascii) : bool :=
  negb (match sv with c :: _ => Ascii.eqb c ob | [] => false end
        && match rev sv with c :: _ => Ascii.eqb c cb | [] => false end).

(** The content of a tag is malformed at one of its characters or at its
    end. *)
Definition violates (content : str) : bool :=
  violation_in no_lookback content || final_violation (look no_lookback content).

Lemma calc_mode_attrs_bad_brackets (sv : str) (ob cb : ascii) :
  bad_brackets sv ob cb = true ->
  exists msg, _calc_mode_attrs sv (ob, cb) = Raise (ValueError msg).
Proof.
  unfold bad_brackets, _calc_mode_attrs. intros ->. eauto.
Qed.

Lemma calc_mode_attrs_spec (sv : str) (ob cb : ascii) :
  bad_brackets sv ob cb = false ->
  slip_in no_lookback (removelast (tl sv)) = false ->
  match _calc_mode_attrs sv (ob, cb) with
  | Ok l => violates (removelast (tl sv)) = false
  | Raise e => is_ValueError e = true /\ violates (removelast (tl sv)) = true
  end.
Proof.
  intros Hb Hslip. unfold bad_brackets in Hb. unfold _calc_mode_attrs. rewrite Hb.
  remember (removelast (tl sv)) as tc eqn:Etc. clear Etc.
  destruct tc as [| c0 tc0] eqn:Htc; [reflexivity |].
  rewrite <- Htc in *. assert (Hne : tc <> []) by (rewrite Htc; discriminate).
  replace (Nat.ltb 0 (length tc)) with true by (rewrite Htc; reflexivity).
  pose proof (loop_spec sv tc tc [] Locals.init no_lookback eq_refl (agrees_init tc) Hslip)
    as Hloop.
  simpl length in Hloop. unfold violates.
  destruct (loop sv tc 0 tc Locals.init) as [l | e]; cbn [bind].
  2: { destruct Hloop as [He Hv]. rewrite Hv. auto. }
  destruct Hloop as [Hag Hv]. rewrite Hv. cbn [orb]. unfold final_violation.
  rewrite nth_last_char, char_in_markers.
  rewrite (look_prev_nonempty tc _ Hne). cbn [prev_marker].
  destruct (is_marker (last tc " ")); [split; reflexivity |]. cbn [orb].
  pose proof (set_n_256_color_agrees sv tc (length tc - 1) 1 l (look no_lookback tc)) as Hfin.
  replace (length tc - 1 + 1) with (length tc) in Hfin
    by (rewrite Htc; simpl; lia).
  specialize (Hfin Hag).
  destruct (n_256_start l) as [start |] eqn:Hstart.
  - destruct (set_n_256_color sv tc (length tc - 1) 1 l); tauto.
  - destruct Hag as (_ & _ & Hn & _). rewrite Hstart in Hn. rewrite Hn. reflexivity.
Qed.

(** ** The conditions of a malformed tag, on the content of the tag *)

(** Two neighbouring characters [a], [b] of [s] with [P a b]; [prev] is the
    character before [s]. *)
Fixpoint adjacent (P : ascii -> ascii -> bool) (prev : option ascii) (s : str) : bool :=
  match s with
  | [] => false
  | c :: s' =>
      match prev with Some a => P a c | None => false end || adjacent P (Some c) s'
  end.

(** The last character of [s], or [prev] when [s] is empty. *)
Fixpoint last_char_from (prev : option ascii) (s : str) : option ascii :=
  match s with
  | [] => prev
  | c :: s' => last_char_from (Some c) s'
  end.

(** The maximal runs of digits of [s], the first one continuing [run]. *)
Fixpoint digit_runs_from (run s : str) : list str :=
  match s with
  | [] => if is_nil run then [] else [run]
  | c :: s' =>
      if is_digit c then digit_runs_from (run ++ [c]) s'
      else (if is_nil run then [] else [run]) ++ digit_runs_from [] s'
  end.

Definition unknown_char (content : str) : bool :=
  existsb (fun c => negb (is_key c || is_digit c || is_marker c || is_separator c)) content.

Definition markers_adjacent (content : str) : bool :=
  adjacent (fun a b => is_marker a && is_marker b) None content.

Definition marker_without_key (content : str) : bool :=
  adjacent (fun a b => is_marker a && is_separator b) None content
  || prev_marker (last_char_from None content).

Definition digit_after_reset (content : str) : bool :=
  adjacent (fun a b => Ascii.eqb a "!" && is_digit b) None content.

Definition literal_too_large (content : str) : bool :=
  existsb too_large (digit_runs_from [] content).

(** A key after [#] that is not the key of a color. *)
Definition color_key_expected (content : str) : bool :=
  adjacent (fun a b => Ascii.eqb a "#" && is_key b && negb (is_color_key b)) None content.

(** A key after [!] that is not the key of a reset. *)
Definition reset_key_expected (content : str) : bool :=
  adjacent (fun a b => Ascii.eqb a "!" && is_key b && negb (is_reset_key b)) None content.

(** A marker directly after a literal that directly follows [#]. *)
Definition bg_literal_before_marker (content : str) : Prop :=
  exists p ds m r,
    content = p ++ "#" :: ds ++ m :: r
    /\ ds <> [] /\ forallb is_digit ds = true /\ is_marker m = true.

Lemma too_large_nil : too_large [] = false.
Proof. reflexivity. Qed.

Lemma existsb_run (run : str) :
  existsb too_large (if is_nil run then [] else [run]) = too_large run.
Proof. destruct run; [reflexivity | simpl; apply orb_false_r]. Qed.

Lemma violates_from (s : str) :
  forall lb,
    violation_in lb s || final_violation (look lb s)
    = unknown_char s
      || adjacent (fun a b => is_marker a && is_marker b) (prev lb) s
      || (adjacent (fun a b => is_marker a && is_separator b) (prev lb) s
          || prev_marker (last_char_from (prev lb) s))
      || adjacent (fun a b => Ascii.eqb a "!" && is_digit b) (prev lb) s
      || existsb too_large (digit_runs_from (cur lb) s)
      || adjacent (fun a b => Ascii.eqb a "#" && is_key b && negb (is_color_key b))
           (prev lb) s.
Proof.
  induction s as [| c s IH]; intros lb.
  - cbn [violation_in look fold_left unknown_char existsb adjacent last_char_from
         digit_runs_from].
    rewrite existsb_run. unfold final_violation. btauto.
  - cbn [violation_in look fold_left unknown_char existsb adjacent last_char_from
         digit_runs_from].
    fold (look (look_step lb c) s). rewrite <- orb_assoc, IH.
    unfold violation_at, unknown_char. cbn [prev cur look_step].
    assert (H1 : forall P : ascii -> bool,
               match prev lb with Some a => is_marker a && P c | None => false end
               = prev_marker (prev lb) && P c)
      by (intros P; destruct (prev lb); reflexivity).
    assert (H2 : forall (c0 : ascii) (b : bool),
               match prev lb with Some a => Ascii.eqb a c0 && b | None => false end
               = prev_is c0 (prev lb) && b)
      by (intros c0 b; destruct (prev lb); reflexivity).
    rewrite (H1 is_marker), (H1 is_separator), (H2 "!" (is_digit c)).
    assert (H3 : match prev lb with
                 | Some a => Ascii.eqb a "#" && is_key c && negb (is_color_key c)
                 | None => false
                 end = prev_is "#" (prev lb) && is_key c && negb (is_color_key c))
      by (destruct (prev lb); reflexivity).
    rewrite H3.
    destruct (is_digit c); cbn [negb andb].
    + btauto.
    + rewrite existsb_app, existsb_run. btauto.
Qed.

Lemma violates_conditions (content : str) :
  violates content
  = unknown_char content || markers_adjacent content || marker_without_key content
    || digit_after_reset content || literal_too_large content
    || color_key_expected content.
Proof. unfold violates. rewrite violates_from. reflexivity. Qed.

(** A marker that comes while the background flag of a literal is set. *)
Fixpoint hashed_marker_in (lb : lookback) (s : str) : bool :=
  match s with
  | [] => false
  | c :: s' => hashed lb && is_marker c || hashed_marker_in (look_step lb c) s'
  end.

Lemma slip_in_split (s : str) :
  forall lb,
    slip_in lb s
    = adjacent (fun a b => Ascii.eqb a "!" && is_key b && negb (is_reset_key b)) (prev lb) s
      || hashed_marker_in lb s.
Proof.
  induction s as [| c s IH]; intros lb; [reflexivity |].
  cbn [slip_in adjacent hashed_marker_in]. rewrite IH. unfold slip_at.
  cbn [prev look_step].
  assert (H : match prev lb with
              | Some a => Ascii.eqb a "!" && is_key c && negb (is_reset_key c)
              | None => false
              end = prev_is "!" (prev lb) && is_key c && negb (is_reset_key c))
    by (destruct (prev lb); reflexivity).
  rewrite H. btauto.
Qed.

Lemma hashed_marker_in_literal (s : str) :
  forall pre lb,
    (hashed lb = true ->
     exists q ds, pre = q ++ "#" :: ds /\ ds <> [] /\ forallb is_digit ds = true) ->
    (prev_is "#" (prev lb) = true -> exists q, pre = q ++ ["#"]) ->
    hashed_marker_in lb s = true ->
    bg_literal_before_marker (pre ++ s).
Proof.
  induction s as [| c s IH]; intros pre lb Hh Hp H; [discriminate |].
  cbn [hashed_marker_in] in H. apply orb_prop in H as [H | H].
  - apply andb_prop in H as [H1 H2].
    destruct (Hh H1) as (q & ds & -> & Hne & Hds).
    exists q, ds, c, s. rewrite <- app_assoc. auto.
  - replace (pre ++ c :: s) with ((pre ++ [c]) ++ s) by (rewrite <- app_assoc; reflexivity).
    apply (IH (pre ++ [c]) (look_step lb c)); [| | exact H].
    + cbn [hashed look_step]. destruct (is_digit c) eqn:Hc; [| discriminate].
      destruct (cur lb) as [| x xs].
      * intros Hprev. destruct (Hp Hprev) as (q & ->).
        exists q, [c].
        split; [rewrite <- app_assoc; reflexivity |].
        split; [discriminate | simpl; rewrite Hc; reflexivity].
      * intros Hhashed. destruct (Hh Hhashed) as (q & ds & -> & Hne & Hds).
        exists q, (ds ++ [c]).
        split; [rewrite <- app_assoc; reflexivity |].
        split; [destruct ds; discriminate |].
        rewrite forallb_app, Hds. simpl. rewrite Hc. reflexivity.
    + cbn [prev look_step prev_is]. intros Hc. apply Ascii.eqb_eq in Hc. subst c.
      exists pre. reflexivity.
Qed.

Lemma hashed_marker_in_app (p s : str) :
  forall lb,
    hashed_marker_in lb (p ++ s)
    = hashed_marker_in lb p || hashed_marker_in (look lb p) s.
Proof.
  induction p as [| c p IH]; intros lb; [reflexivity |].
  cbn [app hashed_marker_in look fold_left]. fold (look (look_step lb c) p).
  rewrite IH, orb_assoc. reflexivity.
Qed.

Lemma hashed_marker_in_digits (ds : str) (m : ascii) (r : str) :
  forallb is_digit ds = true ->
  is_marker m = true ->
  forall lb,
    (hashed lb = true /\ cur lb <> [])
    \/ (cur lb = [] /\ prev_is "#" (prev lb) = true /\ ds <> []) ->
    hashed_marker_in lb (ds ++ m :: r) = true.
Proof.
  intros Hds Hm. induction ds as [| d ds IH]; intros lb H.
  - destruct H as [[Hh _] | (_ & _ & Hne)]; [| congruence].
    cbn [app hashed_marker_in]. rewrite Hh, Hm. reflexivity.
  - cbn [forallb] in Hds. apply andb_prop in Hds as [Hd Hds].
    cbn [app hashed_marker_in]. rewrite (IH Hds); [apply orb_true_r |].
    left. cbn [hashed cur look_step]. rewrite Hd.
    destruct H as [[Hh Hc] | (Hc & Hp & _)].
    + destruct (cur lb); [congruence |]. split; [assumption | discriminate].
    + rewrite Hc. split; [assumption | discriminate].
Qed.

(** A marker directly after a literal that directly follows [#], as a test. *)
Definition marker_after_bg_literal (content : str) : bool :=
  hashed_marker_in no_lookback content.

Lemma marker_after_bg_literal_spec (content : str) :
  marker_after_bg_literal content = true <-> bg_literal_before_marker content.
Proof.
  unfold marker_after_bg_literal. split.
  - intros H. apply (hashed_marker_in_literal content [] no_lookback);
      [discriminate | discriminate | exact H].
  - intros (p & ds & m & r & -> & Hne & Hds & Hm).
    rewrite hashed_marker_in_app. apply orb_true_iff. right.
    cbn [hashed_marker_in]. apply orb_true_iff. right.
    apply hashed_marker_in_digits; auto.
Qed.

Lemma no_slip (content : str) :
  reset_key_expected content = false ->
  marker_after_bg_literal content = false ->
  slip_in no_lookback content = false.
Proof.
  intros Hr Hm. rewrite slip_in_split. unfold reset_key_expected in Hr.
  cbn [prev no_lookback]. rewrite Hr. exact Hm.
Qed.

(** ** C2: malformed tags *)

(** C2 (as stated, refuted): the tag ["<#f>"] raises the malformed-tag error
    although none of the listed conditions holds: [f] belongs to the key
    alphabet (it is the key of a style), but after [#] only the key of a
    color is accepted. *)
Lemma non_color_key_counterexample :
  FormatTag_init (Some (py "<#f>")) (Some ("<", ">"))
  = Raise (_invalid_key_error (py "<#f>") (py "#f"))
  /\ bad_brackets (py "<#f>") "<" ">" = false
  /\ unknown_char (py "#f") = false
  /\ markers_adjacent (py "#f") = false
  /\ marker_without_key (py "#f") = false
  /\ digit_after_reset (py "#f") = false
  /\ literal_too_large (py "#f") = false.
Proof. repeat split; vm_compute; reflexivity. Qed.

(** C2 (amended): for a tag in which no key after [!] fails to be a reset key
    and no marker follows a literal in background position, parsing raises
    only the malformed-tag error, and it raises exactly when the text does
    not start and end with the brackets, or its content has a character
    outside keys, digits, markers and separators, or two adjacent markers, or
    a marker followed by a separator or standing at the end, or a digit after
    [!], or a literal above 255, or a key after [#] that is not the key of a
    color. The tag ["<##>"] fails with the error for the adjacent markers
    [##]. *)
Theorem malformed_tag_iff :
  (forall (sv : str) (ob cb : ascii),
      reset_key_expected (removelast (tl sv)) = false ->
      marker_after_bg_literal (removelast (tl sv)) = false ->
      (forall e, FormatTag_init (Some sv) (Some (ob, cb)) = Raise e -> is_ValueError e = true)
      /\ ((exists e, FormatTag_init (Some sv) (Some (ob, cb)) = Raise e) <->
          bad_brackets sv ob cb = true
          \/ unknown_char (removelast (tl sv)) = true
          \/ markers_adjacent (removelast (tl sv)) = true
          \/ marker_without_key (removelast (tl sv)) = true
          \/ digit_after_reset (removelast (tl sv)) = true
          \/ literal_too_large (removelast (tl sv)) = true
          \/ color_key_expected (removelast (tl sv)) = true))
  /\ FormatTag_init (Some (py "<##>")) (Some ("<", ">"))
     = Raise (_invalid_key_error (py "<##>") (py "##")).
Proof.
  split; [| vm_compute; reflexivity].
  intros sv ob cb Hreset Hmarker.
  pose proof (no_slip _ Hreset Hmarker) as Hslip.
  assert (Hinit : forall e, FormatTag_init (Some sv) (Some (ob, cb)) = Raise e <->
                            _calc_mode_attrs sv (ob, cb) = Raise e).
  { intros e. unfold FormatTag_init.
    destruct (_calc_mode_attrs sv (ob, cb)); simpl; split; congruence. }
  assert (Hconds : violates (removelast (tl sv)) = true <->
                   unknown_char (removelast (tl sv)) = true
                   \/ markers_adjacent (removelast (tl sv)) = true
                   \/ marker_without_key (removelast (tl sv)) = true
                   \/ digit_after_reset (removelast (tl sv)) = true
                   \/ literal_too_large (removelast (tl sv)) = true
                   \/ color_key_expected (removelast (tl sv)) = true).
  { rewrite violates_conditions, !orb_true_iff. tauto. }
  destruct (bad_brackets sv ob cb) eqn:Hbad.
  - destruct (calc_mode_attrs_bad_brackets sv ob cb Hbad) as [msg Hmsg]. split.
    + intros e He. apply Hinit in He. rewrite Hmsg in He. injection He as <-. reflexivity.
    + split; [auto |]. intros _. exists (ValueError msg). apply Hinit. exact Hmsg.
  - pose proof (calc_mode_attrs_spec sv ob cb Hbad Hslip) as Hspec. split.
    + intros e He. apply Hinit in He. rewrite He in Hspec. tauto.
    + split.
      * intros [e He]. apply Hinit in He. rewrite He in Hspec. right. tauto.
      * intros [H | H]; [discriminate |]. apply Hconds in H.
        destruct (_calc_mode_attrs sv (ob, cb)) as [l | e] eqn:Hcalc; [congruence |].
        exists e. apply Hinit. reflexivity.
Qed.

Lemma malformed_tag_iff_witness :
  exists e, FormatTag_init (Some (py "<r,!>")) (Some ("<", ">")) = Raise e.
Proof.
  apply (proj2 (proj2 (proj1 malformed_tag_iff (py "<r,!>") "<" ">" eq_refl eq_refl))).
  do 3 right. left. reflexivity.
Defined.

(** ** C3: the full escape sequence *)

Section FirstOccurrences.

Context {A : Type} (eq_dec : forall a b : A, {a = b} + {a <> b}).

Definition differs (x y : A) : bool := if eq_dec y x then false else true.

Definition not_in (acc : list A) (y : A) : bool :=
  if in_dec eq_dec y acc then false else true.

(** The elements of a list in the order of their first occurrences, each
    once. *)
Fixpoint first_occurrences (l : list A) : list A :=
  match l with
  | [] => []
  | x :: l' => x :: filter (differs x) (first_occurrences l')
  end.

Lemma filter_not_in_member (acc ys : list A) (a : A) :
  In a acc -> filter (not_in acc) (filter (differs a) ys) = filter (not_in acc) ys.
Proof.
  intros Ha. induction ys as [| y ys IH]; [reflexivity |]. simpl.
  unfold differs at 1. destruct (eq_dec y a) as [-> | Hya]; simpl.
  - unfold not_in at 2. destruct (in_dec eq_dec a acc); [exact IH | contradiction].
  - rewrite IH. reflexivity.
Qed.

Lemma not_in_snoc (acc : list A) (a y : A) :
  not_in (acc ++ [a]) y = differs a y && not_in acc y.
Proof.
  unfold not_in, differs.
  destruct (in_dec eq_dec y (acc ++ [a])) as [Hin | Hn], (eq_dec y a) as [Heq | Hya],
    (in_dec eq_dec y acc) as [Hi | Hi]; try reflexivity; exfalso;
    try (apply Hn, in_or_app; solve [left; assumption | right; left; congruence]).
  apply in_app_or in Hin as [H | [H | []]]; [contradiction | congruence].
Qed.

Lemma filter_not_in_snoc (acc ys : list A) (a : A) :
  filter (not_in (acc ++ [a])) ys = filter (not_in acc) (filter (differs a) ys).
Proof.
  induction ys as [| y ys IH]; [reflexivity |]. simpl.
  rewrite not_in_snoc. destruct (differs a y); simpl; [| exact IH].
  destruct (not_in acc y); rewrite IH; reflexivity.
Qed.

(** Appending each element that is not yet in the list keeps the first
    occurrences, in order. *)
Lemma fold_append_if_not_in (l : list A) :
  forall acc,
    fold_left (_append_if_not_in_list eq_dec) l acc
    = acc ++ filter (not_in acc) (first_occurrences l).
Proof.
  induction l as [| a l IH]; intros acc; simpl.
  - rewrite app_nil_r. reflexivity.
  - unfold _append_if_not_in_list at 2. unfold not_in at 1.
    destruct (in_dec eq_dec a acc) as [Hin | Hn]; rewrite IH.
    + rewrite filter_not_in_member by assumption. reflexivity.
    + rewrite <- app_assoc, filter_not_in_snoc. reflexivity.
Qed.

Lemma fold_append_first_occurrences (l : list A) :
  fold_left (_append_if_not_in_list eq_dec) l [] = first_occurrences l.
Proof.
  rewrite fold_append_if_not_in. simpl.
  induction (first_occurrences l) as [| y ys IH]; [reflexivity |].
  simpl. rewrite IH. reflexivity.
Qed.

Lemma first_occurrences_NoDup (l : list A) : NoDup (first_occurrences l).
Proof.
  induction l as [| x l IH]; simpl; constructor.
  - rewrite filter_In. unfold differs. intros [_ H].
    destruct (eq_dec x x); [discriminate | congruence].
  - apply NoDup_filter. exact IH.
Qed.

End FirstOccurrences.

(** The resets and styles that [_calc_mode_attrs] collects. *)
Lemma calc_mode_attrs_lists (sv : str) (brackets : ascii * ascii) (l : Locals.t) :
  _calc_mode_attrs sv brackets = Ok l ->
  Locals.resets l
  = first_occurrences ResetMode_eq_dec (applied_resets None (removelast (tl sv)))
  /\ Locals.styles l
     = first_occurrences StyleMode_eq_dec (applied_styles None (removelast (tl sv)))
  /\ (removelast (tl sv) = [] -> l = Locals.init).
Proof.
  destruct brackets as [ob cb]. unfold _calc_mode_attrs.
  destruct (negb _); [discriminate |].
  remember (removelast (tl sv)) as tc eqn:Etc. clear Etc.
  destruct (Nat.ltb 0 (length tc)) eqn:Hlen.
  2: { intros [= <-]. destruct tc; [| discriminate]. repeat split. }
  destruct (loop sv tc 0 tc Locals.init) as [l0 | e] eqn:Hloop; cbn [bind]; [| discriminate].
  destruct (loop_lists sv tc tc [] Locals.init no_lookback l0 eq_refl (agrees_init tc) Hloop)
    as (Hrs & Hss & _).
  change (Locals.resets Locals.init) with (@nil ResetMode) in Hrs.
  change (Locals.styles Locals.init) with (@nil StyleMode) in Hss.
  rewrite fold_append_first_occurrences in Hrs.
  rewrite fold_append_first_occurrences in Hss.
  change (prev no_lookback) with (@None ascii) in Hrs, Hss.
  destruct (char_in _ _); [discriminate |].
  destruct (n_256_start l0).
  - intros Hset. apply set_n_256_color_Ok in Hset as (_ & H1 & H2 & _).
    split; [congruence | split; [congruence |]]. intros ->. discriminate.
  - intros [= <-]. split; [assumption | split; [assumption |]]. intros ->. discriminate.
Qed.

(** The SGR codes of a tag: resets, styles, background, foreground. *)
Definition sgr_codes (t : FormatTag) : list str :=
  map (fun r => str_of_code (esc_code (reset_esc r))) (resets t)
  ++ map (fun s => str_of_code (esc_code (style_esc s))) (styles t)
  ++ match bg_color t with Some c => [_code_for_color_mode_or_num c true] | None => [] end
  ++ match fg_color t with Some c => [_code_for_color_mode_or_num c false] | None => [] end.

(** The content of the tag text, [None] standing for the empty tag. *)
Definition content_of (str_value : option str) : str :=
  match str_value with
  | Some sv => removelast (tl sv)
  | None => []
  end.

(** C3: for every tag that is parsed, the full escape sequence is made of
    the codes of its resets, its styles, its background and its foreground,
    in this order, joined by [;] between [ESC "["] and [m]; resets and styles
    are in the order of their first occurrences, without duplicates; a tag
    without codes, as the empty tag, has the empty string as its sequence. *)
Theorem full_escseq_order (str_value : option str) (brackets : option (ascii * ascii))
    (tag : FormatTag) :
  FormatTag_init str_value brackets = Ok tag ->
  resets tag = first_occurrences ResetMode_eq_dec (applied_resets None (content_of str_value))
  /\ styles tag
     = first_occurrences StyleMode_eq_dec (applied_styles None (content_of str_value))
  /\ NoDup (resets tag) /\ NoDup (styles tag)
  /\ full_escseq tag
     = match sgr_codes tag with
       | [] => []
       | codes => ESC :: py "[" ++ join (py ";") codes ++ py "m"
       end
  /\ (content_of str_value = [] -> full_escseq tag = []).
Proof.
  intros Hinit.
  assert (H : resets tag
              = first_occurrences ResetMode_eq_dec (applied_resets None (content_of str_value))
              /\ styles tag
                 = first_occurrences StyleMode_eq_dec
                     (applied_styles None (content_of str_value))
              /\ full_escseq tag
                 = escseq (Modes (resets tag)) (fg_color tag) (bg_color tag)
                     (Modes (styles tag)) None
              /\ (content_of str_value = [] ->
                  resets tag = [] /\ styles tag = [] /\ bg_color tag = None
                  /\ fg_color tag = None)).
  { unfold FormatTag_init in Hinit. destruct str_value as [sv |].
    - destruct (_calc_mode_attrs sv _) as [l |] eqn:Hcalc; [| discriminate].
      cbn [bind] in Hinit. injection Hinit as <-. cbn [resets styles full_escseq
        bg_color fg_color content_of].
      apply calc_mode_attrs_lists in Hcalc as (H1 & H2 & H3).
      split; [exact H1 | split; [exact H2 | split; [reflexivity |]]].
      intros Hc. rewrite (H3 Hc). repeat split.
    - injection Hinit as <-. repeat split. }
  destruct H as (Hrs & Hss & Hfull & Hempty).
  assert (Hseq : full_escseq tag
                 = match sgr_codes tag with
                   | [] => []
                   | codes => ESC :: py "[" ++ join (py ";") codes ++ py "m"
                   end).
  { rewrite Hfull. unfold escseq, _code_list, sgr_codes.
    destruct (bg_color tag), (fg_color tag);
      cbn [app]; rewrite ?app_nil_r, <- ?app_assoc; cbn [app];
      match goal with
      | |- (if Nat.eqb (length ?cs) 0 then _ else _) = _ => destruct cs; reflexivity
      end. }
  repeat split; auto.
  - rewrite Hrs. apply first_occurrences_NoDup.
  - rewrite Hss. apply first_occurrences_NoDup.
  - intros Hc. rewrite Hseq. unfold sgr_codes.
    destruct (Hempty Hc) as (-> & -> & -> & ->). reflexivity.
Qed.

Lemma full_escseq_order_witness :
  exists tag,
    FormatTag_init (Some (py "<fU,f;c>")) None = Ok tag
    /\ styles tag = [BOLD; DOUBLE_UNDERLINE]
    /\ full_escseq tag = ESC :: py "[1;21;36m".
Proof.
  destruct (FormatTag_init (Some (py "<fU,f;c>")) None) as [tag |] eqn:Hinit;
    [| vm_compute in Hinit; discriminate].
  destruct (full_escseq_order _ _ _ Hinit) as (_ & Hss & _ & _ & Hfull & _).
  exists tag. split; [reflexivity |]. split.
  - rewrite Hss. reflexivity.
  - rewrite Hfull. vm_compute in Hinit. injection Hinit as <-. reflexivity.
Defined.

(** ** C6: the assignment of a literal *)

Lemma digit_classes (c : ascii) :
  is_digit c = true -> is_separator c = false /\ is_marker c = false /\ is_key c = false.
Proof. each_char c; vm_compute; intuition congruence. Qed.

Lemma slice_middle (p ds rest : str) :
  slice (p ++ ds ++ rest) (length p) (length p + length ds) = ds.
Proof.
  unfold slice. rewrite skipn_app, Nat.sub_diag, skipn_all. simpl.
  replace (length p + length ds - length p) with (length ds) by lia.
  rewrite firstn_app, Nat.sub_diag, firstn_all. simpl. apply app_nil_r.
Qed.

Section Literal.

Variables (sv tc : str).

(** Digits after the first digit of a literal leave the local variables as
    they are. *)
Lemma loop_open_literal (ds : str) :
  forall i l,
    forallb is_digit ds = true ->
    reset_marker l = false ->
    n_256_start l <> None ->
    loop sv tc i ds l = Ok l.
Proof.
  induction ds as [| d ds IH]; intros i l Hds Hr Hn; [reflexivity |].
  cbn [forallb] in Hds. apply andb_prop in Hds as [Hd Hds].
  destruct (digit_classes d Hd) as (Hs & Hm & _).
  cbn [loop]. rewrite loop_body_digit, Hr by assumption.
  destruct (n_256_start l) eqn:E; [| congruence].
  cbn [bind]. apply IH; auto. congruence.
Qed.

Lemma loop_app (a b : str) :
  forall i l,
    loop sv tc i (a ++ b) l = (l' <- loop sv tc i a l ;; loop sv tc (i + length a) b l').
Proof.
  induction a as [| c a IH]; intros i l.
  - simpl. rewrite Nat.add_0_r. reflexivity.
  - cbn [app loop]. destruct (loop_body sv tc i c l) as [l1 | e]; cbn [bind]; [| reflexivity].
    rewrite IH. simpl length. replace (S i + length a) with (i + S (length a)) by lia.
    reflexivity.
Qed.

(** The local variables after the literal has been assigned. *)
Definition assigned (v : N) (l0 : Locals.t) : Locals.t :=
  set_bg_marker false
    (set_n_256_start None
       (if bg_marker l0 then set_bg_color (Some (ColorOfInt v)) l0
        else set_fg_color (Some (ColorOfInt v)) l0)).

(** C6: a literal [ds] that starts after the prefix [p], in the state [l0],
    is scanned without a change but for its start index; when it is assigned,
    at the next character or at the end of the content, its value goes to the
    background slot if the background marker was pending in [l0] and to the
    foreground slot otherwise, whatever the slot held, and the marker and the
    literal are cleared. A separator, a key or a marker after the literal is
    processed in the state with the assigned literal; at the end of the
    content that state is the result. *)
Theorem literal_assignment (p ds rest : str) (l0 : Locals.t) (v : N) :
  tc = p ++ ds ++ rest ->
  ds <> [] ->
  forallb is_digit ds = true ->
  int_of_digits ds = Some v ->
  (v <= 255)%N ->
  n_256_start l0 = None ->
  reset_marker l0 = false ->
  let ld := set_n_256_start (Some (length p)) l0 in
  loop sv tc (length p) ds l0 = Ok ld
  /\ (forall i k, i + k = length p + length ds ->
        set_n_256_color sv tc i k ld = Ok (assigned v l0))
  /\ Locals.bg_color (assigned v l0)
     = (if bg_marker l0 then Some (ColorOfInt v) else Locals.bg_color l0)
  /\ Locals.fg_color (assigned v l0)
     = (if bg_marker l0 then Locals.fg_color l0 else Some (ColorOfInt v))
  /\ (forall c, is_digit c = false -> is_marker c = false \/ bg_marker l0 = false ->
        loop_body sv tc (length p + length ds) c ld
        = loop_body sv tc (length p + length ds) c (assigned v l0))
  /\ (rest = [] -> loop sv tc 0 p Locals.init = Ok l0 ->
      forall ob cb, sv = ob :: tc ++ [cb] ->
        _calc_mode_attrs sv (ob, cb) = Ok (assigned v l0)).
Proof.
  intros Htc Hne Hds Hv Hle Hn Hr ld.
  assert (Hscan : loop sv tc (length p) ds l0 = Ok ld).
  { destruct ds as [| d ds']; [congruence |].
    cbn [forallb] in Hds. apply andb_prop in Hds as [Hd Hds'].
    destruct (digit_classes d Hd) as (Hs & Hm & _).
    cbn [loop]. rewrite loop_body_digit, Hr, Hn by assumption. cbn [bind].
    apply loop_open_literal; auto. discriminate. }
  assert (Hfin : forall i k, i + k = length p + length ds ->
                             set_n_256_color sv tc i k ld = Ok (assigned v l0)).
  { intros i k Hik. unfold set_n_256_color. cbn [n_256_start ld set_n_256_start].
    rewrite Hik, Htc, slice_middle. unfold _parse_256_color. rewrite Hv.
    replace (255 <? v)%N with false by (symmetry; apply N.ltb_ge; exact Hle).
    unfold assigned. destruct l0 as [rm bm n rs ss bg fg ros]. simpl in *.
    destruct bm; reflexivity. }
  assert (Hnone : forall i k, set_n_256_color sv tc i k (assigned v l0) = Ok (assigned v l0)).
  { intros i k. reflexivity. }
  split; [exact Hscan |]. split; [exact Hfin |].
  split; [unfold assigned; destruct (bg_marker l0); reflexivity |].
  split; [unfold assigned; destruct (bg_marker l0); reflexivity |].
  split.
  - intros c Hc Hcase.
    assert (Hr1 : reset_marker ld = false) by exact Hr.
    assert (Hr2 : reset_marker (assigned v l0) = false)
      by (unfold assigned; destruct (bg_marker l0); exact Hr).
    assert (Hb1 : bg_marker ld = bg_marker l0) by reflexivity.
    assert (Hb2 : bg_marker (assigned v l0) = false) by reflexivity.
    specialize (Hfin (length p + length ds) 0 (Nat.add_0_r _)).
    specialize (Hnone (length p + length ds) 0).
    destruct (char_cases c)
      as [-> | [-> | [(Hs & Hm & _) | [(Hdg & _) | [(Hk & _) | (Hk & Hdg & Hs & Hm)]]]]].
    + destruct Hcase as [Hcase | Hcase]; [discriminate |].
      rewrite !loop_body_hash, Hr1, Hr2, Hb1, Hb2, Hcase, Hfin, Hnone. reflexivity.
    + destruct Hcase as [Hcase | Hcase]; [discriminate |].
      rewrite !loop_body_bang, Hr1, Hr2, Hb1, Hb2, Hcase, Hfin, Hnone. reflexivity.
    + rewrite !loop_body_separator, Hr1, Hr2, Hfin, Hnone by assumption. reflexivity.
    + congruence.
    + rewrite !loop_body_key, Hfin, Hnone by assumption. reflexivity.
    + rewrite !loop_body_other by assumption. reflexivity.
  - intros -> Hp ob cb Hsv. rewrite app_nil_r in Htc.
    assert (Hlen : length tc = length p + length ds) by (rewrite Htc; apply length_app).
    assert (Hpos : 0 < length ds) by (destruct ds; [congruence | simpl; lia]).
    unfold _calc_mode_attrs.
    assert (Hstart : match sv with c :: _ => Ascii.eqb c ob | [] => false end = true)
      by (rewrite Hsv; apply Ascii.eqb_refl).
    assert (Hend : match rev sv with c :: _ => Ascii.eqb c cb | [] => false end = true).
    { rewrite Hsv. cbn [rev]. rewrite rev_unit. apply Ascii.eqb_refl. }
    assert (Hcontent : removelast (tl sv) = tc).
    { rewrite Hsv. cbn [tl]. apply removelast_last. }
    rewrite Hstart, Hend, Hcontent. cbn [andb negb].
    replace (Nat.ltb 0 (length tc)) with true by (symmetry; apply Nat.ltb_lt; lia).
    assert (Hl : loop sv tc 0 tc Locals.init = loop sv tc 0 (p ++ ds) Locals.init)
      by (rewrite <- Htc; reflexivity).
    rewrite Hl, loop_app, Hp. cbn [bind]. rewrite Nat.add_0_l, Hscan.
    cbn [bind]. rewrite nth_last_char, char_in_markers.
    assert (Hlast : is_marker (last tc " ") = false).
    { rewrite Htc. assert (Hne' : ds <> []) by assumption.
      destruct (exists_last Hne') as (ds' & d & ->).
      rewrite app_assoc, last_last. rewrite forallb_app in Hds.
      apply andb_prop in Hds as [_ Hd]. simpl in Hd. rewrite andb_true_r in Hd.
      apply digit_classes in Hd. tauto. }
    rewrite Hlast. cbn [n_256_start ld set_n_256_start].
    apply Hfin. lia.
Qed.

End Literal.

Lemma literal_assignment_witness :
  _calc_mode_attrs (py "<r#12>") ("<", ">")
  = Ok (assigned 12 (set_bg_marker true (set_fg_color (Some (ColorOfMode RED)) Locals.init))).
Proof.
  refine (proj2 (proj2 (proj2 (proj2 (proj2
            (literal_assignment (py "<r#12>") (py "r#12") (py "r#") (py "12") []
               (set_bg_marker true (set_fg_color (Some (ColorOfMode RED)) Locals.init))
               12%N eq_refl _ eq_refl eq_refl _ eq_refl eq_refl)))))
            eq_refl _ "<" ">" eq_refl).
  - discriminate.
  - vm_compute. discriminate.
  - vm_compute. reflexivity.
Defined.

(** * Further properties *)

(** * Further properties *)

(** ** Padding *)

Lemma odd_int_cases (n : Z) :
  (n mod 2 = 0 /\ odd_int n = 0 /\ even_int n = 1)%Z
  \/ (n mod 2 = 1 /\ odd_int n = 1 /\ even_int n = 0)%Z.
Proof.
  unfold odd_int, even_int.
  destruct (Z.eqb_spec (n mod 2) 0) as [H | H]; simpl.
  - left. auto.
  - right. pose proof (Z.mod_pos_bound n 2 ltac:(lia)). repeat split; lia.
Qed.

Ltac parity n :=
  let H := fresh "Hpar" in
  let Ho := fresh "Hodd" in
  let He := fresh "Heven" in
  destruct (odd_int_cases n) as [(H & Ho & He) | (H & Ho & He)];
  rewrite ?Ho, ?He.

(** X1: the two paddings add up to the free width, also when it is negative, and
    differ by at most one column: left alignment puts the odd column on the
    right, right alignment on the left, and the third alignment on the left
    exactly when the free width and the width are both odd. *)
Theorem lrspaces_split (strlen width : Z) :
  let spaces := (width - strlen)%Z in
  _lrspaces strlen width LEFT = ((spaces / 2)%Z, (spaces / 2 + spaces mod 2)%Z)
  /\ _lrspaces strlen width RIGHT = ((spaces / 2 + spaces mod 2)%Z, (spaces / 2)%Z)
  /\ _lrspaces strlen width PYSTD
     = ((spaces / 2 + (spaces mod 2) * (width mod 2))%Z,
        (spaces / 2 + (spaces mod 2) * (1 - width mod 2))%Z)
  /\ (fst (_lrspaces strlen width LEFT) + snd (_lrspaces strlen width LEFT) = spaces)%Z
  /\ (fst (_lrspaces strlen width RIGHT) + snd (_lrspaces strlen width RIGHT) = spaces)%Z
  /\ (fst (_lrspaces strlen width PYSTD) + snd (_lrspaces strlen width PYSTD) = spaces)%Z.
Proof.
  cbv zeta. unfold _lrspaces, _lrspaces_left_aligned, _lrspaces_right_aligned,
    _lrspaces_pystd_aligned.
  assert (Hpy : (if (strlen mod 2 =? 0)%Z
                 then (((width - strlen) / 2 + odd_int width)%Z, ((width - strlen) / 2)%Z)
                 else (((width - strlen) / 2)%Z, ((width - strlen) / 2 + even_int width)%Z))
                = ((((width - strlen) / 2 + ((width - strlen) mod 2) * (width mod 2))%Z,
                    ((width - strlen) / 2 + ((width - strlen) mod 2) * (1 - width mod 2))%Z))).
  { destruct (Z.eqb_spec (strlen mod 2) 0) as [Hs | Hs]; parity width; f_equal;
      pose proof (Z.mod_pos_bound strlen 2 ltac:(lia));
      Z.div_mod_to_equations; nia. }
  rewrite Hpy. cbn [fst snd].
  repeat split; parity (width - strlen)%Z; try (f_equal; lia);
    pose proof (Z.mod_pos_bound width 2 ltac:(lia));
    Z.div_mod_to_equations; nia.
Qed.

Lemma lrspaces_bounds (strlen width : Z) (al : Alignment) :
  let '(l, r) := _lrspaces strlen width al in
  (l + r = width - strlen)%Z
  /\ (0 <= width - strlen -> 0 <= l /\ 0 <= r)%Z
  /\ (width - strlen <= 0 -> l <= 0 /\ r <= 0)%Z.
Proof.
  destruct al; cbn [_lrspaces];
    unfold _lrspaces_left_aligned, _lrspaces_right_aligned, _lrspaces_pystd_aligned;
    cbv zeta.
  - parity (width - strlen)%Z; repeat split; Z.div_mod_to_equations; lia.
  - parity (width - strlen)%Z; repeat split; Z.div_mod_to_equations; lia.
  - destruct (Z.eqb_spec (strlen mod 2) 0) as [Hs | Hs]; parity width;
      pose proof (Z.mod_pos_bound strlen 2 ltac:(lia));
      repeat split; Z.div_mod_to_equations; lia.
Qed.

Lemma length_str_mul (s : str) (n : Z) :
  length (str_mul s n) = length s * Z.to_nat n.
Proof.
  unfold str_mul. induction (Z.to_nat n) as [| k IH]; simpl; [lia |].
  rewrite length_app, IH. lia.
Qed.

Lemma str_mul_nonpos (s : str) (n : Z) : (n <= 0)%Z -> str_mul s n = [].
Proof.
  intros H. unfold str_mul. replace (Z.to_nat n) with 0 by lia. reflexivity.
Qed.

(** X2: [center_str] never truncates: a value at least as long as the width is
    returned as it is, and the length of the result is the length of the
    value plus one filler for every free column. *)
Theorem center_str_width (v filler : str) (width : Z) (al : Alignment) :
  len (center_str v width filler al)
  = (len v + len filler * Z.max 0 (width - len v))%Z
  /\ ((width <= len v)%Z -> center_str v width filler al = v).
Proof.
  unfold center_str. pose proof (lrspaces_bounds (len v) width al) as H.
  destruct (_lrspaces (len v) width al) as [l r]. destruct H as (Hsum & Hpos & Hneg).
  split.
  - unfold len. rewrite !length_app, !length_str_mul.
    destruct (Z.le_ge_cases 0 (width - len v)) as [Hle | Hge].
    + destruct (Hpos Hle). unfold len in *. nia.
    + destruct (Hneg Hge). unfold len in *.
      replace (Z.to_nat l) with 0 by lia. replace (Z.to_nat r) with 0 by lia. lia.
  - intros Hw. destruct Hneg as [Hl Hr]; [lia |].
    rewrite !str_mul_nonpos by assumption. simpl. apply app_nil_r.
Qed.

Lemma center_str_width_witness :
  (3 <= len (py "abcd"))%Z /\ center_str (py "abcd") 3 (py "*") PYSTD = py "abcd".
Proof.
  split; [vm_compute; discriminate |].
  apply (proj2 (center_str_width (py "abcd") (py "*") 3 PYSTD)). vm_compute. discriminate.
Defined.

(** ** Escape sequences and [unfancy] *)

(** The characters of a list of SGR codes. *)
Definition sgr_char (c : ascii) : bool := is_digit c || Ascii.eqb c ";".

(** A non-empty text of digits and semicolons. *)
Definition sgr_text (s : str) : bool := negb (is_nil s) && forallb sgr_char s.

Lemma sgr_char_not_end (c : ascii) :
  sgr_char c = true ->
  Ascii.eqb c "m" = false /\ Ascii.eqb c NEWLINE = false /\ Ascii.eqb c ESC = false
  /\ c <> _BracketsRepl.OPEN /\ c <> _BracketsRepl.CLOSED /\ c <> "<" /\ c <> ">".
Proof. each_char c; vm_compute; intuition congruence. Qed.

Lemma string_of_uint_digits (d : Decimal.uint) :
  forallb is_digit (py (NilEmpty.string_of_uint d)) = true.
Proof. induction d; simpl; auto. Qed.

Lemma str_of_N_sgr (n : N) : sgr_text (str_of_N n) = true.
Proof.
  unfold sgr_text, str_of_N. apply andb_true_intro. split.
  - destruct n as [| p]; [reflexivity |]. cbn [N.to_uint].
    pose proof (Unsigned.to_uint_nonnil p) as H.
    destruct (Pos.to_uint p); [congruence | reflexivity ..].
  - pose proof (string_of_uint_digits (N.to_uint n)) as H.
    rewrite forallb_forall in *. intros c Hc. unfold sgr_char. rewrite (H c Hc). reflexivity.
Qed.

Lemma sgr_text_app (a b : str) :
  sgr_text a = true -> sgr_text b = true -> sgr_text (a ++ py ";" ++ b) = true.
Proof.
  unfold sgr_text. intros Ha Hb.
  apply andb_prop in Ha as [Ha1 Ha2]. apply andb_prop in Hb as [Hb1 Hb2].
  apply andb_true_intro. split.
  - destruct a; [discriminate | reflexivity].
  - rewrite forallb_app, Ha2. simpl. exact Hb2.
Qed.

Lemma sgr_text_join (codes : list str) :
  codes <> [] -> Forall (fun c => sgr_text c = true) codes ->
  sgr_text (join (py ";") codes) = true.
Proof.
  intros Hne H. induction H as [| c codes Hc Hcs IH]; [congruence |].
  destruct codes as [| c' codes]; [exact Hc |].
  change (join (py ";") (c :: c' :: codes)) with (c ++ py ";" ++ join (py ";") (c' :: codes)).
  apply sgr_text_app; [exact Hc | apply IH; discriminate].
Qed.

(** An escape sequence: nothing, or [ESC] [[] codes [m]. *)
Definition is_escseq (e : str) : Prop :=
  e = [] \/ exists codes, sgr_text codes = true /\ e = ESC :: "[" :: codes ++ ["m"].

Lemma lazy_until_found (cb : ascii) (t rest : str) :
  Forall (fun c => Ascii.eqb c cb = false /\ Ascii.eqb c NEWLINE = false) t ->
  lazy_until cb (t ++ cb :: rest) = Some (S (length t)).
Proof.
  induction 1 as [| c t [H1 H2] _ IH]; simpl.
  - rewrite Ascii.eqb_refl. reflexivity.
  - rewrite H1, H2, IH. reflexivity.
Qed.

Lemma unfancy_from_skip (u rest : str) :
  unfancy_from (u ++ rest) (length u) = unfancy_from rest 0.
Proof.
  induction u as [| c u IH]; [reflexivity |].
  simpl. destruct u; exact IH.
Qed.

Lemma unfancy_from_plain (c : ascii) (s : str) :
  c <> ESC -> unfancy_from (c :: s) 0 = c :: unfancy_from s 0.
Proof.
  intros Hc. apply Ascii.eqb_neq in Hc. cbn [unfancy_from].
  destruct s as [| c2 [| c3 s3]]; try reflexivity. rewrite Hc. reflexivity.
Qed.

Lemma unfancy_from_text (t rest : str) :
  Forall (fun c => c <> ESC) t -> unfancy_from (t ++ rest) 0 = t ++ unfancy_from rest 0.
Proof.
  induction 1 as [| c t Hc _ IH]; [reflexivity |].
  simpl app. rewrite unfancy_from_plain by assumption. rewrite IH. reflexivity.
Qed.

Lemma unfancy_from_eq (c : ascii) (s' : str) :
  unfancy_from (c :: s') 0
  = match
      match s' with
      | c2 :: c3 :: s3 =>
          if Ascii.eqb c ESC && Ascii.eqb c2 "[" && negb (Ascii.eqb c3 NEWLINE)
          then option_map (fun n => 2 + n) (lazy_until "m" s3)
          else None
      | _ => None
      end
    with
    | Some n => unfancy_from s' n
    | None => c :: unfancy_from s' 0
    end.
Proof. reflexivity. Qed.

Lemma unfancy_from_escseq (e rest : str) :
  is_escseq e -> unfancy_from (e ++ rest) 0 = unfancy_from rest 0.
Proof.
  intros [-> | (codes & Hcodes & ->)]; [reflexivity |].
  unfold sgr_text in Hcodes. apply andb_prop in Hcodes as [Hne Hall].
  destruct codes as [| c3 cs]; [discriminate |].
  simpl in Hall. apply andb_prop in Hall as [H3 Hcs].
  destruct (sgr_char_not_end c3 H3) as (_ & Hnl & _).
  assert (Hlazy : lazy_until "m" (cs ++ "m" :: rest) = Some (S (length cs))).
  { apply lazy_until_found. rewrite forallb_forall in Hcs. apply Forall_forall.
    intros c Hc. destruct (sgr_char_not_end c (Hcs c Hc)) as (H1 & H2 & _). auto. }
  assert (Heq : (ESC :: "[" :: (c3 :: cs) ++ ["m"]) ++ rest
                = ESC :: "[" :: c3 :: cs ++ "m" :: rest)
    by (simpl; rewrite <- app_assoc; reflexivity).
  rewrite Heq, unfancy_from_eq. cbv beta iota.
  rewrite !Ascii.eqb_refl, Hnl, Hlazy. cbn [andb negb option_map].
  assert (Heq' : "[" :: c3 :: cs ++ "m" :: rest = ("[" :: c3 :: cs ++ ["m"]) ++ rest)
    by (simpl; rewrite <- app_assoc; reflexivity).
  rewrite Heq'.
  replace (2 + S (length cs)) with (length ("[" :: c3 :: cs ++ ["m"]))
    by (simpl; rewrite length_app; simpl; lia).
  apply unfancy_from_skip.
Qed.

(** The codes of modes and colors. A mode constructor takes an [int] as its
    code; the reset mode [RESET_ALL_STYLES] of the registry has a text of
    codes instead. *)
Definition sgr_code (c : code) : bool := sgr_text (str_of_code c).

Definition sgr_color (c : option color) : bool :=
  match c with
  | Some (ColorOfMode m) => sgr_code (esc_code (fg_esc m)) && sgr_code (esc_code (bg_esc m))
  | _ => true
  end.

Definition sgr_resets (rs : modes_arg ResetMode) : bool :=
  forallb (fun r => sgr_code (esc_code (reset_esc r)))
    match rs with NoModes => [] | OneMode r => [r] | Modes rs => rs end.

Definition sgr_styles (ss : modes_arg StyleMode) : bool :=
  forallb (fun s => sgr_code (esc_code (style_esc s)))
    match ss with NoModes => [] | OneMode s => [s] | Modes ss => ss end.

Lemma sgr_code_int (n : N) : sgr_code (CodeInt n) = true.
Proof. apply str_of_N_sgr. Qed.

Lemma code_for_color_sgr (c : color) (for_bg : bool) :
  sgr_color (Some c) = true -> sgr_text (_code_for_color_mode_or_num c for_bg) = true.
Proof.
  destruct c as [m | n]; cbn [sgr_color _code_for_color_mode_or_num].
  - intros H. apply andb_prop in H as [H1 H2]. destruct for_bg; assumption.
  - intros _. change (py ";5;" ++ str_of_N n) with (py ";" ++ py "5" ++ py ";" ++ str_of_N n).
    apply sgr_text_app; [apply str_of_N_sgr |].
    apply sgr_text_app; [reflexivity | apply str_of_N_sgr].
Qed.

Lemma code_list_sgr (resets : modes_arg ResetMode) (fg bg : option color)
    (styles : modes_arg StyleMode) :
  sgr_resets resets = true -> sgr_styles styles = true ->
  sgr_color fg = true -> sgr_color bg = true ->
  Forall (fun c => sgr_text c = true) (_code_list resets fg bg styles).
Proof.
  intros Hr Hs Hfg Hbg. unfold _code_list.
  unfold sgr_resets, sgr_styles in *. rewrite forallb_forall in Hr, Hs.
  assert (H0 : Forall (fun c => sgr_text c = true)
                 (map (fun r => str_of_code (esc_code (reset_esc r)))
                    match resets with NoModes => [] | OneMode r => [r] | Modes rs => rs end
                  ++ map (fun s => str_of_code (esc_code (style_esc s)))
                       match styles with NoModes => [] | OneMode s => [s] | Modes ss => ss end)).
  { apply Forall_app. split; apply Forall_forall; intros c Hc;
      apply in_map_iff in Hc as (m & <- & Hm); [apply Hr | apply Hs]; exact Hm. }
  assert (Hone : forall c for_bg, sgr_color (Some c) = true ->
                   Forall (fun c => sgr_text c = true) [_code_for_color_mode_or_num c for_bg]).
  { intros c for_bg Hc. constructor; [apply code_for_color_sgr; exact Hc | constructor]. }
  destruct bg as [b |], fg as [f |]; cbv zeta;
    repeat first [ exact H0 | apply Hone; assumption | apply Forall_app; split ].
Qed.

Lemma escseq_is_escseq (resets : modes_arg ResetMode) (fg bg : option color)
    (styles : modes_arg StyleMode) :
  sgr_resets resets = true -> sgr_styles styles = true ->
  sgr_color fg = true -> sgr_color bg = true ->
  is_escseq (escseq resets fg bg styles None).
Proof.
  intros Hr Hs Hfg Hbg. unfold escseq.
  pose proof (code_list_sgr resets fg bg styles Hr Hs Hfg Hbg) as H.
  destruct (_code_list resets fg bg styles) as [| c codes] eqn:E; [left; reflexivity |].
  right. exists (join (py ";") (c :: codes)). split.
  - apply sgr_text_join; [discriminate | exact H].
  - cbn [length Nat.eqb]. simpl. reflexivity.
Qed.

Lemma reset_all_escseq_is_escseq (reset_all : bool) (fg bg : option color)
    (styles : modes_arg StyleMode) :
  sgr_styles styles = true -> sgr_color fg = true -> sgr_color bg = true ->
  is_escseq (_reset_all_escseq reset_all fg bg styles None).
Proof.
  intros. unfold _reset_all_escseq. apply escseq_is_escseq; auto.
  destruct reset_all; reflexivity.
Qed.

Lemma unfancy_plain (t : str) : Forall (fun c => c <> ESC) t -> unfancy t = t.
Proof.
  intros H. unfold unfancy. rewrite <- (app_nil_r t) at 1.
  rewrite unfancy_from_text by assumption. simpl. apply app_nil_r.
Qed.

Lemma unfancy_fancystr_between (a v b : str) (fg bg : option color)
    (styles : modes_arg StyleMode) (sra era : bool) :
  sgr_styles styles = true -> sgr_color fg = true -> sgr_color bg = true ->
  Forall (fun c => c <> ESC) a -> Forall (fun c => c <> ESC) v ->
  Forall (fun c => c <> ESC) b ->
  unfancy (a ++ fancystr v fg bg styles sra era ++ b) = a ++ v ++ b.
Proof.
  intros Hs Hfg Hbg Ha Hv Hb. unfold unfancy, fancystr.
  rewrite unfancy_from_text by assumption. rewrite <- !app_assoc.
  rewrite unfancy_from_escseq by (apply reset_all_escseq_is_escseq; assumption).
  rewrite unfancy_from_text by assumption.
  rewrite unfancy_from_escseq by (apply reset_all_escseq_is_escseq; reflexivity).
  rewrite <- (app_nil_r b) at 1. rewrite unfancy_from_text by assumption.
  simpl. rewrite app_nil_r. reflexivity.
Qed.

(** X3: [unfancy] undoes [fancystr]: for modes with an [int] code, or any code
    of digits and semicolons, and a value without the escape character, the
    visible text of the styled string is the value. *)
Theorem unfancy_fancystr (v : str) (fg bg : option color) (styles : modes_arg StyleMode)
    (start_reset_all end_reset_all : bool) :
  sgr_styles styles = true -> sgr_color fg = true -> sgr_color bg = true ->
  Forall (fun c => c <> ESC) v ->
  unfancy (fancystr v fg bg styles start_reset_all end_reset_all) = v.
Proof.
  intros Hs Hfg Hbg Hv.
  pose proof (unfancy_fancystr_between [] v [] fg bg styles start_reset_all end_reset_all
                Hs Hfg Hbg (Forall_nil _) Hv (Forall_nil _)) as H.
  simpl in H. rewrite !app_nil_r in H. exact H.
Qed.

Lemma unfancy_fancystr_witness :
  unfancy (fancystr (py "Rot") (Some (ColorOfMode RED)) (Some (ColorOfInt 90))
             (Modes [BOLD; UNDERLINE]) true true) = py "Rot".
Proof.
  apply unfancy_fancystr; try reflexivity.
  repeat constructor; discriminate.
Defined.

Lemma str_mul_plain (filler : str) (n : Z) :
  Forall (fun c => c <> ESC) filler -> Forall (fun c => c <> ESC) (str_mul filler n).
Proof.
  intros H. unfold str_mul. induction (Z.to_nat n) as [| k IH]; simpl; [constructor |].
  apply Forall_app. split; assumption.
Qed.

(** X4: the visible text of a justified styled string is the justified value:
    the escape sequences take no column, whether the fillers are styled
    with the value or not. *)
Theorem unfancy_justified (v filler : str) (width : Z) (al : Alignment)
    (fg bg : option color) (styles : modes_arg StyleMode) (mode_combi : option ModeCombi)
    (modify_all start_reset_all end_reset_all : bool) :
  sgr_styles (snd (modes_of fg bg styles mode_combi)) = true ->
  sgr_color (fst (fst (modes_of fg bg styles mode_combi))) = true ->
  sgr_color (snd (fst (modes_of fg bg styles mode_combi))) = true ->
  Forall (fun c => c <> ESC) v -> Forall (fun c => c <> ESC) filler ->
  unfancy (fancystr_center v width filler al fg bg styles mode_combi
             modify_all start_reset_all end_reset_all)
  = center_str v width filler al
  /\ unfancy (fancystr_ljust v width filler fg bg styles mode_combi
                modify_all start_reset_all end_reset_all)
     = v ++ str_mul filler (width - len v)
  /\ unfancy (fancystr_rjust v width filler fg bg styles mode_combi
                modify_all start_reset_all end_reset_all)
     = str_mul filler (width - len v) ++ v.
Proof.
  unfold fancystr_center, fancystr_ljust, fancystr_rjust, center_str.
  destruct (modes_of fg bg styles mode_combi) as [[fg' bg'] styles']. cbn [fst snd].
  intros Hs Hfg Hbg Hv Hf.
  pose proof (fun n => str_mul_plain filler n Hf) as Hmul.
  pose proof (lrspaces_bounds (len v) width al) as Hb.
  destruct (_lrspaces (len v) width al) as [l r]. destruct Hb as (_ & _ & Hneg).
  assert (Hplain : forall a b, Forall (fun c => c <> ESC) a -> Forall (fun c => c <> ESC) b ->
                          unfancy (fancystr (a ++ v ++ b) fg' bg' styles'
                                     start_reset_all end_reset_all) = a ++ v ++ b).
  { intros a b Ha Hb.
    pose proof (unfancy_fancystr_between [] (a ++ v ++ b) [] fg' bg' styles'
                  start_reset_all end_reset_all Hs Hfg Hbg (Forall_nil _)) as H.
    simpl in H. rewrite !app_nil_r in H. apply H; [| constructor].
    repeat (apply Forall_app; split); assumption. }
  assert (Hbetween := fun a b => unfancy_fancystr_between a v b fg' bg' styles'
                                   start_reset_all end_reset_all Hs Hfg Hbg).
  assert (Hplain0 : unfancy (fancystr v fg' bg' styles' start_reset_all end_reset_all) = v).
  { specialize (Hplain [] [] (Forall_nil _) (Forall_nil _)).
    simpl in Hplain. rewrite app_nil_r in Hplain. exact Hplain. }
  split; [| split].
  - destruct (Z.leb_spec width (len v)) as [Hw | Hw].
    + destruct Hneg as [Hl Hr]; [lia |]. rewrite !str_mul_nonpos by assumption.
      simpl. rewrite app_nil_r. exact Hplain0.
    + destruct modify_all; [apply Hplain; auto |].
      rewrite Hbetween; auto.
  - destruct (Z.leb_spec (width - len v) 0) as [Hw | Hw].
    + rewrite str_mul_nonpos by assumption. rewrite app_nil_r. exact Hplain0.
    + destruct modify_all.
      * specialize (Hplain [] (str_mul filler (width - len v)) (Forall_nil _) (Hmul _)).
        simpl in Hplain. exact Hplain.
      * specialize (Hbetween [] (str_mul filler (width - len v)) (Forall_nil _) Hv (Hmul _)).
        simpl in Hbetween. exact Hbetween.
  - destruct (Z.leb_spec (width - len v) 0) as [Hw | Hw].
    + rewrite str_mul_nonpos by assumption. exact Hplain0.
    + destruct modify_all.
      * specialize (Hplain (str_mul filler (width - len v)) [] (Hmul _) (Forall_nil _)).
        rewrite !app_nil_r in Hplain. exact Hplain.
      * specialize (Hbetween (str_mul filler (width - len v)) [] (Hmul _) Hv (Forall_nil _)).
        rewrite !app_nil_r in Hbetween. exact Hbetween.
Qed.

Lemma unfancy_justified_witness :
  unfancy (fancystr_center (py "ab") 5 (py ".") LEFT (Some (ColorOfMode CYAN)) None
             (OneMode BOLD) None false false true)
  = center_str (py "ab") 5 (py ".") LEFT.
Proof.
  refine (proj1 (unfancy_justified (py "ab") (py ".") 5 LEFT (Some (ColorOfMode CYAN)) None
                   (OneMode BOLD) None false false true _ _ _ _ _));
    try reflexivity; repeat constructor; discriminate.
Defined.

(** ** RGB colors *)

(** X5: [from_single_int] and the three components are inverse to each other on
    the integers from 0 to 256^3 - 1: the integer of three components in
    range yields the color with these components, every integer in range
    yields a color whose components give the integer back, and any other
    integer fails the assertion. *)
Theorem from_single_int_round_trip :
  (forall r g b : Z,
      (0 <= r < 256)%Z -> (0 <= g < 256)%Z -> (0 <= b < 256)%Z ->
      from_single_int (r * 65536 + g * 256 + b) = Some (Ok (mkRgbColor r g b (r, g, b))))
  /\ (forall n : Z,
         (0 <= n < 256 ^ 3)%Z ->
         exists c, from_single_int n = Some (Ok c)
                   /\ (rgb_red c * 65536 + rgb_green c * 256 + rgb_blue c = n)%Z
                   /\ RgbColor__getitem__ c 0 = Ok (rgb_red c)
                   /\ RgbColor__getitem__ c 1 = Ok (rgb_green c)
                   /\ RgbColor__getitem__ c 2 = Ok (rgb_blue c))
  /\ (forall n : Z, ~ (0 <= n < 256 ^ 3)%Z -> from_single_int n = None).
Proof.
  assert (Hinit : forall r g b : Z,
             (0 <= r < 256)%Z -> (0 <= g < 256)%Z -> (0 <= b < 256)%Z ->
             RgbColor_init r g b = Ok (mkRgbColor r g b (r, g, b))).
  { intros r g b Hr Hg Hb. unfold RgbColor_init, RgbColor__validate.
    replace ((0 <=? r)%Z && (r <? 256)%Z) with true by (symmetry; apply andb_true_intro; lia).
    replace ((0 <=? g)%Z && (g <? 256)%Z) with true by (symmetry; apply andb_true_intro; lia).
    replace ((0 <=? b)%Z && (b <? 256)%Z) with true by (symmetry; apply andb_true_intro; lia).
    reflexivity. }
  assert (Hparts : forall n : Z,
             (0 <= n < 256 ^ 3)%Z ->
             from_single_int n
             = Some (RgbColor_init (n / 65536) ((n / 256) mod 256) (n mod 256))).
  { intros n Hn. unfold from_single_int.
    replace ((0 <=? n)%Z && (n <? 256 ^ 3)%Z) with true by (symmetry; apply andb_true_intro; lia).
    cbn [negb]. rewrite !Z.shiftr_div_pow2 by lia. reflexivity. }
  split; [| split].
  - intros r g b Hr Hg Hb.
    rewrite Hparts by (change (256 ^ 3)%Z with 16777216%Z; lia).
    replace ((r * 65536 + g * 256 + b) / 65536)%Z with r by (Z.div_mod_to_equations; lia).
    replace (((r * 65536 + g * 256 + b) / 256) mod 256)%Z with g
      by (Z.div_mod_to_equations; lia).
    replace ((r * 65536 + g * 256 + b) mod 256)%Z with b by (Z.div_mod_to_equations; lia).
    rewrite Hinit by assumption. reflexivity.
  - intros n Hn. rewrite (Hparts n Hn). change (256 ^ 3)%Z with 16777216%Z in Hn.
    rewrite Hinit by (Z.div_mod_to_equations; lia).
    eexists. split; [reflexivity |]. cbn [rgb_red rgb_green rgb_blue].
    split; [Z.div_mod_to_equations; lia | repeat split].
  - intros n Hn. unfold from_single_int.
    replace ((0 <=? n)%Z && (n <? 256 ^ 3)%Z) with false; [reflexivity |].
    symmetry. apply andb_false_iff. lia.
Qed.

Lemma from_single_int_round_trip_witness :
  from_single_int (255 * 65536 + 128 * 256 + 0) = Some (Ok (mkRgbColor 255 128 0 (255, 128, 0)%Z)).
Proof.
  apply (proj1 from_single_int_round_trip); lia.
Defined.

(** ** Format strings, piece by piece

    A format string with the default brackets is read as a list of pieces:
    characters that are no brackets, the two escaped brackets, and tags. *)

Inductive piece : Type :=
| Chr (c : ascii)
| EscOpen
| EscClosed
| Tag (content : str).

(** The text of a piece, [eo] and [ec] being the texts of the two escaped
    brackets. *)
Definition render (eo ec : str) (p : piece) : str :=
  match p with
  | Chr c => [c]
  | EscOpen => eo
  | EscClosed => ec
  | Tag t => "<" :: t ++ [">"]
  end.

(** The format string of a list of pieces. *)
Definition source (ps : list piece) : str := flat_map (render (py "\<") (py "\>")) ps.

(** The format string once the escaped brackets are replaced by the two
    characters that stand for them. *)
Definition marked (ps : list piece) : str :=
  flat_map (render [_BracketsRepl.OPEN] [_BracketsRepl.CLOSED]) ps.

Definition text_char (c : ascii) : bool :=
  negb (Ascii.eqb c "<") && negb (Ascii.eqb c ">")
  && negb (Ascii.eqb c _BracketsRepl.OPEN) && negb (Ascii.eqb c _BracketsRepl.CLOSED).

Definition content_char (c : ascii) : bool :=
  negb (Ascii.eqb c "<") && negb (Ascii.eqb c ">") && negb (Ascii.eqb c NEWLINE).

(** A character piece is no bracket and none of the two characters that
    stand for escaped brackets; the content of a tag has no bracket and no
    line break. *)
Definition piece_ok (p : piece) : bool :=
  match p with
  | Chr c => text_char c
  | Tag t => forallb content_char t
  | _ => true
  end.

Definition pieces_ok (ps : list piece) : bool := forallb piece_ok ps.

Definition is_tag (ps : list piece) : bool :=
  match ps with
  | Tag _ :: _ => true
  | _ => false
  end.

(** No backslash stands directly before a tag or at the end of the content
    of a tag, where it would escape a bracket. *)
Fixpoint escapes_ok (ps : list piece) : bool :=
  match ps with
  | [] => true
  | Chr c :: ps' => negb (Ascii.eqb c "\" && is_tag ps') && escapes_ok ps'
  | Tag t :: ps' => negb (Ascii.eqb (last t " ") "\") && escapes_ok ps'
  | _ :: ps' => escapes_ok ps'
  end.

Definition well_formed (ps : list piece) : bool := pieces_ok ps && escapes_ok ps.

(** What a tag compiles to. *)
Definition compile_tag (t : str) : result str :=
  tag <- FormatTag_init (Some t) (Some ("<", ">")) ;; Ok (full_escseq tag).

(** What a piece compiles to, [eo] and [ec] being the texts for the two
    escaped brackets. *)
Definition compile_piece (eo ec : str) (p : piece) : result str :=
  match p with
  | Tag t => compile_tag ("<" :: t ++ [">"])
  | p => Ok (render eo ec p)
  end.

Fixpoint compile_with (eo ec : str) (ps : list piece) : result str :=
  match ps with
  | [] => Ok []
  | p :: ps' =>
      x <- compile_piece eo ec p ;;
      r <- compile_with eo ec ps' ;;
      Ok (x ++ r)
  end.

(** The compiled text: every tag is replaced by its escape sequence, every
    escaped bracket by the bracket, and the error of the first tag that is
    malformed is raised. *)
Definition compile (ps : list piece) : result str := compile_with (py "<") (py ">") ps.

(** *** Replacing the escaped brackets *)

Lemma replace_from_skip (old new : str) (c : ascii) (s : str) (k : nat) :
  replace_from old new (c :: s) (S k) = replace_from old new s k.
Proof. reflexivity. Qed.

Lemma replace_pair_hit (a b : ascii) (new s : str) :
  replace_from [a; b] new (a :: b :: s) 0 = new ++ replace_from [a; b] new s 0.
Proof. cbn. rewrite !Ascii.eqb_refl. reflexivity. Qed.

Definition starts_with (b : ascii) (s : str) : bool :=
  match s with
  | y :: _ => Ascii.eqb b y
  | [] => false
  end.

Lemma replace_pair_miss (a b : ascii) (new : str) (c : ascii) (s : str) :
  Ascii.eqb a c && starts_with b s = false ->
  replace_from [a; b] new (c :: s) 0 = c :: replace_from [a; b] new s 0.
Proof.
  intros H. cbn [replace_from].
  replace (startswith [a; b] (c :: s)) with (Ascii.eqb a c && starts_with b s).
  - rewrite H. reflexivity.
  - cbn [startswith]. destruct s as [| y s]; [reflexivity |].
    cbn [startswith starts_with]. rewrite andb_true_r. reflexivity.
Qed.

(** A text without the second character of the pair is passed over, unless
    it ends with the first character and the second one follows. *)
Lemma replace_pair_free (a b : ascii) (new t rest : str) :
  Forall (fun c => Ascii.eqb b c = false) t ->
  Ascii.eqb a (last t " ") && starts_with b rest = false ->
  Ascii.eqb a " " = false ->
  replace_from [a; b] new (t ++ rest) 0 = t ++ replace_from [a; b] new rest 0.
Proof.
  intros Ht Hlast Ha. induction Ht as [| c t Hc Ht IH]; [reflexivity |].
  cbn [app]. rewrite replace_pair_miss.
  - f_equal. apply IH. destruct t; [| exact Hlast].
    cbn [last]. rewrite Ha. reflexivity.
  - destruct t as [| c' t].
    + exact Hlast.
    + inversion Ht as [| ? ? Hc' _]; subst. cbn [app starts_with]. rewrite Hc'.
      apply andb_false_r.
Qed.

Lemma text_char_spec (c : ascii) :
  text_char c = true ->
  Ascii.eqb "<" c = false /\ Ascii.eqb ">" c = false
  /\ c <> "<" /\ c <> ">" /\ c <> _BracketsRepl.OPEN /\ c <> _BracketsRepl.CLOSED.
Proof. each_char c; vm_compute; intuition congruence. Qed.

Lemma content_char_spec (c : ascii) :
  content_char c = true ->
  Ascii.eqb "<" c = false /\ Ascii.eqb ">" c = false
  /\ Ascii.eqb c ">" = false /\ Ascii.eqb c NEWLINE = false /\ c <> "<" /\ c <> ">".
Proof. each_char c; vm_compute; intuition congruence. Qed.

(** A character piece that is no bracket, whatever else it is. *)
Definition bracket_free (p : piece) : bool :=
  match p with
  | Chr c => negb (Ascii.eqb c "<") && negb (Ascii.eqb c ">")
  | Tag t => forallb content_char t
  | _ => true
  end.

Lemma bracket_free_char (c : ascii) :
  negb (Ascii.eqb c "<") && negb (Ascii.eqb c ">") = true ->
  Ascii.eqb "<" c = false /\ Ascii.eqb ">" c = false.
Proof. each_char c; vm_compute; intuition congruence. Qed.

Lemma pieces_ok_bracket_free (ps : list piece) :
  pieces_ok ps = true -> forallb bracket_free ps = true.
Proof.
  unfold pieces_ok. rewrite !forallb_forall. intros H p Hp. specialize (H p Hp).
  destruct p as [c | | | t]; try assumption. cbn [piece_ok bracket_free] in *.
  unfold text_char in H. apply andb_prop in H as [H _]. apply andb_prop in H as [H _].
  exact H.
Qed.

(** The first character of the text of pieces that do not begin with a tag
    is no bracket. *)
Lemma starts_with_bracket (eo ec : str) (ps : list piece) (b : ascii) :
  b = "<" \/ b = ">" ->
  starts_with b eo = false -> starts_with b ec = false ->
  eo <> [] -> ec <> [] ->
  forallb bracket_free ps = true -> is_tag ps = false ->
  starts_with b (flat_map (render eo ec) ps) = false.
Proof.
  intros Hb Heo Hec Hneo Hnec Hok Htag.
  destruct ps as [| [c | | | t] ps]; try reflexivity; try discriminate; cbn [flat_map render].
  - cbn [forallb bracket_free] in Hok. apply andb_prop in Hok as [Hc _].
    destruct (bracket_free_char c Hc) as (H1 & H2).
    cbn. destruct Hb as [-> | ->]; assumption.
  - destruct eo; [congruence | exact Heo].
  - destruct ec; [congruence | exact Hec].
Qed.

(** Is the last piece a backslash? *)
Definition ends_backslash (ps : list piece) : bool :=
  match last ps EscOpen with
  | Chr c => Ascii.eqb c "\"
  | _ => false
  end.

Lemma replace_escaped_rest (a b : ascii) (eo ec eo' ec' new : str) (ps : list piece)
    (rest : str) :
  a = "\" -> b = "<" \/ b = ">" ->
  starts_with b eo = false -> starts_with b ec = false -> eo <> [] -> ec <> [] ->
  (forall rest, replace_from [a; b] new (eo ++ rest) 0 = eo' ++ replace_from [a; b] new rest 0) ->
  (forall rest, replace_from [a; b] new (ec ++ rest) 0 = ec' ++ replace_from [a; b] new rest 0) ->
  forallb bracket_free ps = true -> escapes_ok ps = true ->
  ends_backslash ps && starts_with b rest = false ->
  replace_from [a; b] new (flat_map (render eo ec) ps ++ rest) 0
  = flat_map (render eo' ec') ps ++ replace_from [a; b] new rest 0.
Proof.
  intros -> Hb Heo Hec Hneo Hnec Heo' Hec' Hok Hesc Hend.
  induction ps as [| p ps IH]; [reflexivity |].
  cbn [forallb] in Hok. apply andb_prop in Hok as [Hp Hok].
  specialize (IH Hok).
  assert (Hend' : ps <> [] -> ends_backslash ps && starts_with b rest = false).
  { intros Hne. destruct ps as [| p' ps]; [congruence |]. exact Hend. }
  assert (Hrest : is_tag ps = false -> ps <> [] ->
                  starts_with b (flat_map (render eo ec) ps ++ rest) = false).
  { intros Htag Hne.
    pose proof (starts_with_bracket eo ec ps b Hb Heo Hec Hneo Hnec Hok Htag) as H.
    destruct ps as [| p' ps]; [congruence |].
    cbn [flat_map] in *. destruct (render eo ec p') as [| y r] eqn:Er.
    - destruct p'; cbn [render] in Er; try discriminate; congruence.
    - exact H. }
  assert (IH' : escapes_ok ps = true ->
                replace_from ["\"; b] new (flat_map (render eo ec) ps ++ rest) 0
                = flat_map (render eo' ec') ps ++ replace_from ["\"; b] new rest 0).
  { intros He. destruct ps as [| p' ps]; [reflexivity |]. apply IH; [exact He |].
    apply Hend'. discriminate. }
  destruct p as [c | | | t]; cbn [flat_map render escapes_ok bracket_free] in *.
  - apply andb_prop in Hesc as [Hc Hesc]. cbn [app]. rewrite <- (IH' Hesc).
    apply replace_pair_miss.
    destruct (Ascii.eqb_spec "\" c) as [<- | Hne]; [| reflexivity].
    rewrite Ascii.eqb_refl in Hc. cbn [andb] in *.
    destruct ps as [| p' ps].
    + cbn [flat_map app]. cbn in Hend. exact Hend.
    + apply Hrest; [| discriminate]. destruct (is_tag (p' :: ps)); [discriminate | reflexivity].
  - rewrite <- !app_assoc, Heo', (IH' Hesc). reflexivity.
  - rewrite <- !app_assoc, Hec', (IH' Hesc). reflexivity.
  - apply andb_prop in Hesc as [Hlast Hesc]. cbn [app]. rewrite <- !app_assoc.
    cbn [app]. rewrite <- (IH' Hesc). rewrite replace_pair_miss by reflexivity.
    f_equal.
    assert (Hfree : Forall (fun c => Ascii.eqb b c = false) t).
    { apply Forall_forall. intros c Hc. rewrite forallb_forall in Hp.
      destruct (content_char_spec c (Hp c Hc)) as (H1 & H2 & _).
      destruct Hb as [-> | ->]; assumption. }
    rewrite replace_pair_free; [| exact Hfree | | reflexivity].
    + reflexivity.
    + rewrite Ascii.eqb_sym. apply negb_true_iff in Hlast. rewrite Hlast. reflexivity.
Qed.

Lemma replace_escaped (a b : ascii) (eo ec eo' ec' new : str) (ps : list piece) :
  a = "\" -> b = "<" \/ b = ">" ->
  starts_with b eo = false -> starts_with b ec = false -> eo <> [] -> ec <> [] ->
  replace_from [a; b] new eo 0 = eo' -> replace_from [a; b] new ec 0 = ec' ->
  (forall rest, replace_from [a; b] new (eo ++ rest) 0 = eo' ++ replace_from [a; b] new rest 0) ->
  (forall rest, replace_from [a; b] new (ec ++ rest) 0 = ec' ++ replace_from [a; b] new rest 0) ->
  forallb bracket_free ps = true -> escapes_ok ps = true ->
  replace_from [a; b] new (flat_map (render eo ec) ps) 0 = flat_map (render eo' ec') ps.
Proof.
  intros Ha Hb Heo Hec Hneo Hnec _ _ Heo' Hec' Hok Hesc.
  pose proof (replace_escaped_rest a b eo ec eo' ec' new ps [] Ha Hb Heo Hec Hneo Hnec
                Heo' Hec' Hok Hesc) as H.
  rewrite !app_nil_r in H. apply H. apply andb_false_r.
Qed.

Lemma source_marked (ps : list piece) :
  well_formed ps = true ->
  replace ["\"; ">"] [_BracketsRepl.CLOSED] (replace ["\"; "<"] [_BracketsRepl.OPEN] (source ps))
  = marked ps.
Proof.
  intros H. apply andb_prop in H as [Hok Hesc]. apply pieces_ok_bracket_free in Hok.
  unfold replace, source, marked.
  rewrite (replace_escaped "\" "<" (py "\<") (py "\>") [_BracketsRepl.OPEN] (py "\>"));
    try reflexivity; try discriminate; try assumption; [| left; reflexivity].
  apply (replace_escaped "\" ">" [_BracketsRepl.OPEN] (py "\>")
           [_BracketsRepl.OPEN] [_BracketsRepl.CLOSED]);
    try reflexivity; try discriminate; try assumption. right; reflexivity.
Qed.

(** *** The bracket check *)

Lemma marked_balanced (ps : list piece) :
  pieces_ok ps = true -> balanced "<" ">" (marked ps).
Proof.
  unfold marked. induction ps as [| p ps IH]; intros Hok; [constructor |].
  cbn [pieces_ok forallb] in Hok. apply andb_prop in Hok as [Hp Hok]. specialize (IH Hok).
  destruct p as [c | | | t]; cbn [flat_map render app piece_ok] in *.
  - apply balanced_plain; [| exact IH].
    destruct (text_char_spec c Hp) as (_ & _ & H1 & H2 & _). split; assumption.
  - apply balanced_plain; [split; discriminate | exact IH].
  - apply balanced_plain; [split; discriminate | exact IH].
  - rewrite <- app_assoc. apply balanced_tag; [| exact IH].
    apply Forall_forall. intros c Hc. rewrite forallb_forall in Hp.
    destruct (content_char_spec c (Hp c Hc)) as (_ & _ & _ & _ & H1 & H2). split; assumption.
Qed.

Lemma check_brackets_balanced (s : str) :
  balanced "<" ">" s -> _check_brackets_match s ("<", ">") = Ok tt.
Proof.
  intros Hb. unfold _check_brackets_match.
  assert (Hne : "<" <> ">") by discriminate.
  destruct (check_loop_balanced "<" ">" Hne s s Hb 0 0 []) as [obi' Heq].
  rewrite app_nil_r in Heq. rewrite Heq. reflexivity.
Qed.

(** *** The scan for tags *)

(** The parts and the tags of a list of pieces. *)
Fixpoint scan (ps : list piece) : list str * list str :=
  match ps with
  | [] => ([[]], [])
  | Tag t :: ps' =>
      let '(parts, tags) := scan ps' in
      ([] :: parts, ("<" :: t ++ [">"]) :: tags)
  | p :: ps' =>
      let '(parts, tags) := scan ps' in
      (match parts with
       | q :: qs => (render [_BracketsRepl.OPEN] [_BracketsRepl.CLOSED] p ++ q) :: qs
       | [] => [render [_BracketsRepl.OPEN] [_BracketsRepl.CLOSED] p]
       end, tags)
  end.

Lemma re_scan_skip (ob cb : ascii) (u rest : str) :
  re_scan ob cb (u ++ rest) (length u) = re_scan ob cb rest 0.
Proof.
  induction u as [| c u IH]; [reflexivity |]. exact IH.
Qed.

Lemma re_scan_marked (ps : list piece) :
  pieces_ok ps = true -> re_scan "<" ">" (marked ps) 0 = scan ps.
Proof.
  unfold marked. induction ps as [| p ps IH]; intros Hok; [reflexivity |].
  cbn [pieces_ok forallb] in Hok. apply andb_prop in Hok as [Hp Hok]. specialize (IH Hok).
  assert (Hchar : forall c, c <> "<" ->
             re_scan "<" ">" ([c] ++ flat_map (render [_BracketsRepl.OPEN]
                                                 [_BracketsRepl.CLOSED]) ps) 0
             = (let '(parts, tags) := scan ps in
                (match parts with
                 | q :: qs => ([c] ++ q) :: qs
                 | [] => [[c]]
                 end, tags))).
  { intros c Hc. rewrite re_scan_plain by (constructor; [exact Hc | constructor]).
    rewrite IH. destruct (scan ps) as [[| q qs] tags]; reflexivity. }
  destruct p as [c | | | t]; cbn [flat_map render scan piece_ok] in *.
  - apply Hchar. destruct (text_char_spec c Hp) as (_ & _ & H1 & _). exact H1.
  - apply Hchar. discriminate.
  - apply Hchar. discriminate.
  - cbn [app re_scan]. rewrite Ascii.eqb_refl. rewrite <- app_assoc. cbn [app].
    rewrite lazy_until_found.
    2: { apply Forall_forall. intros c Hc. rewrite forallb_forall in Hp.
         destruct (content_char_spec c (Hp c Hc)) as (_ & _ & H1 & H2 & _). auto. }
    assert (Heq : t ++ ">" :: flat_map (render [_BracketsRepl.OPEN] [_BracketsRepl.CLOSED]) ps
                  = (t ++ [">"]) ++ flat_map (render [_BracketsRepl.OPEN]
                                                [_BracketsRepl.CLOSED]) ps)
      by (rewrite <- app_assoc; reflexivity).
    rewrite Heq.
    replace (S (length t)) with (length (t ++ [">"])) by (rewrite length_app; simpl; lia).
    rewrite re_scan_skip, IH, firstn_app, firstn_all, Nat.sub_diag. cbn [firstn].
    rewrite app_nil_r. destruct (scan ps) as [parts tags]. reflexivity.
Qed.

Lemma scan_lengths (ps : list piece) :
  length (fst (scan ps)) = S (length (snd (scan ps))).
Proof.
  induction ps as [| p ps IH]; [reflexivity |].
  destruct p; cbn [scan]; destruct (scan ps) as [[| q qs] tags]; cbn [fst snd length] in *;
    congruence.
Qed.

(** *** Putting the parts and the escape sequences together *)

Definition weave (parts escseqs : list str) : str :=
  concat (map (fun ps => fst ps ++ snd ps) (combine parts escseqs)) ++ last parts [].

Lemma weave_text (c q : str) (qs es : list str) :
  length qs = length es -> weave ((c ++ q) :: qs) es = c ++ weave (q :: qs) es.
Proof.
  intros Hlen. unfold weave. destruct es as [| e es].
  - destruct qs; [| discriminate]. reflexivity.
  - destruct qs as [| q' qs]; [discriminate |].
    cbn [combine map concat fst snd]. rewrite <- !app_assoc.
    change (last ((c ++ q) :: q' :: qs) []) with (last (q' :: qs) (@nil ascii)).
    change (last (q :: q' :: qs) []) with (last (q' :: qs) (@nil ascii)). reflexivity.
Qed.

Lemma weave_tag (parts es : list str) (e : str) :
  parts <> [] -> weave ([] :: parts) (e :: es) = e ++ weave parts es.
Proof.
  intros Hne. unfold weave. destruct parts as [| q qs]; [congruence |].
  cbn [combine map concat fst snd app]. rewrite <- app_assoc. reflexivity.
Qed.

Lemma map_result_length {A B} (f : A -> result B) (xs : list A) (ys : list B) :
  map_result f xs = Ok ys -> length ys = length xs.
Proof.
  revert ys. induction xs as [| x xs IH]; intros ys; cbn [map_result].
  - intros [= <-]. reflexivity.
  - destruct (f x) as [y | e]; [| discriminate]. cbn [bind].
    destruct (map_result f xs) as [ys' | e]; [| discriminate]. cbn [bind].
    intros [= <-]. cbn. f_equal. apply IH. reflexivity.
Qed.

Lemma weave_scan (ps : list piece) :
  (escseqs <- map_result compile_tag (snd (scan ps)) ;; Ok (weave (fst (scan ps)) escseqs))
  = compile_with [_BracketsRepl.OPEN] [_BracketsRepl.CLOSED] ps.
Proof.
  induction ps as [| p ps IH]; [reflexivity |].
  pose proof (scan_lengths ps) as Hlen.
  assert (Htext : forall c,
             (escseqs <- map_result compile_tag (snd (scan ps)) ;;
              Ok (weave (match fst (scan ps) with
                         | q :: qs => (c ++ q) :: qs
                         | [] => [c]
                         end) escseqs))
             = (r <- compile_with [_BracketsRepl.OPEN] [_BracketsRepl.CLOSED] ps ;;
                Ok (c ++ r))).
  { intros c. rewrite <- IH.
    destruct (map_result compile_tag (snd (scan ps))) as [es |] eqn:Hes; [| reflexivity].
    apply map_result_length in Hes. cbn [bind].
    destruct (fst (scan ps)) as [| q qs]; [discriminate |].
    rewrite weave_text; [reflexivity |]. cbn [length] in Hlen. lia. }
  destruct p as [c | | | t]; cbn [scan compile_with compile_piece render bind].
  - specialize (Htext [c]). destruct (scan ps) as [parts tags]. exact Htext.
  - specialize (Htext [_BracketsRepl.OPEN]). destruct (scan ps) as [parts tags]. exact Htext.
  - specialize (Htext [_BracketsRepl.CLOSED]). destruct (scan ps) as [parts tags]. exact Htext.
  - rewrite <- IH. destruct (scan ps) as [parts tags]. cbn [fst snd map_result] in *.
    destruct (compile_tag ("<" :: t ++ [">"])) as [e |]; [| reflexivity]. cbn [bind].
    destruct (map_result compile_tag tags) as [es |]; [| reflexivity]. cbn [bind].
    rewrite weave_tag; [reflexivity |]. destruct parts; discriminate.
Qed.

(** *** The escape sequences of a parsed tag *)

(** The modes and colors that the scan of a tag has collected have codes of
    digits and semicolons. *)
Definition sgr_locals (l : Locals.t) : Prop :=
  sgr_resets (Modes (Locals.resets l)) = true
  /\ sgr_styles (Modes (Locals.styles l)) = true
  /\ sgr_resets (Modes (Locals.resets_of_styles l)) = true
  /\ sgr_color (Locals.fg_color l) = true
  /\ sgr_color (Locals.bg_color l) = true.

Lemma color_lookup_sgr (c : ascii) (m : ColorMode) :
  dict_get _COLOR_MODES_FOR_FORMAT_CHARS [c] = Some m ->
  sgr_color (Some (ColorOfMode m)) = true.
Proof.
  each_char c; vm_compute; intros H; first [discriminate H | injection H as <-; reflexivity].
Qed.

Lemma style_lookup_sgr (c : ascii) (m : StyleMode) :
  dict_get _STYLE_MODES_FOR_FORMAT_CHARS [c] = Some m ->
  sgr_code (esc_code (style_esc m)) = true
  /\ sgr_code (esc_code (reset_esc (style_reset_mode m))) = true.
Proof.
  each_char c; vm_compute; intros H;
    first [discriminate H | injection H as <-; split; reflexivity].
Qed.

Lemma reset_lookup_sgr (c : ascii) (m : ResetMode) :
  dict_get _RESET_MODES_FOR_FORMAT_CHARS [c] = Some m ->
  sgr_code (esc_code (reset_esc m)) = true.
Proof.
  each_char c; vm_compute; intros H; first [discriminate H | injection H as <-; reflexivity].
Qed.

Lemma forallb_append_if_not_in {A} (dec : forall a b : A, {a = b} + {a <> b})
    (P : A -> bool) (ls : list A) (v : A) :
  forallb P ls = true -> P v = true -> forallb P (_append_if_not_in_list dec ls v) = true.
Proof.
  intros Hls Hv. unfold _append_if_not_in_list. destruct (in_dec dec v ls); [exact Hls |].
  rewrite forallb_app, Hls. simpl. rewrite Hv. reflexivity.
Qed.

Lemma set_n_256_color_sgr (sv tc : str) (i k : nat) (l l' : Locals.t) :
  sgr_locals l -> set_n_256_color sv tc i k l = Ok l' -> sgr_locals l'.
Proof.
  intros (H1 & H2 & H3 & H4 & H5). unfold set_n_256_color.
  destruct (n_256_start l); [| intros [= <-]; repeat split; assumption].
  unfold _parse_256_color. destruct (int_of_digits _) as [v |]; [| discriminate].
  destruct (255 <? v)%N; [discriminate |].
  destruct (Locals.bg_marker l); cbn [bind]; intros [= <-]; repeat split; assumption.
Qed.

Lemma key_action_sgr (sv : str) (c : ascii) (l l' : Locals.t) :
  sgr_locals l -> key_action sv c l = Ok l' -> sgr_locals l'.
Proof.
  intros (H1 & H2 & H3 & H4 & H5). unfold key_action.
  destruct (Locals.bg_marker l).
  - destruct (dict_get _COLOR_MODES_FOR_FORMAT_CHARS [c]) as [m |] eqn:E; [| discriminate].
    intros [= <-]. repeat split; try assumption. apply (color_lookup_sgr c m E).
  - destruct (Locals.reset_marker l).
    + destruct (dict_get _RESET_MODES_FOR_FORMAT_CHARS [c]) as [m |] eqn:E; [| discriminate].
      intros [= <-]. repeat split; try assumption.
      apply forallb_append_if_not_in; [exact H1 | apply (reset_lookup_sgr c m E)].
    + destruct (dict_get _STYLE_MODES_FOR_FORMAT_CHARS [c]) as [m |] eqn:E.
      * destruct (style_lookup_sgr c m E) as [Hm Hr].
        intros [= <-]. repeat split; try assumption;
          apply forallb_append_if_not_in; assumption.
      * destruct (dict_get _COLOR_MODES_FOR_FORMAT_CHARS [c]) as [m |] eqn:E';
          intros [= <-]; repeat split; try assumption.
        apply (color_lookup_sgr c m E').
Qed.

Lemma loop_body_sgr (sv tc : str) (i : nat) (c : ascii) (l l' : Locals.t) :
  sgr_locals l -> loop_body sv tc i c l = Ok l' -> sgr_locals l'.
Proof.
  intros Hl.
  assert (Hset : forall l1, set_n_256_color sv tc i 0 l = Ok l1 -> sgr_locals l1)
    by (intros l1; apply set_n_256_color_sgr; exact Hl).
  destruct (char_cases c) as [-> | [-> | [H | [H | [H | H]]]]].
  - rewrite loop_body_hash. destruct (reset_marker l); [discriminate |].
    destruct (bg_marker l); [discriminate |].
    destruct (set_n_256_color sv tc i 0 l) as [l1 |]; [| discriminate].
    cbn [bind]. intros [= <-]. destruct (Hset l1 eq_refl) as (? & ? & ? & ? & ?).
    repeat split; assumption.
  - rewrite loop_body_bang. destruct (reset_marker l); [discriminate |].
    destruct (bg_marker l); [discriminate |].
    destruct (set_n_256_color sv tc i 0 l) as [l1 |]; [| discriminate].
    cbn [bind]. intros [= <-]. destruct (Hset l1 eq_refl) as (? & ? & ? & ? & ?).
    repeat split; assumption.
  - destruct H as (Hs & Hm & _). rewrite loop_body_separator by assumption.
    destruct (reset_marker l); [discriminate |].
    destruct (set_n_256_color sv tc i 0 l) as [l1 |]; [| discriminate].
    cbn [bind]. destruct (bg_marker l1); [discriminate |]. intros [= <-]. auto.
  - destruct H as (Hd & Hs & Hm & _). rewrite loop_body_digit by assumption.
    destruct (reset_marker l); [discriminate |].
    destruct Hl as (? & ? & ? & ? & ?).
    destruct (n_256_start l); intros [= <-]; repeat split; assumption.
  - destruct H as (Hk & _). rewrite loop_body_key by assumption.
    destruct (set_n_256_color sv tc i 0 l) as [l1 |]; [| discriminate].
    cbn [bind]. apply key_action_sgr. auto.
  - destruct H as (Hk & Hd & Hs & Hm). rewrite loop_body_other by assumption. discriminate.
Qed.

Lemma loop_sgr (sv tc rest : str) :
  forall i l l', sgr_locals l -> loop sv tc i rest l = Ok l' -> sgr_locals l'.
Proof.
  induction rest as [| c rest IH]; intros i l l' Hl; cbn [loop].
  - intros [= <-]. exact Hl.
  - destruct (loop_body sv tc i c l) as [l1 |] eqn:E; [| discriminate]. cbn [bind].
    apply IH. eapply loop_body_sgr; eauto.
Qed.

Lemma sgr_locals_init : sgr_locals Locals.init.
Proof. repeat split. Qed.

Lemma calc_mode_attrs_sgr (sv : str) (brackets : ascii * ascii) (l : Locals.t) :
  _calc_mode_attrs sv brackets = Ok l -> sgr_locals l.
Proof.
  destruct brackets as [ob cb]. unfold _calc_mode_attrs.
  destruct (negb _); [discriminate |].
  destruct (Nat.ltb 0 _); [| intros [= <-]; apply sgr_locals_init].
  destruct (loop sv _ 0 _ Locals.init) as [l0 |] eqn:E; [| discriminate]. cbn [bind].
  pose proof (loop_sgr _ _ _ _ _ _ sgr_locals_init E) as H0.
  destruct (char_in _ _); [discriminate |].
  destruct (n_256_start l0); [| intros [= <-]; exact H0].
  apply set_n_256_color_sgr. exact H0.
Qed.

(** The full escape sequence of a parsed tag is empty or an escape sequence
    of digits and semicolons. *)
Lemma compile_tag_escseq (t e : str) : compile_tag t = Ok e -> is_escseq e.
Proof.
  unfold compile_tag, FormatTag_init.
  destruct (_calc_mode_attrs t ("<", ">")) as [l |] eqn:E; [| discriminate].
  cbn [bind full_escseq]. intros [= <-].
  destruct (calc_mode_attrs_sgr _ _ _ E) as (H1 & H2 & H3 & H4 & H5).
  apply escseq_is_escseq; assumption.
Qed.

(** *** Putting the brackets back *)

Lemma replace_char (c : ascii) (new s : str) :
  replace [c] new s = flat_map (fun x => if Ascii.eqb c x then new else [x]) s.
Proof.
  unfold replace. induction s as [| x s IH]; [reflexivity |].
  cbn [replace_from startswith flat_map]. rewrite andb_true_r.
  destruct (Ascii.eqb c x); cbn [length Nat.sub]; rewrite IH; reflexivity.
Qed.

(** The last two replacements of [fancyformat]. *)
Definition unmark (s : str) : str :=
  replace [_BracketsRepl.CLOSED] (py ">") (replace [_BracketsRepl.OPEN] (py "<") s).

Lemma unmark_app (a b : str) : unmark (a ++ b) = unmark a ++ unmark b.
Proof. unfold unmark. rewrite !replace_char, !flat_map_app. reflexivity. Qed.

Lemma unmark_plain (s : str) :
  Forall (fun c => c <> _BracketsRepl.OPEN /\ c <> _BracketsRepl.CLOSED) s -> unmark s = s.
Proof.
  intros H. unfold unmark. rewrite !replace_char.
  induction H as [| c s [H1 H2] _ IH]; [reflexivity |].
  cbn [flat_map]. apply not_eq_sym in H1, H2.
  apply Ascii.eqb_neq in H1, H2. rewrite H1. cbn [app flat_map]. rewrite H2.
  cbn [app]. f_equal. exact IH.
Qed.

Lemma escseq_chars (e : str) (P : ascii -> Prop) :
  is_escseq e -> P ESC -> P "[" -> P "m" -> (forall c, sgr_char c = true -> P c) ->
  Forall P e.
Proof.
  intros [-> | (codes & Hcodes & ->)] H1 H2 H3 H4; [constructor |].
  constructor; [exact H1 |]. constructor; [exact H2 |].
  apply Forall_app. split; [| constructor; [exact H3 | constructor]].
  unfold sgr_text in Hcodes. apply andb_prop in Hcodes as [_ Hall].
  rewrite forallb_forall in Hall. apply Forall_forall. auto.
Qed.

Lemma unmark_escseq (e : str) : is_escseq e -> unmark e = e.
Proof.
  intros He. apply unmark_plain. apply escseq_chars; try exact He;
    try (split; discriminate).
  intros c Hc. destruct (sgr_char_not_end c Hc) as (_ & _ & _ & H1 & H2 & _). auto.
Qed.

Lemma compile_unmark (ps : list piece) :
  pieces_ok ps = true ->
  (r <- compile_with [_BracketsRepl.OPEN] [_BracketsRepl.CLOSED] ps ;; Ok (unmark r))
  = compile ps.
Proof.
  unfold compile. induction ps as [| p ps IH]; intros Hok; [reflexivity |].
  cbn [pieces_ok forallb] in Hok. apply andb_prop in Hok as [Hp Hok]. specialize (IH Hok).
  cbn [compile_with]. rewrite <- IH.
  destruct p as [c | | | t]; cbn [compile_piece render bind piece_ok] in *.
  - destruct (compile_with _ _ ps) as [r |]; [| reflexivity]. cbn [bind].
    rewrite unmark_app. f_equal. f_equal. apply unmark_plain.
    destruct (text_char_spec c Hp) as (_ & _ & _ & _ & H1 & H2). repeat constructor; assumption.
  - destruct (compile_with _ _ ps) as [r |]; [| reflexivity]. cbn [bind].
    rewrite unmark_app. reflexivity.
  - destruct (compile_with _ _ ps) as [r |]; [| reflexivity]. cbn [bind].
    rewrite unmark_app. reflexivity.
  - destruct (compile_tag ("<" :: t ++ [">"])) as [e |] eqn:E; [| reflexivity]. cbn [bind].
    destruct (compile_with _ _ ps) as [r |]; [| reflexivity]. cbn [bind].
    rewrite unmark_app, (unmark_escseq e (compile_tag_escseq _ _ E)). reflexivity.
Qed.

(** *** The compiler *)

Lemma compile_with_app (eo ec : str) (ps qs : list piece) :
  compile_with eo ec (ps ++ qs)
  = (x <- compile_with eo ec ps ;; y <- compile_with eo ec qs ;; Ok (x ++ y)).
Proof.
  induction ps as [| p ps IH]; cbn [app compile_with bind].
  - destruct (compile_with eo ec qs); reflexivity.
  - destruct (compile_piece eo ec p) as [x |]; [| reflexivity]. cbn [bind]. rewrite IH.
    destruct (compile_with eo ec ps) as [r |]; [| reflexivity]. cbn [bind].
    destruct (compile_with eo ec qs) as [y |]; [| reflexivity]. cbn [bind].
    rewrite app_assoc. reflexivity.
Qed.

(** The reset tag that a flag of [fancyformat] adds. *)
Definition reset_tag (flag : bool) : list piece := if flag then [Tag (py "!a")] else [].

Definition reset_seq (flag : bool) : str :=
  if flag then esc_seq (reset_esc RESET_ALL) else [].

Lemma compile_reset_tags (ps : list piece) (sr er : bool) :
  compile (reset_tag sr ++ ps ++ reset_tag er)
  = (r <- compile ps ;; Ok (reset_seq sr ++ r ++ reset_seq er)).
Proof.
  unfold compile. rewrite !compile_with_app.
  assert (Htag : forall eo ec flag, compile_with eo ec (reset_tag flag) = Ok (reset_seq flag))
    by (intros eo ec []; reflexivity).
  rewrite !Htag. cbn [bind].
  destruct (compile_with (py "<") (py ">") ps) as [r |]; reflexivity.
Qed.

Lemma fancyformat_source (ps : list piece) (sr er : bool) :
  well_formed ps = true ->
  fancyformat (source ps) (Some ("<", ">")) sr er
  = (r <- compile ps ;; Ok (reset_seq sr ++ r ++ reset_seq er)).
Proof.
  intros Hwf. pose proof Hwf as Hwf'. apply andb_prop in Hwf' as [Hok _].
  unfold fancyformat. cbv beta zeta iota. rewrite (source_marked ps Hwf).
  rewrite (check_brackets_balanced _ (marked_balanced ps Hok)). cbn [bind].
  assert (Hplace : _place_reset_all_tags (marked ps) sr er
                   = marked (reset_tag sr ++ ps ++ reset_tag er)).
  { unfold _place_reset_all_tags, marked. rewrite !flat_map_app.
    destruct sr, er; cbn [reset_tag flat_map render app]; rewrite ?app_nil_r; reflexivity. }
  assert (Hok' : pieces_ok (reset_tag sr ++ ps ++ reset_tag er) = true).
  { unfold pieces_ok. rewrite !forallb_app. fold (pieces_ok ps). rewrite Hok.
    destruct sr, er; reflexivity. }
  rewrite Hplace. unfold re_findall_tags, re_split_tags. cbn [fst snd].
  rewrite (re_scan_marked _ Hok').
  rewrite <- compile_reset_tags, <- (compile_unmark _ Hok'), <- weave_scan.
  fold compile_tag.
  destruct (map_result compile_tag (snd (scan (reset_tag sr ++ ps ++ reset_tag er))));
    reflexivity.
Qed.





Lemma source_app (ps qs : list piece) : source (ps ++ qs) = source ps ++ source qs.
Proof. apply flat_map_app. Qed.



(** *** Escaped texts *)

(** The piece of a character of an escaped text. *)
Definition esc_piece (c : ascii) : piece :=
  if Ascii.eqb c "<" then EscOpen else if Ascii.eqb c ">" then EscClosed else Chr c.

Lemma put_backslash_source (s : str) :
  _put_backslash_before_tag_brackets s ("<", ">") = source (map esc_piece s).
Proof.
  unfold _put_backslash_before_tag_brackets, source. rewrite !replace_char.
  induction s as [| c s IH]; [reflexivity |].
  cbn [flat_map map]. rewrite flat_map_app, IH. f_equal.
  unfold esc_piece. each_char c; reflexivity.
Qed.

Lemma esc_pieces_escapes_ok (s : str) : escapes_ok (map esc_piece s) = true.
Proof.
  induction s as [| c s IH]; [reflexivity |].
  cbn [map]. assert (Htag : is_tag (map esc_piece s) = false).
  { destruct s as [| c' s]; [reflexivity |]. cbn [map is_tag]. unfold esc_piece.
    destruct (Ascii.eqb c' "<"), (Ascii.eqb c' ">"); reflexivity. }
  unfold esc_piece at 1.
  destruct (Ascii.eqb c "<"); [exact IH |]. destruct (Ascii.eqb c ">"); [exact IH |].
  cbn [escapes_ok]. rewrite Htag, andb_false_r. exact IH.
Qed.

Lemma esc_pieces_bracket_free (s : str) : forallb bracket_free (map esc_piece s) = true.
Proof.
  induction s as [| c s IH]; [reflexivity |].
  cbn [map forallb]. rewrite IH, andb_true_r. unfold esc_piece.
  destruct (Ascii.eqb c "<") eqn:E1; [reflexivity |].
  destruct (Ascii.eqb c ">") eqn:E2; [reflexivity |].
  cbn [bracket_free]. rewrite E1, E2. reflexivity.
Qed.

Lemma esc_pieces_render (s : str) : flat_map (render (py "<") (py ">")) (map esc_piece s) = s.
Proof.
  induction s as [| c s IH]; [reflexivity |].
  cbn [map flat_map]. rewrite IH. unfold esc_piece.
  destruct (Ascii.eqb_spec c "<") as [-> | H1]; [reflexivity |].
  destruct (Ascii.eqb_spec c ">") as [-> | H2]; reflexivity.
Qed.

(** X8: putting backslashes before the brackets of a text and removing them
    again yields the text, whatever the text is. *)
Theorem remove_put_backslash (s : str) :
  _remove_backslash_before_brackets (_put_backslash_before_tag_brackets s ("<", ">")) = s.
Proof.
  rewrite put_backslash_source. unfold _remove_backslash_before_brackets, source, replace.
  rewrite (replace_escaped "\" "<" (py "\<") (py "\>") (py "<") (py "\>"));
    try reflexivity; try discriminate;
    [| left; reflexivity | apply esc_pieces_bracket_free | apply esc_pieces_escapes_ok ].
  rewrite (replace_escaped "\" ">" (py "<") (py "\>") (py "<") (py ">"));
    try reflexivity; try discriminate;
    [| right; reflexivity | apply esc_pieces_bracket_free | apply esc_pieces_escapes_ok ].
  apply esc_pieces_render.
Qed.

(** X9: a text whose brackets are escaped compiles to the text itself, provided
    it has none of the two characters that stand for escaped brackets. *)
Theorem fancyformat_escaped (s : str) :
  Forall (fun c => c <> _BracketsRepl.OPEN /\ c <> _BracketsRepl.CLOSED) s ->
  fancyformat (_put_backslash_before_tag_brackets s ("<", ">")) None false false = Ok s.
Proof.
  intros Hs. rewrite put_backslash_source.
  change (fancyformat ?s None ?a ?b) with (fancyformat s (Some ("<", ">")) a b).
  rewrite fancyformat_source.
  - assert (Hc : compile (map esc_piece s) = Ok s).
    { unfold compile. clear Hs. induction s as [| c s IH]; [reflexivity |].
      cbn [map compile_with]. rewrite IH. unfold esc_piece.
      destruct (Ascii.eqb_spec c "<") as [-> | H1]; [reflexivity |].
      destruct (Ascii.eqb_spec c ">") as [-> | H2]; reflexivity. }
    rewrite Hc. cbn [bind reset_seq app]. rewrite app_nil_r. reflexivity.
  - unfold well_formed. rewrite esc_pieces_escapes_ok, andb_true_r.
    unfold pieces_ok. induction Hs as [| c s [H1 H2] _ IH]; [reflexivity |].
    cbn [map forallb]. rewrite IH, andb_true_r. unfold esc_piece.
    destruct (Ascii.eqb c "<") eqn:E1; [reflexivity |].
    destruct (Ascii.eqb c ">") eqn:E2; [reflexivity |].
    cbn [piece_ok]. unfold text_char. rewrite E1, E2.
    apply Ascii.eqb_neq in H1, H2. rewrite H1, H2. reflexivity.
Qed.

Lemma fancyformat_escaped_witness :
  fancyformat (_put_backslash_before_tag_brackets (py "if a<b and b>c: \<") ("<", ">"))
    None false false
  = Ok (py "if a<b and b>c: \<").
Proof.
  apply fancyformat_escaped. repeat constructor; discriminate.
Defined.

(** *** The visible text *)

(** The text of a format string that is no tag, with its escaped brackets
    as brackets. *)
Definition visible_with (eo ec : str) (ps : list piece) : str :=
  flat_map (fun p => match p with Tag _ => [] | p => render eo ec p end) ps.

Definition visible (ps : list piece) : str := visible_with (py "<") (py ">") ps.

(** The character pieces have no escape character. *)
Definition no_escape (ps : list piece) : bool :=
  forallb (fun p => match p with Chr c => negb (Ascii.eqb c ESC) | _ => true end) ps.


Lemma compile_visible (ps : list piece) :
  no_escape ps = true ->
  forall out, compile ps = Ok out -> unfancy out = visible ps.
Proof.
  unfold compile, unfancy, visible, visible_with.
  induction ps as [| p ps IH]; intros Hne out; cbn [compile_with].
  - intros [= <-]. reflexivity.
  - cbn [no_escape forallb] in Hne. apply andb_prop in Hne as [Hp Hne].
    specialize (IH Hne).
    destruct (compile_piece (py "<") (py ">") p) as [x |] eqn:Ex; [| discriminate].
    cbn [bind]. destruct (compile_with (py "<") (py ">") ps) as [r |]; [| discriminate].
    cbn [bind]. intros [= <-]. cbn [flat_map]. rewrite <- (IH r eq_refl).
    destruct p as [c | | | t]; cbn [compile_piece render] in *.
    + injection Ex as <-. apply unfancy_from_text. constructor; [| constructor].
      apply Ascii.eqb_neq. apply negb_true_iff. exact Hp.
    + injection Ex as <-. apply unfancy_from_text. repeat constructor. discriminate.
    + injection Ex as <-. apply unfancy_from_text. repeat constructor. discriminate.
    + cbn [app]. apply unfancy_from_escseq. eapply compile_tag_escseq. exact Ex.
Qed.






Lemma no_escape_resets (ps : list piece) (sr er : bool) :
  no_escape ps = true -> no_escape (reset_tag sr ++ ps ++ reset_tag er) = true.
Proof.
  intros H. unfold no_escape in *. rewrite !forallb_app, H. destruct sr, er; reflexivity.
Qed.

Lemma visible_resets (ps : list piece) (sr er : bool) :
  visible (reset_tag sr ++ ps ++ reset_tag er) = visible ps.
Proof.
  unfold visible, visible_with. rewrite !flat_map_app.
  destruct sr, er; cbn [reset_tag flat_map app]; rewrite ?app_nil_r; reflexivity.
Qed.

Lemma unfancy_compiled (ps : list piece) (start_reset_all end_reset_all : bool) (out : str) :
  well_formed ps = true -> no_escape ps = true ->
  fancyformat (source ps) None start_reset_all end_reset_all = Ok out ->
  unfancy out = visible ps.
Proof.
  intros Hwf Hne Hout.
  change (fancyformat ?s None ?a ?b) with (fancyformat s (Some ("<", ">")) a b) in Hout.
  rewrite fancyformat_source, <- compile_reset_tags in Hout by assumption.
  apply compile_visible in Hout; [| apply no_escape_resets; exact Hne].
  rewrite visible_resets in Hout. exact Hout.
Qed.



(** X11: a centered format string is as wide as asked for. For a
    well-formed format string that has no escape character outside its
    tags, and a filler of one character that is not the escape character,
    the visible text of the result is the centered visible text of the
    format string: it has [width] characters when the visible text of the
    format string is no wider, and is that text otherwise. *)
Theorem fancyformat_centered_width (ps : list piece) (width : Z) (al : Alignment)
    (filler : ascii) (start_reset_all end_reset_all : bool) (out : str) :
  well_formed ps = true -> no_escape ps = true -> filler <> ESC ->
  fancyformat_centered (source ps) width al [filler] None start_reset_all end_reset_all
  = Ok out ->
  unfancy out = center_str (visible ps) width [filler] al
  /\ len (unfancy out) = Z.max width (len (visible ps)).
Proof.
  intros Hwf Hne Hf. unfold fancyformat_centered.
  destruct (fancyformat (source ps) None start_reset_all end_reset_all) as [text |] eqn:E;
    [| discriminate].
  cbn [bind]. rewrite (unfancy_compiled ps _ _ text Hwf Hne E).
  change (fancyformat ?s None ?a ?b) with (fancyformat s (Some ("<", ">")) a b) in E.
  rewrite fancyformat_source, <- compile_reset_tags in E by assumption.
  assert (Hplain : forall n, Forall (fun c => c <> ESC) (str_mul [filler] n)).
  { intros n. apply str_mul_plain. constructor; [exact Hf | constructor]. }
  assert (Hun : forall a b, Forall (fun c => c <> ESC) a -> Forall (fun c => c <> ESC) b ->
                       unfancy (a ++ text ++ b) = a ++ visible ps ++ b).
  { intros a b Ha Hb. unfold unfancy. rewrite unfancy_from_text by assumption. f_equal.
    pose proof (no_escape_resets ps start_reset_all end_reset_all Hne) as Hne'.
    pose proof (fun qs Hq out' H => compile_visible qs Hq out' H) as Hcv.
    assert (Hb' : no_escape (map Chr b) = true).
    { unfold no_escape. rewrite forallb_forall. intros p Hp.
      apply in_map_iff in Hp as (c & <- & Hc). rewrite Forall_forall in Hb.
      apply negb_true_iff. apply Ascii.eqb_neq. auto. }
    specialize (Hcv ((reset_tag start_reset_all ++ ps ++ reset_tag end_reset_all) ++ map Chr b)).
    unfold no_escape in Hcv, Hne', Hb'. rewrite forallb_app, Hne', Hb' in Hcv.
    specialize (Hcv eq_refl (text ++ b)).
    unfold compile in Hcv, E. rewrite compile_with_app, E in Hcv. cbn [bind] in Hcv.
    assert (Hcb : compile_with (py "<") (py ">") (map Chr b) = Ok b).
    { clear. induction b as [| c b IH]; [reflexivity |]. cbn [map compile_with].
      rewrite IH. reflexivity. }
    rewrite Hcb in Hcv. cbn [bind] in Hcv. specialize (Hcv eq_refl).
    unfold unfancy in Hcv. rewrite Hcv. unfold visible, visible_with.
    rewrite !flat_map_app.
    assert (Hvb : flat_map (fun p => match p with
                                     | Tag _ => []
                                     | p => render (py "<") (py ">") p
                                     end) (map Chr b) = b).
    { clear. induction b as [| c b IH]; [reflexivity |]. cbn [map flat_map].
      rewrite IH. reflexivity. }
    rewrite Hvb. f_equal.
    destruct start_reset_all, end_reset_all; cbn [reset_tag flat_map app];
      rewrite ?app_nil_r; reflexivity. }
  unfold center_str. destruct (_lrspaces (len (visible ps)) width al) as [l r] eqn:El.
  intros [= <-]. split.
  - apply Hun; apply Hplain.
  - rewrite Hun by apply Hplain.
    pose proof (lrspaces_bounds (len (visible ps)) width al) as Hb.
    rewrite El in Hb. destruct Hb as (Hsum & Hpos & Hneg).
    unfold len in *. rewrite !length_app, !length_str_mul. cbn [length].
    destruct (Z.le_ge_cases 0 (width - Z.of_nat (length (visible ps)))) as [Hle | Hge].
    + destruct (Hpos Hle). lia.
    + destruct (Hneg Hge). lia.
Qed.

Lemma fancyformat_centered_width_witness :
  let ps := [Chr "a"; Tag (py "f,r"); Chr "b"; EscOpen; Chr "c"; EscClosed; Tag (py "!a")] in
  let out := py "**a" ++ ESC :: py "[1;31mb<c>" ++ ESC :: py "[0m" ++ ESC :: py "[0m**" in
  unfancy out = center_str (visible ps) 9 ["*"] RIGHT
  /\ len (unfancy out) = Z.max 9 (len (visible ps)).
Proof.
  intros ps out. apply (fancyformat_centered_width ps 9 RIGHT "*" false true out);
    first [ discriminate | vm_compute; reflexivity ].
Defined.

(** ** Marking an input *)

(** The characters that [escape_controls] yields for a character that is
    no bracket: none of them is a control character, a bracket or one of
    the characters that stand for escaped brackets. *)
Lemma escape_controls_char (c : ascii) :
  c <> "<" -> c <> ">" ->
  forallb (fun x => text_char x && Nat.leb 32 (nat_of_ascii x)) (escape_controls [c]) = true.
Proof.
  each_char c; intros H1 H2; first [ reflexivity | exfalso; apply H1; reflexivity
                                   | exfalso; apply H2; reflexivity ].
Qed.

Lemma escape_controls_app (a b : str) :
  escape_controls (a ++ b) = escape_controls a ++ escape_controls b.
Proof. apply flat_map_app. Qed.

Lemma escape_controls_chars (s : str) :
  Forall (fun c => c <> "<" /\ c <> ">") s ->
  forallb (fun x => text_char x && Nat.leb 32 (nat_of_ascii x)) (escape_controls s) = true.
Proof.
  induction 1 as [| c s [H1 H2] _ IH]; [reflexivity |].
  change (c :: s) with ([c] ++ s). rewrite escape_controls_app, forallb_app, IH.
  rewrite (escape_controls_char c H1 H2). reflexivity.
Qed.

(** The loop of [_prepare_input_marking] passes over characters that are no
    brackets and counts the tabs among them when no tag is open. *)
Lemma prepare_loop_free (inp t rest result : str) (in_tag : bool) (start : nat) :
  Forall (fun c => c <> "<" /\ c <> ">") t ->
  forall i tabs,
    prepare_loop inp i (t ++ rest) result in_tag start tabs
    = prepare_loop inp (i + length t) rest result in_tag start
        (if in_tag then tabs else tabs + count_occ ascii_dec t TAB).
Proof.
  induction 1 as [| c t [H1 H2] _ IH]; intros i tabs.
  - cbn [app length count_occ]. rewrite !Nat.add_0_r. destruct in_tag; reflexivity.
  - cbn [app prepare_loop length]. apply Ascii.eqb_neq in H1, H2.
    destruct (Ascii.eqb_spec c TAB) as [-> | Hc].
    + rewrite IH. f_equal; [lia |]. destruct in_tag; cbn [negb]; [reflexivity |].
      cbn [count_occ]. destruct (ascii_dec TAB TAB); [lia | congruence].
    + rewrite H1, H2, IH. f_equal; [lia |]. destruct in_tag; [reflexivity |].
      cbn [count_occ]. destruct (ascii_dec c TAB); [congruence | reflexivity].
Qed.

Lemma slice_all (s : str) : slice s 0 (length s) = s.
Proof. unfold slice. rewrite Nat.sub_0_r. cbn [skipn]. apply firstn_all. Qed.

Lemma prepare_input_marking_free (inp : str) :
  Forall (fun c => c <> "<" /\ c <> ">") inp ->
  _prepare_input_marking inp = (escape_controls inp, count_occ ascii_dec inp TAB).
Proof.
  intros H. unfold _prepare_input_marking.
  rewrite (prepare_loop_free inp inp (py "<") [] false 0 H 0 0).
  cbn [prepare_loop py list_ascii_of_string]. cbn [Ascii.eqb Bool.eqb TAB].
  cbn [Nat.add app]. rewrite slice_all. reflexivity.
Qed.

Lemma escapes_ok_chars (ps : list piece) (s : str) :
  escapes_ok ps = true -> escapes_ok (ps ++ map Chr s) = true.
Proof.
  assert (Hs : forall s, escapes_ok (map Chr s) = true /\ is_tag (map Chr s) = false).
  { clear. induction s as [| c s [IH1 IH2]]; [split; reflexivity |].
    split; [| reflexivity]. cbn [map escapes_ok]. rewrite IH1, IH2, andb_false_r. reflexivity. }
  induction ps as [| p ps IH]; cbn [app]; [intros _; apply Hs |].
  destruct p as [c | | | t]; cbn [escapes_ok]; try exact IH.
  - intros H. apply andb_prop in H as [H1 H2]. rewrite (IH H2), andb_true_r.
    destruct ps as [| p' ps]; [| exact H1].
    cbn [app]. rewrite (proj2 (Hs s)), andb_false_r. reflexivity.
  - intros H. apply andb_prop in H as [H1 H2]. rewrite H1, (IH H2). reflexivity.
Qed.

Lemma compile_chars (s : str) : compile (map Chr s) = Ok s.
Proof.
  unfold compile. induction s as [| c s IH]; [reflexivity |].
  cbn [map compile_with]. rewrite IH. reflexivity.
Qed.

Lemma source_chars (s : str) : source (map Chr s) = s.
Proof.
  unfold source. induction s as [| c s IH]; [reflexivity |].
  cbn [map flat_map render app]. rewrite IH. reflexivity.
Qed.

Lemma last_app_nonempty {A} (a b : list A) (d : A) : b <> [] -> last (a ++ b) d = last b d.
Proof.
  intros Hb. induction a as [| x a IH]; [reflexivity |].
  cbn [app]. destruct (a ++ b) eqn:E.
  - destruct a; [cbn in E; congruence | discriminate].
  - rewrite <- IH. reflexivity.
Qed.

Lemma escape_controls_last_char (c : ascii) :
  escape_controls [c] <> []
  /\ Ascii.eqb (last (escape_controls [c]) " ") "\" = Ascii.eqb c "\".
Proof. each_char c; split; first [discriminate | reflexivity]. Qed.

Lemma escape_controls_last (s : str) :
  Ascii.eqb (last (escape_controls s) " ") "\" = Ascii.eqb (last s " ") "\".
Proof.
  induction s as [| c s IH]; [reflexivity |].
  change (c :: s) with ([c] ++ s) at 1. rewrite escape_controls_app.
  destruct (escape_controls_last_char c) as [Hne Hc].
  destruct s as [| c' s].
  - cbn [escape_controls flat_map] in *. rewrite app_nil_r. exact Hc.
  - rewrite last_app_nonempty; [exact IH |].
    change (c' :: s) with ([c'] ++ s). rewrite escape_controls_app.
    destruct (escape_controls_last_char c') as [Hne' _].
    destruct (escape_controls [c']); [congruence | discriminate].
Qed.

Lemma ends_backslash_chars (ps : list piece) (s : str) :
  ends_backslash (ps ++ map Chr s)
  = match s with
    | [] => ends_backslash ps
    | _ => Ascii.eqb (last s " ") "\"
    end.
Proof.
  destruct s as [| c s]; [rewrite app_nil_r; reflexivity |].
  unfold ends_backslash. rewrite last_app_nonempty by discriminate.
  revert c. induction s as [| c' s IH]; intros c; [reflexivity |].
  specialize (IH c'). cbn [map] in *.
  change (last (Chr c :: Chr c' :: map Chr s) EscOpen)
    with (last (Chr c' :: map Chr s) EscOpen).
  rewrite IH. reflexivity.
Qed.

Lemma marked_chars (s : str) : marked (map Chr s) = s.
Proof.
  unfold marked. induction s as [| c s IH]; [reflexivity |].
  cbn [map flat_map render app]. rewrite IH. reflexivity.
Qed.

Lemma slice_prefix (p rest : str) : slice (p ++ rest) 0 (length p) = p.
Proof.
  unfold slice. rewrite Nat.sub_0_r. cbn [skipn].
  rewrite firstn_app, firstn_all, Nat.sub_diag. cbn [firstn]. apply app_nil_r.
Qed.

Lemma slice_suffix (p rest : str) : slice (p ++ rest) (length p) (length p + length rest) = rest.
Proof.
  unfold slice. rewrite skipn_app, skipn_all, Nat.sub_diag. cbn [skipn app].
  replace (length p + length rest - length p) with (length rest) by lia. apply firstn_all.
Qed.

(** An input with one opening bracket and no closing bracket: the text from
    the bracket on is taken for an open tag. *)
Lemma prepare_input_marking_open (p q : str) :
  Forall (fun c => c <> "<" /\ c <> ">") p -> Forall (fun c => c <> "<" /\ c <> ">") q ->
  _prepare_input_marking (p ++ "<" :: q)
  = (escape_controls p ++ "<" :: escape_controls q, count_occ ascii_dec p TAB).
Proof.
  intros Hp Hq. unfold _prepare_input_marking.
  rewrite <- app_assoc. cbn [app].
  rewrite (prepare_loop_free _ p _ [] false 0 Hp 0 0). cbn [Nat.add].
  cbn [prepare_loop]. change (Ascii.eqb "<" TAB) with false.
  change (Ascii.eqb "<" "<") with true. cbv beta iota.
  rewrite slice_prefix.
  rewrite (prepare_loop_free _ q (py "<") _ true (length p) Hq).
  cbn [prepare_loop py list_ascii_of_string]. change (Ascii.eqb "<" TAB) with false.
  change (Ascii.eqb "<" "<") with true. cbv beta iota.
  replace (S (length p) + length q) with (length p + length ("<" :: q))
    by (cbn [length]; lia).
  rewrite slice_suffix. reflexivity.
Qed.

Lemma check_brackets_unclosed (s t : str) :
  balanced "<" ">" s -> Forall (plain "<" ">") t ->
  _check_brackets_match (s ++ "<" :: t) ("<", ">")
  = Raise (BracketsMismatchError (s ++ "<" :: t) (length s) None
             (py "Unclosed open tag bracket '<'")).
Proof.
  intros Hs Ht. unfold _check_brackets_match.
  assert (Hne : "<" <> ">") by discriminate.
  destruct (check_loop_balanced "<" ">" Hne (s ++ "<" :: t) s Hs 0 0 ("<" :: t)) as [obi' ->].
  cbn [Nat.add check_loop]. change (Ascii.eqb "<" "<") with true. cbv beta iota.
  rewrite <- (app_nil_r t) at 2. rewrite (check_loop_plain "<" ">" _ t [] _ _ _ Ht).
  reflexivity.
Qed.

Section MarkInput.

Context {B : Builtins}.

(** X12: marking an input that has no bracket never fails, whatever the user has
    typed: the cursor goes back to the end of the prompt and the input is
    written again in the style of the marking tag, with every control
    character, the escape character among them, written as its hexadecimal
    code. *)
Theorem mark_input_echo (tg : list piece) (seq inp : str) (prompt_len : nat) :
  well_formed tg = true -> compile tg = Ok seq ->
  Forall (fun c => c <> "<" /\ c <> ">") inp ->
  _mark_input (Some (source tg)) inp prompt_len []
  = (move_cursor_up 1 >>
     move_cursor_right prompt_len >>
     print (esc_seq (reset_esc RESET_ALL) ++ seq ++ escape_controls inp
              ++ esc_seq (reset_esc RESET_ALL)) [] >>
     print (repeat " " (4 * count_occ ascii_dec inp TAB)) [NEWLINE])
  /\ Forall (fun c => 32 <= nat_of_ascii c) (escape_controls inp).
Proof.
  intros Hwf Hseq Hinp.
  pose proof (escape_controls_chars inp Hinp) as Hchars. rewrite forallb_forall in Hchars.
  split.
  2: { apply Forall_forall. intros c Hc. specialize (Hchars c Hc).
       apply andb_prop in Hchars as [_ H]. apply Nat.leb_le. exact H. }
  unfold _mark_input. cbn [fold_left]. rewrite (prepare_input_marking_free inp Hinp).
  assert (Hfmt : fancyformat (source tg ++ escape_controls inp) (Some ("<", ">")) true true
                 = Ok (esc_seq (reset_esc RESET_ALL) ++ seq ++ escape_controls inp
                         ++ esc_seq (reset_esc RESET_ALL))).
  { rewrite <- (source_chars (escape_controls inp)) at 1. rewrite <- source_app.
    rewrite fancyformat_source.
    - unfold compile in *. rewrite compile_with_app, Hseq. cbn [bind].
      fold (compile (map Chr (escape_controls inp))). rewrite compile_chars. cbn [bind].
      cbn [reset_seq]. rewrite <- app_assoc. reflexivity.
    - apply andb_prop in Hwf as [Hok Hesc]. unfold well_formed.
      rewrite (escapes_ok_chars tg _ Hesc), andb_true_r.
      unfold pieces_ok in *. rewrite forallb_app, Hok. cbn [andb].
      rewrite forallb_forall. intros p Hp. apply in_map_iff in Hp as (c & <- & Hc).
      specialize (Hchars c Hc). apply andb_prop in Hchars as [H _]. exact H. }
  unfold fancyprintf. rewrite Hfmt. reflexivity.
Qed.

(** X13: an input with an opening bracket and no closing bracket makes marking
    fail: the user's text is compiled as part of a format string, and the
    bracket check rejects it. The marking tag and the text before the
    bracket do not end with a backslash. Each of the five prompt functions
    marks the lines it has classified, so a marking tag for the class of
    such a line ends the prompt with this error. *)
Theorem mark_input_unclosed_bracket (tg : list piece) (p q : str) (prompt_len : nat) :
  well_formed tg = true -> ends_backslash tg = false ->
  Ascii.eqb (last p " ") "\" = false ->
  Forall (fun c => c <> "<" /\ c <> ">") p -> Forall (fun c => c <> "<" /\ c <> ">") q ->
  _mark_input (Some (source tg)) (p ++ "<" :: q) prompt_len []
  = (move_cursor_up 1 >>
     move_cursor_right prompt_len >>
     io_raise (BracketsMismatchError
                 (marked tg ++ escape_controls p ++ "<" :: escape_controls q)
                 (length (marked tg ++ escape_controls p)) None
                 (py "Unclosed open tag bracket '<'"))).
Proof.
  intros Hwf Hend Hlast Hp Hq.
  unfold _mark_input. cbn [fold_left]. rewrite (prepare_input_marking_open p q Hp Hq).
  pose proof (escape_controls_chars p Hp) as Hp'.
  pose proof (escape_controls_chars q Hq) as Hq'.
  rewrite forallb_forall in Hp', Hq'.
  set (p' := escape_controls p) in *. set (q' := escape_controls q) in *.
  set (ps := tg ++ map Chr p').
  apply andb_prop in Hwf as [Hok Hesc].
  assert (Hok' : pieces_ok ps = true).
  { unfold ps, pieces_ok in *. rewrite forallb_app, Hok. cbn [andb].
    rewrite forallb_forall. intros x Hx. apply in_map_iff in Hx as (c & <- & Hc).
    specialize (Hp' c Hc). apply andb_prop in Hp' as [H _]. exact H. }
  assert (Hesc' : escapes_ok ps = true) by (apply escapes_ok_chars; exact Hesc).
  assert (Hend' : ends_backslash ps = false).
  { unfold ps. rewrite ends_backslash_chars. destruct p' eqn:E; [exact Hend |].
    rewrite <- E. unfold p'. rewrite escape_controls_last. exact Hlast. }
  assert (Hq'' : Forall (fun c => Ascii.eqb "<" c = false /\ Ascii.eqb ">" c = false) q').
  { apply Forall_forall. intros c Hc. specialize (Hq' c Hc). apply andb_prop in Hq' as [H _].
    destruct (text_char_spec c H) as (H1 & H2 & _). auto. }
  assert (Htail : forall b, b = "<" \/ b = ">" ->
                       replace_from ["\"; b] [_BracketsRepl.OPEN] ("<" :: q') 0 = "<" :: q'
                       /\ replace_from ["\"; b] [_BracketsRepl.CLOSED] ("<" :: q') 0
                          = "<" :: q').
  { intros b Hb. rewrite !replace_pair_miss by reflexivity.
    rewrite <- (app_nil_r q') at 1 3.
    rewrite !replace_pair_free; try reflexivity; try apply andb_false_r;
      try (split; rewrite app_nil_r; reflexivity);
      eapply Forall_impl; try exact Hq''; intros c [H1 H2];
        destruct Hb as [-> | ->]; assumption. }
  assert (Hfmt : fancyformat (source tg ++ p' ++ "<" :: q') (Some ("<", ">")) true true
                 = Raise (BracketsMismatchError (marked tg ++ p' ++ "<" :: q')
                            (length (marked tg ++ p')) None
                            (py "Unclosed open tag bracket '<'"))).
  { assert (Hsrc : source tg ++ p' ++ "<" :: q' = source ps ++ "<" :: q').
    { unfold ps. rewrite source_app, source_chars, <- app_assoc. reflexivity. }
    assert (Hmk : marked tg ++ p' = marked ps).
    { unfold ps, marked. rewrite flat_map_app. fold (marked (map Chr p')).
      rewrite marked_chars. reflexivity. }
    assert (Hmk' : marked tg ++ p' ++ "<" :: q' = marked ps ++ "<" :: q')
      by (rewrite <- Hmk, <- app_assoc; reflexivity).
    rewrite Hmk, Hmk', Hsrc. unfold fancyformat. cbv beta zeta iota.
    unfold replace, source.
    rewrite (replace_escaped_rest "\" "<" (py "\<") (py "\>") [_BracketsRepl.OPEN] (py "\>"));
      try reflexivity; try discriminate;
      [| left; reflexivity | apply pieces_ok_bracket_free; exact Hok' | exact Hesc'
       | rewrite Hend'; reflexivity ].
    rewrite (proj1 (Htail "<" (or_introl eq_refl))).
    rewrite (replace_escaped_rest "\" ">" [_BracketsRepl.OPEN] (py "\>")
               [_BracketsRepl.OPEN] [_BracketsRepl.CLOSED]);
      try reflexivity; try discriminate;
      [| right; reflexivity | apply pieces_ok_bracket_free; exact Hok' | exact Hesc'
       | apply andb_false_r ].
    rewrite (proj2 (Htail ">" (or_intror eq_refl))). fold (marked ps).
    rewrite check_brackets_unclosed; [reflexivity | apply marked_balanced; exact Hok' |].
    apply Forall_forall. intros c Hc. specialize (Hq' c Hc). apply andb_prop in Hq' as [H _].
    destruct (text_char_spec c H) as (_ & _ & H1 & H2 & _). split; assumption. }
  unfold fancyprintf. rewrite Hfmt. reflexivity.
Qed.

End MarkInput.

Lemma mark_input_unclosed_bracket_witness :
  _mark_input (Some (py "<r>")) (py "1<2") 3 []
  = (move_cursor_up 1 >>
     move_cursor_right 3 >>
     io_raise (BracketsMismatchError (py "<r>1<2") 4 None (py "Unclosed open tag bracket '<'"))).
Proof.
  apply (mark_input_unclosed_bracket [Tag (py "r")] (py "1") (py "2") 3);
    first [ reflexivity | repeat constructor; discriminate ].
Defined.

Lemma mark_input_echo_witness :
  _mark_input (Some (py "<f,c>")) (ESC :: py "[2J") 3 []
  = (move_cursor_up 1 >>
     move_cursor_right 3 >>
     print (ESC :: py "[0m" ++ ESC :: py "[1;36m" ++ py "\x1b[2J" ++ ESC :: py "[0m") [] >>
     print [] [NEWLINE])
  /\ Forall (fun c => 32 <= nat_of_ascii c) (escape_controls (ESC :: py "[2J")).
Proof.
  apply (mark_input_echo [Tag (py "f,c")] (ESC :: py "[1;36m") (ESC :: py "[2J") 3);
    [reflexivity | reflexivity | repeat constructor; discriminate].
Defined.

(** ** What the prompt functions return *)

Lemma io_bind_Ok {A C} (m : io A) (k : A -> io C) (v : C) :
  snd (io_bind m k) = Ok v -> exists x, snd m = Ok x /\ snd (k x) = Ok v.
Proof.
  unfold io_bind. destruct (snd m) as [x |]; cbn [snd]; [| discriminate].
  intros H. exists x. auto.
Qed.

Ltac bind_Ok H :=
  repeat match type of H with
         | snd (io_bind _ _) = Ok _ =>
             let x := fresh "x" in
             let H1 := fresh "Hm" in
             apply io_bind_Ok in H as (x & H1 & H)
         end.

Section Postconditions.

Context {B : Builtins}.

Section Free.

Variables (prompt : str) (prompt_len : nat) (repeat_on_empty : bool).
Variables (a : special_args) (call_before_exit : bool).
Variable validate_func : option (str -> option str).
Variables valid_tag invalid_tag : option str.
Variable marking_extras : list MarkingExtra.

(** A line that the free-text prompt accepts. *)
Definition accepted (inp : str) : Prop :=
  _check_command_input inp (commands a) (special_inputs_ignore_case a) = None
  /\ _check_special_input inp (exit_codes a) (special_inputs_ignore_case a) = None
  /\ match validate_func with Some f => f inp = None | None => True end.

Lemma fancyinput_loop_post (stdin : list str) (v : str) :
  snd (fancyinput_loop prompt prompt_len repeat_on_empty a call_before_exit validate_func
         valid_tag invalid_tag marking_extras stdin) = Ok v ->
  In v stdin /\ accepted v /\ (repeat_on_empty = true -> v <> []).
Proof.
  induction stdin as [| inp stdin IH]; cbn [fancyinput_loop]; [discriminate |].
  rewrite snd_emit.
  destruct (repeat_on_empty && Nat.eqb (length inp) 0) eqn:Hrep.
  { intros H. destruct (IH H) as (H1 & H2). split; [right; exact H1 | exact H2]. }
  destruct (_check_command_input inp _ _) eqn:Hc.
  { intros H. bind_Ok H. discriminate. }
  destruct (_check_special_input inp _ _) eqn:He.
  { intros H. bind_Ok H. discriminate. }
  destruct (match validate_func with Some f => f inp | None => None end) as [msg |] eqn:Hv.
  { intros H. bind_Ok H. destruct (IH H) as (H1 & H2). split; [right; exact H1 | exact H2]. }
  intros H. bind_Ok H. injection H as <-.
  split; [left; reflexivity |]. split.
  - repeat split; try assumption. destruct validate_func; [exact Hv | exact I].
  - intros ->. cbn [andb] in Hrep. intros ->. discriminate.
Qed.

End Free.

(** X14: the free-text prompt returns a line that it has read, that is neither a
    command nor an exit code, and that the validation function accepts; the
    line is not empty when empty lines are to be asked for again and the
    empty string is no exit code. *)
Theorem fancyinput_returns (prompt_format input_format_tag : str) (a : special_args)
    (call_before_exit : bool) (validate_func : option (str -> option str))
    (valid_tag invalid_tag : option str) (marking_extras : list MarkingExtra)
    (stdin : list str) (v : str) :
  snd (fancyinput prompt_format input_format_tag a call_before_exit validate_func
         valid_tag invalid_tag marking_extras stdin) = Ok v ->
  In v stdin
  /\ accepted a validate_func v
  /\ (repeat_on_empty a = true -> str_in [] (exit_codes a) = false -> v <> []).
Proof.
  unfold fancyinput. intros H. bind_Ok H.
  apply fancyinput_loop_post in H as (H1 & H2 & H3).
  split; [exact H1 |]. split; [exact H2 |].
  intros Hr He. apply H3. rewrite He. exact Hr.
Qed.

Section YesNo.

Variables (prompt : str) (prompt_len : nat) (repeat_on_empty : bool).
Variables (y n : str) (ignore_case : bool).
Variables (a : special_args) (call_before_exit : bool).
Variable invalid_input_msg_format : str.
Variables y_tag n_tag invalid_tag : option str.

(** The answer that a line stands for. *)
Definition answer (inp : str) : option bool :=
  if _compare_input inp y ignore_case then Some true
  else if _compare_input inp n ignore_case then Some false
  else None.

Lemma fancyinput_yn_loop_post (stdin : list str) (v : bool) :
  snd (fancyinput_yn_loop prompt prompt_len repeat_on_empty y n ignore_case a call_before_exit
         invalid_input_msg_format y_tag n_tag invalid_tag stdin) = Ok v ->
  exists inp, In inp stdin /\ answer inp = Some v /\ (repeat_on_empty = true -> inp <> []).
Proof.
  induction stdin as [| inp stdin IH]; cbn [fancyinput_yn_loop]; [discriminate |].
  rewrite snd_emit.
  assert (Hrec : snd (fancyinput_yn_loop prompt prompt_len repeat_on_empty y n ignore_case a
                        call_before_exit invalid_input_msg_format y_tag n_tag invalid_tag
                        stdin) = Ok v ->
                 exists inp0, In inp0 (inp :: stdin) /\ answer inp0 = Some v
                              /\ (repeat_on_empty = true -> inp0 <> [])).
  { intros H. destruct (IH H) as (inp0 & H1 & H2). exists inp0. split; [right; exact H1 | exact H2]. }
  destruct (repeat_on_empty && Nat.eqb (length inp) 0) eqn:Hrep; [exact Hrec |].
  assert (Hne : repeat_on_empty = true -> inp <> []).
  { intros ->. cbn [andb] in Hrep. intros ->. discriminate. }
  destruct (_compare_input inp y ignore_case) eqn:Hy.
  { intros H. bind_Ok H. injection H as <-. exists inp.
    split; [left; reflexivity |]. unfold answer. rewrite Hy. auto. }
  destruct (_compare_input inp n ignore_case) eqn:Hn.
  { intros H. bind_Ok H. injection H as <-. exists inp.
    split; [left; reflexivity |]. unfold answer. rewrite Hy, Hn. auto. }
  destruct (_check_command_input inp _ _); [intros H; bind_Ok H; discriminate |].
  destruct (_check_special_input inp _ _); [intros H; bind_Ok H; discriminate |].
  intros H. bind_Ok H. exact (Hrec H).
Qed.

End YesNo.

(** X15: the yes/no prompt returns the answer that one of the lines it has read
    stands for: [True] for a line that compares equal to the yes literal,
    [False] for a line that compares equal to the no literal and not to the
    yes literal. *)
Theorem fancyinput_yn_returns (prompt_format input_format_tag y n : str) (ignore_case : bool)
    (a : special_args) (invalid_input_msg_format : option str) (call_before_exit : bool)
    (y_tag n_tag invalid_tag : option str) (stdin : list str) (v : bool) :
  snd (fancyinput_yn prompt_format input_format_tag y n ignore_case a
         invalid_input_msg_format call_before_exit y_tag n_tag invalid_tag stdin) = Ok v ->
  exists inp, In inp stdin /\ answer y n ignore_case inp = Some v.
Proof.
  unfold fancyinput_yn. intros H. bind_Ok H.
  apply fancyinput_yn_loop_post in H as (inp & H1 & H2 & _). exists inp. auto.
Qed.

Section Int.

Variables (prompt : str) (prompt_len : nat) (repeat_on_empty : bool).
Variables min max : option Z.
Variable validate_func : option (Z -> option str).
Variables (a : special_args) (call_before_exit : bool).
Variable error_msg_not_an_int : str.
Variable error_msg_int_out_of_range : option str.
Variables valid_tag invalid_tag : option str.

(** An integer within the bounds that are given. *)
Definition within (z : Z) : Prop :=
  (forall lo, min = Some lo -> (lo <= z)%Z) /\ (forall hi, max = Some hi -> (z <= hi)%Z).

(** The validation function has no message, or an empty one, for the
    integer. *)
Definition valid (z : Z) : Prop :=
  match validate_func with
  | Some f => f z = None \/ f z = Some []
  | None => True
  end.

Lemma input_int_in_range_within (z : Z) : _input_int_in_range z min max = true -> within z.
Proof.
  unfold _input_int_in_range, within. destruct min as [lo |], max as [hi |]; intros H.
  - apply andb_prop in H as [H1 H2]. split; intros ? [= <-]; lia.
  - split; [intros ? [= <-]; lia | discriminate].
  - split; [discriminate | intros ? [= <-]; lia].
  - split; discriminate.
Qed.

Lemma fancyinput_int_loop_post (stdin : list str) (z : Z) :
  snd (fancyinput_int_loop prompt prompt_len repeat_on_empty min max validate_func a
         call_before_exit error_msg_not_an_int error_msg_int_out_of_range valid_tag
         invalid_tag stdin) = Ok z ->
  exists inp, In inp stdin /\ int_of_str inp = Some z /\ within z /\ valid z.
Proof.
  induction stdin as [| inp stdin IH]; cbn [fancyinput_int_loop]; [discriminate |].
  rewrite snd_emit.
  assert (Hrec : snd (fancyinput_int_loop prompt prompt_len repeat_on_empty min max
                        validate_func a call_before_exit error_msg_not_an_int
                        error_msg_int_out_of_range valid_tag invalid_tag stdin) = Ok z ->
                 exists inp0, In inp0 (inp :: stdin) /\ int_of_str inp0 = Some z
                              /\ within z /\ valid z).
  { intros H. destruct (IH H) as (inp0 & H1 & H2). exists inp0. split; [right; exact H1 | exact H2]. }
  destruct (repeat_on_empty && Nat.eqb (length inp) 0); [exact Hrec |].
  destruct (_check_command_input inp _ _); [intros H; bind_Ok H; discriminate |].
  destruct (_check_special_input inp _ _); [intros H; bind_Ok H; discriminate |].
  destruct (int_of_str inp) as [inp_int |] eqn:Hint; [| intros H; bind_Ok H; exact (Hrec H)].
  destruct (_input_int_in_range inp_int min max) eqn:Hrange; cbn [negb].
  2: { intros H. bind_Ok H. exact (Hrec H). }
  destruct (match validate_func with Some f => f inp_int | None => None end)
    as [[| c m] |] eqn:Hv.
  - intros H. bind_Ok H. injection H as <-. exists inp.
    split; [left; reflexivity |]. split; [exact Hint |].
    split; [apply input_int_in_range_within; exact Hrange |].
    unfold valid. destruct validate_func; [right; exact Hv | exact I].
  - intros H. bind_Ok H. exact (Hrec H).
  - intros H. bind_Ok H. injection H as <-. exists inp.
    split; [left; reflexivity |]. split; [exact Hint |].
    split; [apply input_int_in_range_within; exact Hrange |].
    unfold valid. destruct validate_func; [left; exact Hv | exact I].
Qed.

End Int.

(** X16: the integer prompt returns the integer of one of the lines it has read;
    the integer is within the bounds that are given, which are in order, and
    the validation function has no message for it. *)
Theorem fancyinput_int_returns (min max : option Z) (prompt_format input_format_tag : str)
    (validate_func : option (Z -> option str)) (a : special_args) (call_before_exit : bool)
    (error_msg_not_an_int error_msg_int_out_of_range : option str)
    (valid_tag invalid_tag : option str) (stdin : list str) (z : Z) :
  snd (fancyinput_int min max prompt_format input_format_tag validate_func a call_before_exit
         error_msg_not_an_int error_msg_int_out_of_range valid_tag invalid_tag stdin) = Ok z ->
  (exists inp, In inp stdin /\ int_of_str inp = Some z)
  /\ within min max z /\ valid validate_func z
  /\ (forall lo hi, min = Some lo -> max = Some hi -> (lo <= hi)%Z).
Proof.
  unfold fancyinput_int.
  destruct (match min, max with Some mi, Some ma => (ma <? mi)%Z | _, _ => false end) eqn:Hmm;
    [discriminate |].
  intros H. bind_Ok H. apply fancyinput_int_loop_post in H as (inp & H1 & H2 & H3 & H4).
  split; [exists inp; auto |]. split; [exact H3 |]. split; [exact H4 |].
  intros lo hi -> ->. lia.
Qed.

Section DictOptions.

Context {T : Type}.
Variables (prompt : str) (prompt_len : nat) (repeat_on_empty : bool).
Variables (option_dict : list (str * T)) (ignore_case : bool).
Variable validate_func : option (T -> option str).
Variables (a : special_args) (call_before_exit : bool).
Variable unmatched_input_msg_format : str.
Variable option_marking_format_tags : option marking_tags.
Variables unmatched_tag invalid_tag : option str.

(** The line selects the key. *)
Definition selects (inp k : str) : Prop :=
  inp = k \/ (ignore_case = true /\ lower inp = lower k).

Lemma get_option_from_spec (inp : str) (items : list (str * T)) :
  forall i k v j,
    get_option_from i inp items ignore_case = Some (k, v, j) ->
    In (k, v) items /\ selects inp k.
Proof.
  induction items as [| [k' v'] items IH]; intros i k v j; cbn [get_option_from];
    [discriminate |].
  destruct ((ignore_case && str_eqb (lower inp) (lower k')) || str_eqb inp k') eqn:Hm.
  - intros [= <- <- <-]. split; [left; reflexivity |].
    apply orb_prop in Hm as [Hm | Hm].
    + apply andb_prop in Hm as [H1 H2]. right. split; [exact H1 |].
      apply str_eqb_eq. exact H2.
    + left. apply str_eqb_eq. exact Hm.
  - intros H. destruct (IH _ _ _ _ H) as [H1 H2]. split; [right; exact H1 | exact H2].
Qed.

Lemma fancyinput_dict_options_loop_post (stdin : list str) (v : T) :
  snd (fancyinput_dict_options_loop prompt prompt_len repeat_on_empty option_dict ignore_case
         validate_func a call_before_exit unmatched_input_msg_format
         option_marking_format_tags unmatched_tag invalid_tag stdin) = Ok v ->
  exists inp k, In inp stdin /\ In (k, v) option_dict /\ selects inp k
                /\ match validate_func with
                   | Some f => f v = None \/ f v = Some []
                   | None => True
                   end.
Proof.
  induction stdin as [| inp stdin IH]; cbn [fancyinput_dict_options_loop]; [discriminate |].
  rewrite snd_emit.
  assert (Hrec : snd (fancyinput_dict_options_loop prompt prompt_len repeat_on_empty
                        option_dict ignore_case validate_func a call_before_exit
                        unmatched_input_msg_format option_marking_format_tags unmatched_tag
                        invalid_tag stdin) = Ok v ->
                 exists inp0 k, In inp0 (inp :: stdin) /\ In (k, v) option_dict
                                /\ selects inp0 k
                                /\ match validate_func with
                                   | Some f => f v = None \/ f v = Some []
                                   | None => True
                                   end).
  { intros H. destruct (IH H) as (inp0 & k & H1 & H2). exists inp0, k.
    split; [right; exact H1 | exact H2]. }
  destruct (repeat_on_empty && Nat.eqb (length inp) 0); [exact Hrec |].
  destruct (_check_command_input inp _ _); [intros H; bind_Ok H; discriminate |].
  destruct (_check_special_input inp _ _); [intros H; bind_Ok H; discriminate |].
  destruct (_fancyinput_dict_options_get_option inp option_dict ignore_case)
    as [[[k v'] i] |] eqn:Hget; [| intros H; bind_Ok H; exact (Hrec H)].
  apply get_option_from_spec in Hget as [Hin Hsel].
  destruct (match validate_func with Some f => f v' | None => None end) as [[| c m] |] eqn:Hv.
  - intros H. bind_Ok H. injection H as <-. exists inp, k.
    split; [left; reflexivity |]. split; [exact Hin |]. split; [exact Hsel |].
    destruct validate_func; [right; exact Hv | exact I].
  - intros H. bind_Ok H. exact (Hrec H).
  - intros H. bind_Ok H. injection H as <-. exists inp, k.
    split; [left; reflexivity |]. split; [exact Hin |]. split; [exact Hsel |].
    destruct validate_func; [left; exact Hv | exact I].
Qed.

End DictOptions.

(** X17: the dict-options prompt returns a value of the dictionary: the value of
    a key that one of the lines it has read selects, and for which the
    validation function has no message. *)
Theorem fancyinput_dict_options_returns {T : Type} (option_dict : list (str * T))
    (prompt_format input_format_tag : str) (ignore_case : bool)
    (validate_func : option (T -> option str)) (a : special_args) (call_before_exit : bool)
    (unmatched_input_msg_format : option str) (option_marking_format_tags : option marking_tags)
    (unmatched_tag invalid_tag : option str) (stdin : list str) (v : T) :
  snd (fancyinput_dict_options option_dict prompt_format input_format_tag ignore_case
         validate_func a call_before_exit unmatched_input_msg_format
         option_marking_format_tags unmatched_tag invalid_tag stdin) = Ok v ->
  exists inp k, In inp stdin /\ In (k, v) option_dict /\ selects ignore_case inp k
                /\ match validate_func with
                   | Some f => f v = None \/ f v = Some []
                   | None => True
                   end.
Proof.
  unfold fancyinput_dict_options. intros H. bind_Ok H.
  apply fancyinput_dict_options_loop_post in H. exact H.
Qed.

Section Options.

Context {T : Type}.
Variables (prompt : str) (prompt_len : nat) (repeat_on_empty : bool).
Variables (input_format_tag : str) (option_formats options : list str).
Variable return_options : option (list T).
Variable ignore_case : bool.
Variable error_msg_format : str.
Variables (a : special_args) (msg_on_exit : option str).
Variable invalid_tag : option str.

Lemma fancyinput_options_loop_raises (stdin : list str) (v : str + T) :
  snd (fancyinput_options_loop prompt prompt_len repeat_on_empty input_format_tag
         option_formats options return_options ignore_case error_msg_format a msg_on_exit
         invalid_tag stdin) <> Ok v.
Proof.
  induction stdin as [| inp stdin IH]; cbn [fancyinput_options_loop]; [discriminate |].
  rewrite snd_emit.
  destruct (repeat_on_empty && Nat.eqb (length inp) 0); [exact IH |].
  destruct (_check_command_input inp _ _); [intros H; bind_Ok H; discriminate |].
  destruct (_check_special_input inp _ _); [intros H; bind_Ok H; discriminate |].
  destruct (_find_option_index inp options ignore_case).
  - intros H. bind_Ok H. discriminate.
  - intros H. bind_Ok H. exact (IH H).
Qed.

Lemma fancyinput_options_loop_match (inp : str) (stdin : list str) (i : nat) :
  repeat_on_empty && Nat.eqb (length inp) 0 = false ->
  _check_command_input inp (commands a) (special_inputs_ignore_case a) = None ->
  _check_special_input inp (exit_codes a) (special_inputs_ignore_case a) = None ->
  _find_option_index inp options ignore_case = Some i ->
  snd (fancyinput_options_loop prompt prompt_len repeat_on_empty input_format_tag
         option_formats options return_options ignore_case error_msg_format a msg_on_exit
         invalid_tag (inp :: stdin)) = Raise TypeError.
Proof.
  intros H1 H2 H3 H4. cbn [fancyinput_options_loop]. rewrite snd_emit, H1, H2, H3, H4.
  reflexivity.
Qed.

End Options.

(** X18: the list-options prompt never returns an option: the line that matches
    an option is marked by a call of [_option_replacement] with three
    arguments for its two parameters, which raises [TypeError]; every run
    of the prompt ends with an exception. *)
Theorem fancyinput_options_never_returns {T : Type} (prompt_format input_format_tag : str)
    (option_formats : list str) (return_options : option (list T)) (ignore_case : bool)
    (error_msg_format : option str) (a : special_args) (msg_on_exit : option str)
    (invalid_tag : option str) (stdin : list str) :
  (exists e, snd (fancyinput_options prompt_format input_format_tag option_formats
                    return_options ignore_case error_msg_format a msg_on_exit invalid_tag
                    stdin) = Raise e)
  /\ forall (prompt : str) (inp : str) (i : nat),
       make_prompt prompt_format input_format_tag = Ok prompt ->
       inp <> [] ->
       _check_command_input inp (commands a) (special_inputs_ignore_case a) = None ->
       _check_special_input inp (exit_codes a) (special_inputs_ignore_case a) = None ->
       _find_option_index inp (map remove_format_tags option_formats) ignore_case = Some i ->
       snd (fancyinput_options prompt_format input_format_tag option_formats
              return_options ignore_case error_msg_format a msg_on_exit invalid_tag
              (inp :: stdin)) = Raise TypeError.
Proof.
  split.
  - destruct (snd (fancyinput_options prompt_format input_format_tag option_formats
                     return_options ignore_case error_msg_format a msg_on_exit invalid_tag
                     stdin)) as [v | e] eqn:E; [| exists e; reflexivity].
    exfalso. unfold fancyinput_options in E. bind_Ok E.
    exact (fancyinput_options_loop_raises _ _ _ _ _ _ _ _ _ _ _ _ _ _ E).
  - intros prompt inp i Hp Hne Hc He Hi. unfold fancyinput_options.
    unfold io_bind at 1. rewrite Hp. cbn [io_lift snd fst app].
    eapply fancyinput_options_loop_match; try eassumption.
    destruct inp; [congruence |]. apply andb_false_r.
Qed.

End Postconditions.

Lemma fancyinput_returns_witness :
  In (py "rgbw") [[]; py "rgbw"]
  /\ accepted Mastermind.special_arguments None (py "rgbw")
  /\ (repeat_on_empty Mastermind.special_arguments = true ->
      str_in [] (exit_codes Mastermind.special_arguments) = false -> py "rgbw" <> []).
Proof.
  apply (fancyinput_returns (py "? ") (py "<c>") Mastermind.special_arguments true None
           (Some (py "<f,c>")) (Some (py "<r>")) [UPPER_CASE] [[]; py "rgbw"] (py "rgbw")).
  vm_compute. reflexivity.
Defined.

Lemma fancyinput_yn_returns_witness :
  exists inp, In inp [py "x"; py "j"] /\ answer (py "J") (py "n") true inp = Some true.
Proof.
  apply (fancyinput_yn_returns (py "? ") (py "<b>") (py "J") (py "n") true
           Mastermind.special_arguments None true None None None [py "x"; py "j"] true).
  vm_compute. reflexivity.
Defined.

Lemma fancyinput_int_returns_witness :
  (exists inp, In inp [py "abc"; py "42"; py "7"] /\ int_of_str inp = Some 7%Z)
  /\ within (Some 1%Z) (Some 10%Z) 7 /\ valid None 7
  /\ (forall lo hi, Some 1%Z = Some lo -> Some 10%Z = Some hi -> (lo <= hi)%Z).
Proof.
  apply (fancyinput_int_returns (Some 1%Z) (Some 10%Z) (py "? ") (py "<c>") None
           Mastermind.special_arguments true None None None None
           [py "abc"; py "42"; py "7"] 7%Z).
  vm_compute. reflexivity.
Defined.

Lemma fancyinput_dict_options_returns_witness :
  exists inp k, In inp [py "c"; py "B"] /\ In (k, 2) [(py "a", 1); (py "b", 2)]
                /\ selects true inp k /\ True.
Proof.
  apply (fancyinput_dict_options_returns [(py "a", 1); (py "b", 2)] (py "? ") (py "<c>") true
           None Mastermind.special_arguments true None None None None [py "c"; py "B"] 2).
  vm_compute. reflexivity.
Defined.

Lemma fancyinput_options_never_returns_witness :
  snd (fancyinput_options (T := nat) (py "? ") (py "<c>") [py "<r>red"; py "<g>green"] None
         false None Mastermind.special_arguments None None [py "green"]) = Raise TypeError.
Proof.
  eapply (proj2 (fancyinput_options_never_returns (T := nat) (py "? ") (py "<c>")
                   [py "<r>red"; py "<g>green"] None false None
                   Mastermind.special_arguments None None []));
    first [ discriminate | vm_compute; reflexivity ].
Defined.

(** ** The replacement of an option *)

Lemma firstn_slice (s : str) :
  forall a b, a <= b -> firstn a s ++ slice s a b = firstn b s.
Proof.
  unfold slice. induction s as [| x s IH]; intros a b Hab.
  - rewrite skipn_nil, !firstn_nil. reflexivity.
  - destruct a as [| a].
    + rewrite Nat.sub_0_r. reflexivity.
    + destruct b as [| b]; [lia |]. cbn [firstn skipn app Nat.sub]. f_equal.
      apply IH. lia.
Qed.

Lemma option_loop_text (option_format : str) (rest : str) :
  forall i result in_tag start tabs inp_index,
    i + length rest = length option_format ->
    start <= i ->
    result = firstn start option_format ->
    fst (option_loop option_format i (rest ++ ["<"]) result in_tag start tabs inp_index)
    = option_format.
Proof.
  induction rest as [| char rest IH]; intros i result in_tag start tabs inp_index Hi Hs Hr.
  - cbn [app option_loop]. rewrite Ascii.eqb_refl. cbn [option_loop fst]. rewrite Hr.
    rewrite firstn_slice by exact Hs. cbn [length] in Hi.
    replace i with (length option_format) by lia. apply firstn_all.
  - cbn [length] in Hi. cbn [app option_loop].
    destruct (Ascii.eqb char "<").
    { apply IH; [lia | lia |]. rewrite Hr. apply firstn_slice. exact Hs. }
    destruct (Ascii.eqb char ">").
    { apply IH; [lia | lia |]. rewrite Hr. apply firstn_slice. lia. }
    destruct (Ascii.eqb char TAB); apply IH; first [lia | exact Hr].
Qed.

(** X19: the string that [_prepare_option_replacement] builds from the
    pieces of the format of an option is that format itself, whatever its
    tags are. *)
Theorem prepare_option_replacement_text (option_format : str) :
  fst (_prepare_option_replacement option_format) = option_format.
Proof.
  unfold _prepare_option_replacement. apply option_loop_text; [| lia |]; reflexivity.
Qed.

(** ** The pins of a guess *)


Import Mastermind.

(** The number of positions at which guess and solution agree. *)
Fixpoint agreements (code_guess solution_code : list Color) : nat :=
  match code_guess, solution_code with
  | g :: gs, s :: ss => (if Color_eq_dec g s then 1 else 0) + agreements gs ss
  | _, _ => 0
  end.

(** The number of colors that guess and solution have in common, counted
    with multiplicity, for the colors of [palette]. *)
Definition common (palette code_guess solution_code : list Color) : nat :=
  list_sum (map (fun c => Nat.min (count_occ Color_eq_dec code_guess c)
                                  (count_occ Color_eq_dec solution_code c)) palette).

(** The guess and the solution without the positions at which they agree. *)
Fixpoint rest_guess (code_guess solution_code : list Color) : list Color :=
  match code_guess, solution_code with
  | g :: gs, s :: ss => if Color_eq_dec g s then rest_guess gs ss else g :: rest_guess gs ss
  | gs, [] => gs
  | [], _ => []
  end.

Fixpoint rest_solution (code_guess solution_code : list Color) : list Color :=
  match code_guess, solution_code with
  | g :: gs, s :: ss =>
      if Color_eq_dec g s then rest_solution gs ss else s :: rest_solution gs ss
  | [], ss => ss
  | _, [] => []
  end.

(** The number of positions at which guess and solution agree on [c]. *)
Fixpoint agreements_on (c : Color) (code_guess solution_code : list Color) : nat :=
  match code_guess, solution_code with
  | g :: gs, s :: ss =>
      (if Color_eq_dec g s then if Color_eq_dec g c then 1 else 0 else 0)
        + agreements_on c gs ss
  | _, _ => 0
  end.

Lemma correct_position_from_ge (g s : list Color) :
  forall i j, In j (correct_position_from i g s) -> i <= j.
Proof.
  revert s. induction g as [| g0 g IH]; intros s i j; [intros [] |].
  destruct s as [| s0 s]; [intros [] |]. cbn [correct_position_from].
  rewrite in_app_iff. intros [H | H].
  - destruct (Color_eq_dec g0 s0); [| destruct H]. destruct H as [<- | []]. lia.
  - apply IH in H. lia.
Qed.

Lemma length_correct_position_from (g s : list Color) (i : nat) :
  length (correct_position_from i g s) = agreements g s.
Proof.
  revert s i. induction g as [| g0 g IH]; intros s i; [reflexivity |].
  destruct s as [| s0 s]; [reflexivity |]. cbn [correct_position_from agreements].
  rewrite length_app, IH. destruct (Color_eq_dec g0 s0); reflexivity.
Qed.

Lemma others_from_none (P : list nat) (xs : list Color) :
  forall i, (forall j, i <= j -> ~ In j P) -> others_from i P xs = xs.
Proof.
  induction xs as [| x xs IH]; intros i H; [reflexivity |].
  cbn [others_from]. destruct (in_dec Nat.eq_dec i P) as [Hin | _].
  - exfalso. apply (H i); [lia | exact Hin].
  - cbn [app]. f_equal. apply IH. intros j Hj. apply H. lia.
Qed.

Lemma others_from_rest (g s : list Color) (P : list nat) :
  forall i,
    (forall j, i <= j -> (In j P <-> In j (correct_position_from i g s))) ->
    others_from i P g = rest_guess g s /\ others_from i P s = rest_solution g s.
Proof.
  revert s. induction g as [| g0 g IH]; intros s i H.
  - cbn [correct_position_from] in H. split; [destruct s; reflexivity |].
    destruct s; [reflexivity |]. apply others_from_none. intros j Hj Hin.
    apply (H j Hj) in Hin. destruct Hin.
  - destruct s as [| s0 s].
    + split; [| reflexivity]. cbn [rest_guess]. apply others_from_none.
      intros j Hj Hin. apply (H j Hj) in Hin. destruct Hin.
    + cbn [correct_position_from] in H.
      assert (Hnext : forall j, S i <= j ->
                               (In j P <-> In j (correct_position_from (S i) g s))).
      { intros j Hj. rewrite (H j) by lia. rewrite in_app_iff. split; [| auto].
        intros [Hin | Hin]; [| exact Hin].
        destruct (Color_eq_dec g0 s0); [| destruct Hin]. destruct Hin as [<- | []]. lia. }
      destruct (IH s (S i) Hnext) as [IHg IHs].
      cbn [others_from rest_guess rest_solution]. rewrite IHg, IHs.
      destruct (Color_eq_dec g0 s0) as [Heq | Hne].
      * destruct (in_dec Nat.eq_dec i P) as [_ | Hn]; [split; reflexivity |].
        exfalso. apply Hn. apply (H i); [lia |]. left. reflexivity.
      * destruct (in_dec Nat.eq_dec i P) as [Hin | _]; [| split; reflexivity].
        exfalso. apply (H i) in Hin; [| lia]. cbn [app] in Hin.
        apply correct_position_from_ge in Hin. lia.
Qed.

Lemma count_rest (c : Color) (g s : list Color) :
  count_occ Color_eq_dec g c
  = count_occ Color_eq_dec (rest_guess g s) c + agreements_on c g s
  /\ count_occ Color_eq_dec s c
     = count_occ Color_eq_dec (rest_solution g s) c + agreements_on c g s.
Proof.
  revert s. induction g as [| g0 g IH]; intros s.
  - destruct s; cbn; split; lia.
  - destruct s as [| s0 s]; [cbn [rest_guess rest_solution agreements_on]; split; lia |].
    destruct (IH s) as [IHg IHs].
    cbn [rest_guess rest_solution agreements_on].
    destruct (Color_eq_dec g0 s0) as [<- | Hne].
    + cbn [count_occ]. destruct (Color_eq_dec g0 c); split; lia.
    + cbn [count_occ]. destruct (Color_eq_dec g0 c), (Color_eq_dec s0 c); split; lia.
Qed.

Lemma list_sum_cons (x : nat) (l : list nat) : list_sum (x :: l) = x + list_sum l.
Proof. reflexivity. Qed.

Lemma sum_zero (palette : list Color) (f : Color -> nat) :
  (forall c, f c = 0) -> list_sum (map f palette) = 0.
Proof.
  intros H. induction palette as [| x l IH]; [reflexivity |].
  cbn [map]. rewrite ?list_sum_cons. rewrite H, IH. reflexivity.
Qed.

Lemma sum_agreements_on (palette g s : list Color) :
  NoDup palette -> incl g palette ->
  list_sum (map (fun c => agreements_on c g s) palette) = agreements g s.
Proof.
  intros Hnd. revert s. induction g as [| g0 g IH]; intros s Hincl.
  - apply sum_zero. reflexivity.
  - destruct s as [| s0 s].
    + apply sum_zero. reflexivity.
    + cbn [agreements_on agreements].
      assert (Hg : incl g palette) by (intros x Hx; apply Hincl; right; exact Hx).
      rewrite <- (IH s Hg).
      assert (Hin : In g0 palette) by (apply Hincl; left; reflexivity).
      destruct (Color_eq_dec g0 s0) as [_ | _].
      * clear IH Hincl Hg. induction Hnd as [| x l Hx Hnd IHl]; [destruct Hin |].
        cbn [map]. rewrite ?list_sum_cons. destruct Hin as [-> | Hin].
        -- destruct (Color_eq_dec g0 g0); [| congruence].
           assert (Hz : list_sum (map (fun c => (if Color_eq_dec g0 c then 1 else 0)
                                                + agreements_on c g s) l)
                        = list_sum (map (fun c => agreements_on c g s) l)).
           { f_equal. apply map_ext_in. intros c Hc.
             destruct (Color_eq_dec g0 c); [subst; contradiction | reflexivity]. }
           rewrite Hz. lia.
        -- destruct (Color_eq_dec g0 x); [subst; contradiction |].
           rewrite (IHl Hin). lia.
      * reflexivity.
Qed.

Lemma count_remove_first (g c : Color) (l : list Color) :
  In g l ->
  count_occ Color_eq_dec l c
  = count_occ Color_eq_dec (remove_first g l) c + (if Color_eq_dec g c then 1 else 0).
Proof.
  induction l as [| x l IH]; [intros [] |]. intros Hin. cbn [remove_first].
  destruct (Color_eq_dec x g) as [-> | Hne].
  - cbn [count_occ]. destruct (Color_eq_dec g c); lia.
  - destruct Hin as [-> | Hin]; [congruence |]. cbn [count_occ]. rewrite (IH Hin).
    destruct (Color_eq_dec x c); lia.
Qed.

Lemma sum_one_more (palette : list Color) (f f' : Color -> nat) (g : Color) :
  NoDup palette -> In g palette ->
  (forall c, c <> g -> f c = f' c) -> f g = S (f' g) ->
  list_sum (map f palette) = S (list_sum (map f' palette)).
Proof.
  intros Hnd Hin Hother Hg. induction Hnd as [| x l Hx Hnd IH]; [destruct Hin |].
  cbn [map]. rewrite ?list_sum_cons. destruct Hin as [-> | Hin].
  - rewrite Hg. assert (Hl : map f l = map f' l).
    { apply map_ext_in. intros c Hc. apply Hother. intros ->. contradiction. }
    rewrite Hl. lia.
  - rewrite (IH Hin), (Hother x) by (intros ->; contradiction). lia.
Qed.

Lemma count_correct_color_common (palette : list Color) :
  NoDup palette ->
  forall gs ss n,
    incl gs palette -> count_correct_color gs ss n = n + common palette gs ss.
Proof.
  intros Hnd. induction gs as [| g gs IH]; intros ss n Hincl.
  - cbn [count_correct_color]. unfold common. cbn [count_occ Nat.min].
    rewrite sum_zero by reflexivity. lia.
  - assert (Hgs : incl gs palette) by (intros x Hx; apply Hincl; right; exact Hx).
    assert (Hg : In g palette) by (apply Hincl; left; reflexivity).
    cbn [count_correct_color]. destruct (in_dec Color_eq_dec g ss) as [Hin | Hn].
    + rewrite (IH _ _ Hgs). unfold common.
      rewrite (sum_one_more palette
                 (fun c => Nat.min (count_occ Color_eq_dec (g :: gs) c)
                                   (count_occ Color_eq_dec ss c))
                 (fun c => Nat.min (count_occ Color_eq_dec gs c)
                                   (count_occ Color_eq_dec (remove_first g ss) c))
                 g Hnd Hg); [lia | |].
      * intros c Hc. rewrite (count_remove_first g c ss Hin). cbn [count_occ].
        destruct (Color_eq_dec g c); [congruence | f_equal; lia].
      * rewrite (count_remove_first g g ss Hin). cbn [count_occ].
        destruct (Color_eq_dec g g); [lia | congruence].
    + rewrite (IH _ _ Hgs). f_equal. unfold common. f_equal. apply map_ext. intros c.
      cbn [count_occ]. destruct (Color_eq_dec g c) as [<- | _]; [| reflexivity].
      rewrite (proj1 (count_occ_not_In Color_eq_dec ss g) Hn). lia.
Qed.

Lemma incl_rest_guess (g s : list Color) : incl (rest_guess g s) g.
Proof.
  revert s. induction g as [| g0 g IH]; intros s x; [destruct s; intros [] |].
  destruct s as [| s0 s]; [cbn; auto |]. cbn [rest_guess].
  destruct (Color_eq_dec g0 s0).
  - intros H. right. exact (IH s x H).
  - intros [<- | H]; [left; reflexivity | right; exact (IH s x H)].
Qed.

Lemma agreements_on_le (c : Color) (g s : list Color) :
  agreements_on c g s <= Nat.min (count_occ Color_eq_dec g c) (count_occ Color_eq_dec s c).
Proof. destruct (count_rest c g s) as [H1 H2]. lia. Qed.

Lemma sum_minus (palette : list Color) (f k : Color -> nat) :
  (forall c, k c <= f c) ->
  list_sum (map (fun c => f c - k c) palette)
  = list_sum (map f palette) - list_sum (map k palette).
Proof.
  intros H. induction palette as [| x l IH]; [reflexivity |].
  cbn [map]. rewrite ?list_sum_cons. rewrite IH.
  assert (Hle : list_sum (map k l) <= list_sum (map f l)).
  { clear IH. induction l as [| y l IHl]; [reflexivity |].
    cbn [map]. rewrite !list_sum_cons. specialize (H y). lia. }
  specialize (H x). lia.
Qed.

Lemma calc_pins_formula (palette code_guess solution_code : list Color) :
  NoDup palette -> incl code_guess palette ->
  calc_pins code_guess solution_code
  = repeat CORRECT_POSITION (agreements code_guess solution_code)
      ++ repeat CORRECT_COLOR (common palette code_guess solution_code
                               - agreements code_guess solution_code).
Proof.
  intros Hnd Hincl. unfold calc_pins.
  rewrite length_correct_position_from.
  destruct (others_from_rest code_guess solution_code
              (correct_position_from 0 code_guess solution_code) 0) as [Hg Hs];
    [intros j _; reflexivity |].
  rewrite Hg, Hs.
  rewrite (count_correct_color_common palette Hnd)
    by (intros x Hx; apply Hincl; apply (incl_rest_guess code_guess solution_code); exact Hx).
  cbn [Nat.add]. f_equal. f_equal.
  rewrite <- (sum_agreements_on palette code_guess solution_code Hnd Hincl).
  unfold common. rewrite <- sum_minus by (intros c; apply agreements_on_le).
  f_equal. apply map_ext. intros c.
  destruct (count_rest c code_guess solution_code) as [H1 H2]. lia.
Qed.

Lemma COLORS_NoDup : NoDup COLORS.
Proof.
  apply (NoDup_count_occ' Color_eq_dec). intros c Hc.
  repeat (destruct Hc as [<- | Hc]; [vm_compute; reflexivity |]). destruct Hc.
Qed.

Lemma game_colors (code : list Color) :
  forallb (fun c => if in_dec Color_eq_dec c COLORS then true else false) code = true ->
  incl code COLORS.
Proof.
  intros H c Hc. rewrite forallb_forall in H. specialize (H c Hc).
  destruct (in_dec Color_eq_dec c COLORS); [assumption | discriminate].
Qed.

(** X20: the pins are those of the rules of the game: one pin for a correct
    position for every position at which guess and solution agree, followed
    by one pin for a correct color for every further color that guess and
    solution have in common, counted with multiplicity. *)
Theorem calc_pins_rule (code_guess solution_code : list Color) :
  incl code_guess COLORS -> incl solution_code COLORS ->
  calc_pins code_guess solution_code
  = repeat CORRECT_POSITION (agreements code_guess solution_code)
      ++ repeat CORRECT_COLOR (common COLORS code_guess solution_code
                               - agreements code_guess solution_code).
Proof. intros Hg _. apply calc_pins_formula; [exact COLORS_NoDup | exact Hg]. Qed.

Lemma calc_pins_rule_witness :
  calc_pins [C1; C2; C3; C3] [C1; C3; C2; C4]
  = repeat CORRECT_POSITION (agreements [C1; C2; C3; C3] [C1; C3; C2; C4])
      ++ repeat CORRECT_COLOR (common COLORS [C1; C2; C3; C3] [C1; C3; C2; C4]
                               - agreements [C1; C2; C3; C3] [C1; C3; C2; C4]).
Proof.
  apply calc_pins_rule; apply game_colors; vm_compute; reflexivity.
Defined.

Lemma agreements_sym (g s : list Color) : agreements g s = agreements s g.
Proof.
  revert s. induction g as [| g0 g IH]; intros [| s0 s]; try reflexivity.
  cbn [agreements]. rewrite IH.
  destruct (Color_eq_dec g0 s0), (Color_eq_dec s0 g0); congruence.
Qed.

Lemma common_sym (palette g s : list Color) : common palette g s = common palette s g.
Proof. unfold common. f_equal. apply map_ext. intros c. apply Nat.min_comm. Qed.

Lemma agreements_le_common (palette g s : list Color) :
  NoDup palette -> incl g palette -> agreements g s <= common palette g s.
Proof.
  intros Hnd Hincl. rewrite <- (sum_agreements_on palette g s Hnd Hincl). unfold common.
  induction palette as [| x l IH]; [reflexivity |].
  cbn [map]. rewrite !list_sum_cons. pose proof (agreements_on_le x g s).
  assert (Hl : list_sum (map (fun c => agreements_on c g s) l)
               <= list_sum (map (fun c => Nat.min (count_occ Color_eq_dec g c)
                                                 (count_occ Color_eq_dec s c)) l)).
  { clear. induction l as [| y l IHl]; [reflexivity |].
    cbn [map]. rewrite !list_sum_cons. pose proof (agreements_on_le y g s). lia. }
  lia.
Qed.

Lemma sum_count_le (palette g : list Color) :
  NoDup palette ->
  list_sum (map (fun c => count_occ Color_eq_dec g c) palette) <= length g.
Proof.
  intros Hnd. induction g as [| x g IH].
  - rewrite sum_zero by reflexivity. lia.
  - cbn [length]. destruct (in_dec Color_eq_dec x palette) as [Hin | Hn].
    + rewrite (sum_one_more palette (fun c => count_occ Color_eq_dec (x :: g) c)
                 (fun c => count_occ Color_eq_dec g c) x Hnd Hin); [lia | |].
      * intros c Hc. cbn [count_occ]. destruct (Color_eq_dec x c); congruence.
      * cbn [count_occ]. destruct (Color_eq_dec x x); congruence.
    + assert (Heq : map (fun c => count_occ Color_eq_dec (x :: g) c) palette
                    = map (fun c => count_occ Color_eq_dec g c) palette).
      { apply map_ext_in. intros c Hc. cbn [count_occ].
        destruct (Color_eq_dec x c); [subst; contradiction | reflexivity]. }
      rewrite Heq. lia.
Qed.

Lemma common_le (palette g s : list Color) :
  NoDup palette -> common palette g s <= length g.
Proof.
  intros Hnd. pose proof (sum_count_le palette g Hnd) as H. unfold common.
  assert (Hl : list_sum (map (fun c => Nat.min (count_occ Color_eq_dec g c)
                                               (count_occ Color_eq_dec s c)) palette)
               <= list_sum (map (fun c => count_occ Color_eq_dec g c) palette)).
  { clear. induction palette as [| y l IHl]; [reflexivity |].
    cbn [map]. rewrite !list_sum_cons. lia. }
  lia.
Qed.

Lemma agreements_all (g s : list Color) :
  length g = length s -> agreements g s = length s -> g = s.
Proof.
  revert s. induction g as [| g0 g IH]; intros [| s0 s]; try discriminate; [reflexivity |].
  cbn [length agreements]. intros Hlen Hag.
  assert (Hle : agreements g s <= length s).
  { clear. revert s. induction g as [| g0 g IH]; intros [| s0 s]; cbn [agreements length];
      try lia. specialize (IH s). destruct (Color_eq_dec g0 s0); lia. }
  destruct (Color_eq_dec g0 s0) as [-> | Hne]; [| lia].
  f_equal. apply IH; lia.
Qed.

Lemma agreements_refl (s : list Color) : agreements s s = length s.
Proof.
  induction s as [| x s IH]; [reflexivity |]. cbn [agreements length].
  destruct (Color_eq_dec x x); [lia | congruence].
Qed.

Lemma pins_count (a w n : nat) :
  repeat CORRECT_POSITION a ++ repeat CORRECT_COLOR w = repeat CORRECT_POSITION n -> a = n.
Proof.
  intros H. apply (f_equal (fun l => count_occ Z.eq_dec l CORRECT_POSITION)) in H.
  rewrite count_occ_app in H.
  rewrite (count_occ_repeat_eq Z.eq_dec a (eq_refl CORRECT_POSITION)) in H.
  rewrite (count_occ_repeat_eq Z.eq_dec n (eq_refl CORRECT_POSITION)) in H.
  rewrite count_occ_repeat_neq in H by discriminate. lia.
Qed.

(** X21: the pins do not depend on which of the two codes is the guess; there
    are at most as many pins as the shorter code has colors; and for codes
    of the same length every position has a pin for a correct position
    exactly when the guess is the solution. *)
Theorem calc_pins_feedback (code_guess solution_code : list Color) :
  incl code_guess COLORS -> incl solution_code COLORS ->
  calc_pins code_guess solution_code = calc_pins solution_code code_guess
  /\ length (calc_pins code_guess solution_code)
     <= Nat.min (length code_guess) (length solution_code)
  /\ (length code_guess = length solution_code ->
      (calc_pins code_guess solution_code = repeat CORRECT_POSITION (length solution_code)
       <-> code_guess = solution_code)).
Proof.
  intros Hg Hs. pose proof COLORS_NoDup as Hnd.
  rewrite (calc_pins_formula COLORS code_guess solution_code Hnd Hg).
  rewrite (calc_pins_formula COLORS solution_code code_guess Hnd Hs).
  pose proof (agreements_le_common COLORS code_guess solution_code Hnd Hg) as Hle.
  pose proof (common_le COLORS code_guess solution_code Hnd) as Hcg.
  pose proof (common_le COLORS solution_code code_guess Hnd) as Hcs.
  rewrite (common_sym COLORS solution_code code_guess) in *.
  rewrite (agreements_sym solution_code code_guess).
  split; [reflexivity |]. split.
  - rewrite length_app, !repeat_length. lia.
  - intros Hlen. split.
    + intros H. apply pins_count in H. apply agreements_all; assumption.
    + intros ->. rewrite agreements_refl in *.
      replace (common COLORS solution_code solution_code - length solution_code) with 0
        by lia.
      apply app_nil_r.
Qed.

Lemma calc_pins_feedback_witness :
  calc_pins [C1; C2; C3; C3] [C1; C3; C2; C4] = calc_pins [C1; C3; C2; C4] [C1; C2; C3; C3]
  /\ length (calc_pins [C1; C2; C3; C3] [C1; C3; C2; C4]) <= Nat.min 4 4
  /\ (4 = 4 ->
      (calc_pins [C1; C2; C3; C3] [C1; C3; C2; C4] = repeat CORRECT_POSITION 4
       <-> [C1; C2; C3; C3] = [C1; C3; C2; C4])).
Proof.
  apply (calc_pins_feedback [C1; C2; C3; C3] [C1; C3; C2; C4]);
    apply game_colors; vm_compute; reflexivity.
Defined.

(** ** Guesses *)

(** A guess that fits a row of four: no guess, four tiles, or a tile for
    one of the four columns. *)
Definition fits (g : guess) : Prop :=
  match g with
  | NoGuess => True
  | GuessList tiles => length tiles = 4
  | GuessTuple index _ => (0 <= index < 4)%Z
  end.

Lemma column_digit (c : ascii) :
  char_in c (py "1234") = true -> (0 <= Z.of_N (N_of_ascii c) - 48 - 1 < 4)%Z.
Proof.
  each_char c; intros H; try discriminate H; vm_compute; split; congruence.
Qed.

Lemma letter_lookup (c : ascii) :
  str_in [c] AVAILABLE_INPUT_LETTERS = true ->
  exists t, dict_get LETTER_COLOR_MAPPING [c] = Some t.
Proof.
  each_char c; intros H; try discriminate H; eexists; vm_compute; reflexivity.
Qed.

Lemma lookup_all_letters (letters : str) :
  forallb (fun c => str_in [c] AVAILABLE_INPUT_LETTERS) letters = true ->
  exists ts, lookup_all letters = Some ts /\ length ts = length letters.
Proof.
  induction letters as [| c letters IH]; [exists []; auto |].
  cbn [forallb]. intros H. apply andb_prop in H as [Hc H].
  destruct (IH H) as (ts & Hts & Hlen). destruct (letter_lookup c Hc) as [t Ht].
  exists (t :: ts). cbn [lookup_all]. rewrite Ht, Hts. cbn [length]. auto.
Qed.

Section ValidateGuess.

Context {B : Builtins}.

(** X22: [validate_guess] looks up only letters that are keys, so it raises no
    [KeyError]; it leaves the global variables as they are when it returns
    a message; and when the guess that was stored before fits a row of
    four, so does the guess that is stored afterwards. *)
Theorem validate_guess_globals (st : globals) (line : str) :
  exists st' msg,
    validate_guess st line = Some (st', msg)
    /\ (msg <> None -> st' = st)
    /\ (fits (current_guess st) -> fits (current_guess st')).
Proof.
  unfold validate_guess.
  set (u := filter _ (upper line)). clearbody u.
  destruct (Nat.eqb (length u) 0); [exists st, (Some INVALID_INPUT_MSG); auto |].
  destruct (str_eqb u (py ".")).
  { eexists _, None. split; [reflexivity |]. split; [congruence | auto]. }
  set (p := if Ascii.eqb (last u " ") "." then (true, removelast u) else (false, u)).
  clearbody p. destruct p as [confirm v].
  destruct (Nat.eqb (length v) 2 && char_in (nth 0 v " ") (py "1234")
            && str_in [nth 1 v " "] AVAILABLE_INPUT_LETTERS) eqn:Htwo.
  { apply andb_prop in Htwo as [Htwo Hletter]. apply andb_prop in Htwo as [_ Hdigit].
    destruct (letter_lookup _ Hletter) as [t ->].
    eexists _, None. split; [reflexivity |]. split; [congruence |].
    intros _. cbn [current_guess fits]. apply column_digit. exact Hdigit. }
  destruct (Nat.eqb (length v) 4) eqn:Hfour; cbn [negb];
    [| exists st, (Some INVALID_INPUT_MSG); auto].
  destruct (forallb (fun c => str_in [c] AVAILABLE_INPUT_LETTERS) v) eqn:Hall; cbn [negb];
    [| exists st, (Some INVALID_INPUT_MSG); auto].
  destruct (lookup_all_letters v Hall) as (ts & -> & Hlen).
  eexists _, None. split; [reflexivity |]. split; [congruence |].
  intros _. cbn [current_guess fits]. rewrite Hlen. apply Nat.eqb_eq. exact Hfour.
Qed.

End ValidateGuess.

Lemma set_tile_fits (row : list (option Color)) (index : Z) (value : tile) :
  (0 <= index < Z.of_nat (length row))%Z ->
  exists row', set_tile row index value = Ok row' /\ length row' = length row.
Proof.
  intros Hi. unfold set_tile.
  assert (Hassign : forall x,
             exists row',
               (if (0 <=? (if (index <? 0)%Z then (index + Z.of_nat (length row))%Z
                           else index))%Z
                   && ((if (index <? 0)%Z then (index + Z.of_nat (length row))%Z else index)
                       <? Z.of_nat (length row))%Z
                then Ok (firstn (Z.to_nat (if (index <? 0)%Z
                                           then (index + Z.of_nat (length row))%Z
                                           else index)) row
                           ++ x :: skipn (S (Z.to_nat (if (index <? 0)%Z
                                                       then (index + Z.of_nat (length row))%Z
                                                       else index))) row)
                else Raise IndexError) = Ok row'
               /\ length row' = length row).
  { intros x. replace (index <? 0)%Z with false by (symmetry; apply Z.ltb_ge; lia).
    replace ((0 <=? index)%Z && (index <? Z.of_nat (length row))%Z) with true
      by (symmetry; apply andb_true_intro; lia).
    eexists. split; [reflexivity |].
    rewrite length_app. cbn [length]. rewrite length_firstn, length_skipn. lia. }
  destruct value as [c | n]; [apply Hassign |].
  destruct (n =? DELETE)%Z; [apply Hassign |]. exists row. auto.
Qed.

Lemma set_tiles_from_fits (tiles : list tile) :
  forall i row,
    i + length tiles <= length row ->
    exists row', set_tiles_from i row tiles = Ok row' /\ length row' = length row.
Proof.
  induction tiles as [| t tiles IH]; intros i row Hlen; [exists row; auto |].
  cbn [set_tiles_from length] in *.
  destruct (set_tile_fits row (Z.of_nat i) t) as (row1 & -> & H1); [lia |].
  cbn [bind]. destruct (IH (S i) row1) as (row' & H & H2); [lia |].
  exists row'. split; [exact H | lia].
Qed.

(** X23: a guess that fits is applied to a row of four without an index out of
    range, and the row keeps its four places. *)
Theorem apply_guess_fits (row : list (option Color)) (g : guess) :
  length row = 4 -> fits g ->
  exists row', apply_guess row g = Ok row' /\ length row' = 4.
Proof.
  intros Hrow Hg. destruct g as [| tiles | index value]; cbn [apply_guess fits] in *.
  - exists row. auto.
  - destruct (set_tiles_from_fits tiles 0 row) as (row' & H1 & H2); [lia |].
    exists row'. split; [exact H1 | lia].
  - destruct (set_tile_fits row index value) as (row' & H1 & H2); [lia |].
    exists row'. split; [exact H1 | lia].
Qed.

Lemma apply_guess_fits_witness :
  exists row', apply_guess [None; Some C1; None; None] (GuessTuple 1 (TileInt DELETE)) = Ok row'
               /\ length row' = 4.
Proof.
  apply apply_guess_fits; [reflexivity | cbn; lia].
Defined.

Lemma validate_guess_globals_witness :
  exists st' msg,
    validate_guess (mkGlobals NoGuess false) (py "3x.") = Some (st', msg)
    /\ (msg <> None -> st' = mkGlobals NoGuess false)
    /\ (fits NoGuess -> fits (current_guess st')).
Proof.
  apply (validate_guess_globals (mkGlobals NoGuess false) (py "3x.")).
Defined.
